(** * Change detection and deduplication of the mail notifier

    A shallow embedding of the three mail sources of the application
    ([MailService], [GmailApiPollingService], [OutlookGraphPollingService])
    and of the process bootstrap, followed by the properties of the cursor,
    the bounded dedup cache, the token cache and the scan guard.

    Conventions of the embedding:
    - a JavaScript [number] that the code uses as a count, a uid or an
      instant in milliseconds is a [Z];
    - an optional field ([x?: T], [T | undefined | null]) is an [option];
    - a [Set<string>] is a [gset string], an array a [list];
    - a string is the sequence of the bytes of its UTF-8 encoding, as the
      settings are read from the environment: a character outside the ASCII
      range takes two to four bytes, and none of its bytes is below 128;
    - a promise is run to completion: an [async] method is a function from
      the state to the new state and an [Outcome] (returned, threw, or never
      returns); the answers of the outside world (IMAP server, SMTP
      transport, REST endpoints, clock) are arguments or oracles indexed by
      the number of calls made so far;
    - the one loop that may not end, the eviction loop of [trackProcessed],
      runs on fuel, and a method that enters it without leaving it has the
      outcome [Diverges];
    - the interleaving of several activations at their [await] points is
      modelled separately, by the event machines of the modules [MailAsync]
      and [GmailAsync], and related to the uninterrupted scans at the end. *)

From Stdlib Require Import ZArith Ascii String Sorted.
From stdpp Require Import gmap strings list pretty.

Set Warnings "-clear-no-such-hyp".

Open Scope Z_scope.

(** ** JavaScript helpers *)

Module Js.

(** How an [async] method ends. *)
Inductive Outcome :=
| Returned
| Threw (message : string)
| Diverges.

(** Truthiness of a possibly missing string: [undefined], [null] and the
    empty string are falsy. *)
Definition truthy (v : option string) : bool :=
  match v with
  | Some s => bool_decide (s ≠ EmptyString)
  | None => false
  end.

(** [v || d] on strings. *)
Definition orElse (v : option string) (d : string) : string :=
  match v with
  | Some s => if decide (s = EmptyString) then d else s
  | None => d
  end.

(** Truthiness of a number ([NaN] is outside the model). *)
Definition truthyNum (n : Z) : bool := bool_decide (n ≠ 0).

Definition lowerAscii (c : ascii) : ascii :=
  let n := nat_of_ascii c in
  if (65 <=? n)%nat && (n <=? 90)%nat then ascii_of_nat (n + 32) else c.

(** [String.prototype.toLowerCase], on the ASCII range: the bytes of a
    longer character are left as they are. The code lower-cases the flags,
    which it compares with [true], and the names of the headers [Subject]
    and [From]; no character outside the ASCII range lower-cases to a
    letter of these words. *)
Fixpoint toLowerCase (s : string) : string :=
  match s with
  | EmptyString => EmptyString
  | String c r => String (lowerAscii c) (toLowerCase r)
  end.

(** [WhiteSpace] and [LineTerminator] of ECMAScript, the characters that
    [String.prototype.trim] strips, by the length of their encoding.
    One byte: TAB, LF, VT, FF, CR (9 to 13) and SP (32). *)
Definition isSpace (c : ascii) : bool :=
  let n := nat_of_ascii c in
  (n =? 32)%nat || ((9 <=? n)%nat && (n <=? 13)%nat).

(** Two bytes: U+00A0 (C2 A0). *)
Definition isSpace2 (c1 c2 : ascii) : bool :=
  (nat_of_ascii c1 =? 194)%nat && (nat_of_ascii c2 =? 160)%nat.

(** Three bytes: U+1680 (E1 9A 80), U+2000 to U+200A (E2 80 80 to
    E2 80 8A), U+2028 and U+2029 (E2 80 A8, E2 80 A9), U+202F (E2 80 AF),
    U+205F (E2 81 9F), U+3000 (E3 80 80) and U+FEFF (EF BB BF). *)
Definition isSpace3 (c1 c2 c3 : ascii) : bool :=
  let a := nat_of_ascii c1 in
  let b := nat_of_ascii c2 in
  let d := nat_of_ascii c3 in
  ((a =? 225) && (b =? 154) && (d =? 128))%nat
  || ((a =? 226) && (b =? 128)
      && (((128 <=? d) && (d <=? 138)) || (d =? 168) || (d =? 169)
          || (d =? 175)))%nat
  || ((a =? 226) && (b =? 129) && (d =? 159))%nat
  || ((a =? 227) && (b =? 128) && (d =? 128))%nat
  || ((a =? 239) && (b =? 187) && (d =? 191))%nat.

(** [String.prototype.trimStart]: the characters of white space at the
    head are dropped, one character at a time. *)
Fixpoint trimStart (s : string) : string :=
  match s with
  | EmptyString => EmptyString
  | String c r =>
      if isSpace c then trimStart r
      else
        match r with
        | EmptyString => s
        | String c2 r2 =>
            if isSpace2 c c2 then trimStart r2
            else
              match r2 with
              | EmptyString => s
              | String c3 r3 =>
                  if isSpace3 c c2 c3 then trimStart r3 else s
              end
        end
  end.

(** Whether a string is made of white space only. *)
Definition blank (s : string) : bool :=
  match trimStart s with
  | EmptyString => true
  | String _ _ => false
  end.

(** [String.prototype.trimEnd]: the longest suffix made of white space
    only is dropped. No byte of a longer character starts a character of
    white space, so the cut falls between two characters. *)
Fixpoint trimEnd (s : string) : string :=
  match s with
  | EmptyString => EmptyString
  | String c r => if blank s then EmptyString else String c (trimEnd r)
  end.

(** [String.prototype.trim]. *)
Definition trim (s : string) : string := trimEnd (trimStart s).

(** The double quote, for the messages that quote a subject. *)
Definition dquote : string := String (ascii_of_nat 34) EmptyString.

(** [s.split(",")]. *)
Fixpoint splitComma (s : string) : list string :=
  match s with
  | EmptyString => [EmptyString]
  | String c r =>
      if decide (c = ascii_of_nat 44) then EmptyString :: splitComma r
      else
        match splitComma r with
        | h :: t => String c h :: t
        | [] => [String c EmptyString]
        end
  end.

(** A synchronous call that returns a value or throws. *)
Inductive Try (A : Type) :=
| Value (a : A)
| Raise (message : string).
Arguments Value {A} a.
Arguments Raise {A} message.

(** [ConfigService.get(key)] and [ConfigService.get(key, fallback)] over
    the environment of the process. *)
Definition get (env : gmap string string) (key : string) : option string :=
  env !! key.

Definition getOr (env : gmap string string) (key fallback : string)
  : string :=
  default fallback (env !! key).

(** The body shared by the three [isEnabled()] methods:
    the raw setting, or the empty string when it is missing, trimmed and
    lower-cased, is compared with [true]. *)
Definition flagIsTrue (raw : option string) : bool :=
  bool_decide (toLowerCase (trim (default EmptyString raw)) = "true").

End Js.
Import Js.

(** ** GmailApiPollingService (src/mail/gmail-api.service.ts) *)

Module Gmail.

Record GmailPollingConfig := {
  clientId : string;
  clientSecret : string;
  redirectUri : string;
  refreshToken : string;
  cronExpression : string;
  query : string;
  labelIds : list string;
  maxResults : Z;
  processedCache : Z;
}.

(** An entry of [response.data.messages]. *)
Record Schema_Message := { id : option string }.

Record Schema_MessagePartHeader := {
  name : option string;
  value : option string;
}.

(** What [gmail.users.messages.list] answers. *)
Inductive ListOutcome :=
| ListRejected (message : string)
| Listed (messages : option (list Schema_Message)).

(** What [gmail.users.messages.get] answers: the request fails, or the
    message comes back with [payload?.headers]. *)
Inductive GetOutcome :=
| GetRejected (message : string)
| Got (headers : option (list Schema_MessagePartHeader)).

(** What the service hands to its logger, one constructor per call site. *)
Inductive LogLine :=
| Disabled
| Ready (cron : string)
| InitFailed (err : string)
| PollFailed (err : string)
| NoMatching
| Detected (i from subject : string).

(** The fields of the service, and three observation fields: the lines
    logged so far and the number of calls made to each endpoint. *)
Record Service := {
  gmail : bool;
  config : option GmailPollingConfig;
  cronJob : bool;
  processedQueue : list string;
  processedSet : gset string;
  logged : list LogLine;
  listCalls : nat;
  getCalls : nat;
}.

Definition initial : Service :=
  {| gmail := false; config := None; cronJob := false;
     processedQueue := []; processedSet := ∅; logged := [];
     listCalls := 0; getCalls := 0 |}.

Definition set_cache (q : list string) (m : gset string) (s : Service) :=
  {| gmail := gmail s; config := config s; cronJob := cronJob s;
     processedQueue := q; processedSet := m; logged := logged s;
     listCalls := listCalls s; getCalls := getCalls s |}.

Definition log (l : LogLine) (s : Service) :=
  {| gmail := gmail s; config := config s; cronJob := cronJob s;
     processedQueue := processedQueue s; processedSet := processedSet s;
     logged := logged s ++ [l]; listCalls := listCalls s;
     getCalls := getCalls s |}.

Definition count_list (s : Service) :=
  {| gmail := gmail s; config := config s; cronJob := cronJob s;
     processedQueue := processedQueue s; processedSet := processedSet s;
     logged := logged s; listCalls := S (listCalls s);
     getCalls := getCalls s |}.

Definition count_get (s : Service) :=
  {| gmail := gmail s; config := config s; cronJob := cronJob s;
     processedQueue := processedQueue s; processedSet := processedSet s;
     logged := logged s; listCalls := listCalls s;
     getCalls := S (getCalls s) |}.

Definition set_config (c : GmailPollingConfig) (s : Service) :=
  {| gmail := gmail s; config := Some c; cronJob := cronJob s;
     processedQueue := processedQueue s; processedSet := processedSet s;
     logged := logged s; listCalls := listCalls s; getCalls := getCalls s |}.

Definition set_gmail (s : Service) :=
  {| gmail := true; config := config s; cronJob := cronJob s;
     processedQueue := processedQueue s; processedSet := processedSet s;
     logged := logged s; listCalls := listCalls s; getCalls := getCalls s |}.

Definition set_cronJob (s : Service) :=
  {| gmail := gmail s; config := config s; cronJob := true;
     processedQueue := processedQueue s; processedSet := processedSet s;
     logged := logged s; listCalls := listCalls s; getCalls := getCalls s |}.

(** The loop of [trackProcessed]:
    [while (queue.length > cap) { oldest = queue.shift();
                                  if (oldest) set.delete(oldest); }].
    One unit of fuel per iteration; [None] when the fuel runs out. *)
Fixpoint evict (fuel : nat) (cap : Z) (q : list string) (m : gset string)
  : option (list string * gset string) :=
  if decide (Z.of_nat (length q) > cap) then
    match fuel with
    | O => None
    | S fuel' =>
        match q with
        | [] => evict fuel' cap [] m
        | oldest :: q' =>
            evict fuel' cap q'
              (if truthy (Some oldest) then m ∖ {[oldest]} else m)
        end
    end
  else Some (q, m).

(** [trackProcessed(id)]. The loop shifts at most once per queued
    identifier before the queue is empty, so [length + 1] iterations decide
    it: [None] is a loop that never ends (see [evict_negative_diverges]). *)
Definition trackProcessed (i : string) (s : Service) : option Service :=
  match config s with
  | None => Some s
  | Some cfg =>
      if decide (i ∈ processedSet s) then Some s
      else
        let m := {[i]} ∪ processedSet s in
        let q := processedQueue s ++ [i] in
        match evict (S (length q)) (processedCache cfg) q m with
        | Some (q', m') => Some (set_cache q' m' s)
        | None => None
        end
  end.

(** A sequence of [trackProcessed] calls. *)
Fixpoint trackAll (ids : list string) (s : Service) : option Service :=
  match ids with
  | [] => Some s
  | i :: rest =>
      match trackProcessed i s with
      | Some s' => trackAll rest s'
      | None => None
      end
  end.

(** The identifiers that such a sequence adds to the cache, in the order
    of their insertion: a call adds its identifier unless the service has
    no configuration or the set already holds it. *)
Fixpoint inserted (ids : list string) (s : Service) : list string :=
  match ids with
  | [] => []
  | i :: rest =>
      match trackProcessed i s with
      | Some s' =>
          (if bool_decide (is_Some (config s))
              && negb (bool_decide (i ∈ processedSet s))
           then [i] else [])
            ++ inserted rest s'
      | None => []
      end
  end.

(** [asHeaderMap]: later headers overwrite earlier ones of the same
    lower-cased name; headers without a name or a value are dropped. *)
Definition asHeaderMap (headers : option (list Schema_MessagePartHeader))
  : gmap string string :=
  foldl
    (fun (m : gmap string string) h =>
       let n := toLowerCase <$> name h in
       match n, value h with
       | Some n', Some v =>
           if truthy n && truthy (value h) then <[n' := v]> m else m
       | _, _ => m
       end)
    ∅ (default [] headers).

(** The guard at the head of the loop body of [pollInbox],
    [if (!entry.id || this.processedSet.has(entry.id)) continue;]:
    the identifier with which the body goes on, if it does. *)
Definition candidate (entry : Schema_Message) (s : Service)
  : option string :=
  match id entry with
  | Some i =>
      if negb (truthy (Some i)) || bool_decide (i ∈ processedSet s)
      then None
      else Some i
  | None => None
  end.

(** The part of [inspectMessage] that follows
    [await this.gmail.users.messages.get(...)], given the answer. *)
Definition inspected (i : string) (answer : GetOutcome) (s : Service)
  : Service * Outcome :=
  match answer with
  | GetRejected e => (s, Threw e)
  | Got hs =>
      let headers := asHeaderMap hs in
      let subject := orElse (headers !! "subject") "(no subject)" in
      let from := orElse (headers !! "from") "unknown sender" in
      (log (Detected i from subject) s, Returned)
  end.

Section WithBackend.

(** [messagesGet n i]: the answer to the [n]-th call (from 0) of
    [gmail.users.messages.get], made for identifier [i]. *)
Variable messagesGet : nat → string → GetOutcome.

(** [inspectMessage(id)]: the request is sent, and the method goes on with
    its answer. *)
Definition inspectMessage (i : string) (s : Service) : Service * Outcome :=
  if negb (gmail s) then (s, Returned)
  else inspected i (messagesGet (getCalls s) i) (count_get s).

(** The [for (const entry of messages)] loop of [pollInbox]. *)
Fixpoint pollLoop (messages : list Schema_Message) (s : Service)
  : Service * Outcome :=
  match messages with
  | [] => (s, Returned)
  | entry :: rest =>
      match candidate entry s with
      | None => pollLoop rest s
      | Some i =>
          match inspectMessage i s with
          | (s1, Returned) =>
              match trackProcessed i s1 with
              | Some s2 => pollLoop rest s2
              | None => (s1, Diverges)
              end
          | (s1, o) => (s1, o)
          end
      end
  end.

(** [pollInbox()], given the answer of the listing call. *)
Definition pollInbox (listing : ListOutcome) (s : Service)
  : Service * Outcome :=
  if negb (gmail s) || negb (bool_decide (is_Some (config s)))
  then (s, Returned)
  else
    match listing with
    | ListRejected e => (count_list s, Threw e)
    | Listed ms =>
        let messages := default [] ms in
        if decide (length messages = 0%nat)
        then (log NoMatching (count_list s), Returned)
        else pollLoop messages (count_list s)
    end.

(** The cron callback of [registerCronJob]:
    [this.pollInbox().catch((err) => this.logger.error(...))]. *)
Definition onTick (listing : ListOutcome) (s : Service)
  : Service * Outcome :=
  match pollInbox listing s with
  | (s', Threw e) => (log (PollFailed e) s', Returned)
  | r => r
  end.

(** A sequence of ticks, each poll run to completion before the next. *)
Fixpoint runTicks (listings : list ListOutcome) (s : Service)
  : Service * Outcome :=
  match listings with
  | [] => (s, Returned)
  | l :: rest =>
      match onTick l s with
      | (s', Returned) => runTicks rest s'
      | r => r
      end
  end.

End WithBackend.

Section Startup.

(** The environment read through [ConfigService]; [Number(...)] of a
    setting; whether [new CronJob(expression, ...)] accepts the
    expression (it throws otherwise). *)
Variable env : gmap string string.
Variable toNumber : string → Z.
Variable cronAccepts : string → bool.

Definition isEnabled : bool := flagIsTrue (get env "GMAIL_API_ENABLED").

Definition requireEnv (key : string) : Try string :=
  match get env key with
  | Some v =>
      if truthy (Some v) then Value v
      else Raise ("Missing required environment variable " +:+ key)
  | None => Raise ("Missing required environment variable " +:+ key)
  end.

Definition numberOr (key : string) (fallback : Z) : Z :=
  match get env key with
  | Some v => toNumber v
  | None => fallback
  end.

Definition resolveConfig : Try GmailPollingConfig :=
  match requireEnv "GOOGLE_CLIENT_ID" with
  | Raise e => Raise e
  | Value cid =>
  match requireEnv "GOOGLE_CLIENT_SECRET" with
  | Raise e => Raise e
  | Value csecret =>
  match requireEnv "GOOGLE_REFRESH_TOKEN" with
  | Raise e => Raise e
  | Value rtoken =>
      let labels :=
        filter (fun l => l ≠ EmptyString)
          (trim <$> splitComma (getOr env "GMAIL_LABELS" "INBOX,UNREAD")) in
      Value
        {| clientId := cid;
           clientSecret := csecret;
           refreshToken := rtoken;
           redirectUri :=
             getOr env "GOOGLE_REDIRECT_URI"
               "https://developers.google.com/oauthplayground";
           cronExpression := getOr env "GMAIL_CRON_EXPRESSION" "*/5 * * * *";
           query := getOr env "GMAIL_QUERY" "is:unread newer_than:1d";
           labelIds := labels;
           maxResults := numberOr "GMAIL_MAX_RESULTS" 10;
           processedCache := numberOr "GMAIL_PROCESSED_CACHE" 100 |}
  end end end.

(** [registerCronJob(expression)]: the job is built, registered and
    started, then stored. *)
Definition registerCronJob (expression : string) (s : Service)
  : Try Service :=
  if cronAccepts expression then Value (set_cronJob s)
  else Raise "invalid cron expression".

(** [onModuleInit()]: everything after the enable check runs inside
    [try { ... } catch (err) { this.logger.error(...) }];
    [set_gmail] is the assignment of [createGmailClient(config)]. *)
Definition onModuleInit (s : Service) : Service * Outcome :=
  if negb isEnabled then (log Disabled s, Returned)
  else
    match resolveConfig with
    | Raise e => (log (InitFailed e) s, Returned)
    | Value cfg =>
        let s1 := set_gmail (set_config cfg s) in
        match registerCronJob (cronExpression cfg) s1 with
        | Raise e => (log (InitFailed e) s1, Returned)
        | Value s2 => (log (Ready (cronExpression cfg)) s2, Returned)
        end
    end.

End Startup.

(** The identifiers announced so far, in order: a notification of this
    source is the line that [inspectMessage] logs. *)
Definition notifications (s : Service) : list string :=
  omap (fun l => match l with Detected i _ _ => Some i | _ => None end)
    (logged s).

End Gmail.

(** ** OutlookGraphPollingService (mail/outlook-graph.service.ts; its text
    follows the Gmail service in gmail-api.service.ts) *)

Module Outlook.

Record OutlookPollingConfig := {
  tenantId : string;
  clientId : string;
  clientSecret : string;
  userId : string;
  folderId : string;
  cronExpression : string;
  top : Z;
  processedCache : Z;
}.

Record EmailAddress := {
  name : option string;
  address : option string;
}.

Record Recipient := { emailAddress : option EmailAddress }.

Record GraphMessage := {
  id : option string;
  subject : option string;
  from : option Recipient;
}.

(** The body of the token response after [JSON.parse]; [expires_in] is
    [None] when [typeof body.expires_in] is not [number]. *)
Record TokenBody := {
  access_token : option string;
  expires_in : option Z;
  token_type : option string;
}.

(** What the POST to the token endpoint answers: [fetch] rejects, or a
    response arrives with its [ok] flag, status, text, and the parsed text
    ([None] when [JSON.parse] throws). *)
Inductive TokenAnswer :=
| TokenRejected (message : string)
| TokenResponse (ok : bool) (status : Z) (bodyText : string)
    (body : option TokenBody).

(** What the GET of the folder's messages answers; the parsed body is the
    [value] field, if any. *)
Inductive ListAnswer :=
| ListRejected (message : string)
| ListResponse (ok : bool) (status : Z) (bodyText : string)
    (body : option (option (list GraphMessage))).

Inductive LogLine :=
| Disabled
| Ready (cron : string)
| InitFailed (err : string)
| PollFailed (err : string)
| NoMatching
| Detected (i : option string) (from subject : string).

(** The fields of the service, and three observation fields: the lines
    logged, the number of token exchanges and of listing requests sent. *)
Record Service := {
  config : option OutlookPollingConfig;
  cronJob : bool;
  processedQueue : list string;
  processedSet : gset string;
  accessToken : option string;
  accessTokenExpiresAtMs : Z;
  logged : list LogLine;
  tokenCalls : nat;
  listCalls : nat;
}.

Definition initial : Service :=
  {| config := None; cronJob := false; processedQueue := [];
     processedSet := ∅; accessToken := None; accessTokenExpiresAtMs := 0;
     logged := []; tokenCalls := 0; listCalls := 0 |}.

Definition set_cache (q : list string) (m : gset string) (s : Service) :=
  {| config := config s; cronJob := cronJob s; processedQueue := q;
     processedSet := m; accessToken := accessToken s;
     accessTokenExpiresAtMs := accessTokenExpiresAtMs s;
     logged := logged s; tokenCalls := tokenCalls s;
     listCalls := listCalls s |}.

Definition set_token (t : string) (expiresAt : Z) (s : Service) :=
  {| config := config s; cronJob := cronJob s;
     processedQueue := processedQueue s; processedSet := processedSet s;
     accessToken := Some t; accessTokenExpiresAtMs := expiresAt;
     logged := logged s; tokenCalls := tokenCalls s;
     listCalls := listCalls s |}.

Definition log (l : LogLine) (s : Service) :=
  {| config := config s; cronJob := cronJob s;
     processedQueue := processedQueue s; processedSet := processedSet s;
     accessToken := accessToken s;
     accessTokenExpiresAtMs := accessTokenExpiresAtMs s;
     logged := logged s ++ [l]; tokenCalls := tokenCalls s;
     listCalls := listCalls s |}.

Definition count_token (s : Service) :=
  {| config := config s; cronJob := cronJob s;
     processedQueue := processedQueue s; processedSet := processedSet s;
     accessToken := accessToken s;
     accessTokenExpiresAtMs := accessTokenExpiresAtMs s;
     logged := logged s; tokenCalls := S (tokenCalls s);
     listCalls := listCalls s |}.

Definition count_list (s : Service) :=
  {| config := config s; cronJob := cronJob s;
     processedQueue := processedQueue s; processedSet := processedSet s;
     accessToken := accessToken s;
     accessTokenExpiresAtMs := accessTokenExpiresAtMs s;
     logged := logged s; tokenCalls := tokenCalls s;
     listCalls := S (listCalls s) |}.

(** What the world answers during one call of [getAccessToken]: the first
    reading of [Date.now()], the answer of the token endpoint, and the
    reading of [Date.now()] that follows a successful exchange. The last
    two are consulted only when the exchange is made. *)
Record TokenWorld := {
  now : Z;
  answer : TokenAnswer;
  nowAfter : Z;
}.

(** The first statement of [getAccessToken]: the cached token, when
    [this.accessToken && now < this.accessTokenExpiresAtMs - 30_000]. *)
Definition cachedToken (now : Z) (s : Service) : option string :=
  match accessToken s with
  | Some cached =>
      if truthy (Some cached)
         && bool_decide (now < accessTokenExpiresAtMs s - 30000)
      then Some cached
      else None
  | None => None
  end.

(** The rest of [getAccessToken]: the client-credentials exchange. The
    fields are assigned only after every check has passed. *)
Definition exchangeToken (w : TokenWorld) (s : Service)
  : Service * Try string :=
  let s1 := count_token s in
  match answer w with
  | TokenRejected e => (s1, Raise e)
  | TokenResponse ok status bodyText body =>
      if negb ok then
        (s1, Raise ("Graph token request failed (" +:+ pretty status
                      +:+ "): " +:+ bodyText))
      else
        match body with
        | None => (s1, Raise "SyntaxError")
        | Some b =>
            if truthy (access_token b) then
              let t := default EmptyString (access_token b) in
              let expiresInSec := default 3600 (expires_in b) in
              (set_token t (nowAfter w + expiresInSec * 1000) s1, Value t)
            else (s1, Raise "Graph token response missing access_token")
        end
  end.

(** [getAccessToken(config)]. *)
Definition getAccessToken (w : TokenWorld) (s : Service)
  : Service * Try string :=
  match cachedToken (now w) s with
  | Some cached => (s, Value cached)
  | None => exchangeToken w s
  end.

(** The loop of [trackProcessed], as in the Gmail service. *)
Fixpoint evict (fuel : nat) (cap : Z) (q : list string) (m : gset string)
  : option (list string * gset string) :=
  if decide (Z.of_nat (length q) > cap) then
    match fuel with
    | O => None
    | S fuel' =>
        match q with
        | [] => evict fuel' cap [] m
        | oldest :: q' =>
            evict fuel' cap q'
              (if truthy (Some oldest) then m ∖ {[oldest]} else m)
        end
    end
  else Some (q, m).

(** [trackProcessed(id)]. *)
Definition trackProcessed (i : string) (s : Service) : option Service :=
  match config s with
  | None => Some s
  | Some cfg =>
      if decide (i ∈ processedSet s) then Some s
      else
        let m := {[i]} ∪ processedSet s in
        let q := processedQueue s ++ [i] in
        match evict (S (length q)) (processedCache cfg) q m with
        | Some (q', m') => Some (set_cache q' m' s)
        | None => None
        end
  end.

(** A sequence of [trackProcessed] calls. *)
Fixpoint trackAll (ids : list string) (s : Service) : option Service :=
  match ids with
  | [] => Some s
  | i :: rest =>
      match trackProcessed i s with
      | Some s' => trackAll rest s'
      | None => None
      end
  end.

(** The identifiers that such a sequence adds to the cache, in the order
    of their insertion: a call adds its identifier unless the service has
    no configuration or the set already holds it. *)
Fixpoint inserted (ids : list string) (s : Service) : list string :=
  match ids with
  | [] => []
  | i :: rest =>
      match trackProcessed i s with
      | Some s' =>
          (if bool_decide (is_Some (config s))
              && negb (bool_decide (i ∈ processedSet s))
           then [i] else [])
            ++ inserted rest s'
      | None => []
      end
  end.

(** [logMessage(message)]. *)
Definition logMessage (message : GraphMessage) (s : Service) : Service :=
  let subject := orElse (subject message) "(no subject)" in
  let fromName := (from message ≫= emailAddress) ≫= name in
  let fromAddress := (from message ≫= emailAddress) ≫= address in
  let from := orElse fromName (orElse fromAddress "unknown sender") in
  log (Detected (id message) from subject) s.

(** What the world answers during one poll. *)
Record PollWorld := {
  token : TokenWorld;
  listing : ListAnswer;
}.

(** [listUnreadMessages(config)]. *)
Definition listUnreadMessages (w : PollWorld) (s : Service)
  : Service * Try (list GraphMessage) :=
  match getAccessToken (token w) s with
  | (s1, Raise e) => (s1, Raise e)
  | (s1, Value t) =>
      let s2 := count_list s1 in
      match listing w with
      | ListRejected e => (s2, Raise e)
      | ListResponse ok status bodyText body =>
          if negb ok then
            (s2, Raise ("Graph list messages failed (" +:+ pretty status
                          +:+ "): " +:+ bodyText))
          else
            match body with
            | None => (s2, Raise "SyntaxError")
            | Some value => (s2, Value (default [] value))
            end
      end
  end.

(** The guard at the head of the loop body of [pollInbox],
    [if (!id || this.processedSet.has(id)) continue;]. *)
Definition candidate (message : GraphMessage) (s : Service)
  : option string :=
  match id message with
  | Some i =>
      if negb (truthy (Some i)) || bool_decide (i ∈ processedSet s)
      then None
      else Some i
  | None => None
  end.

(** The [for (const message of messages)] loop of [pollInbox]. *)
Fixpoint pollLoop (messages : list GraphMessage) (s : Service)
  : Service * Outcome :=
  match messages with
  | [] => (s, Returned)
  | message :: rest =>
      match candidate message s with
      | None => pollLoop rest s
      | Some i =>
          match trackProcessed i (logMessage message s) with
          | Some s2 => pollLoop rest s2
          | None => (logMessage message s, Diverges)
          end
      end
  end.

(** [pollInbox()]. *)
Definition pollInbox (w : PollWorld) (s : Service) : Service * Outcome :=
  match config s with
  | None => (s, Returned)
  | Some cfg =>
      match listUnreadMessages w s with
      | (s1, Raise e) => (s1, Threw e)
      | (s1, Value messages) =>
          if decide (length messages = 0%nat)
          then (log NoMatching s1, Returned)
          else pollLoop messages s1
      end
  end.

(** The cron callback of [registerCronJob]. *)
Definition onTick (w : PollWorld) (s : Service) : Service * Outcome :=
  match pollInbox w s with
  | (s', Threw e) => (log (PollFailed e) s', Returned)
  | r => r
  end.

Definition set_config (c : OutlookPollingConfig) (s : Service) :=
  {| config := Some c; cronJob := cronJob s;
     processedQueue := processedQueue s; processedSet := processedSet s;
     accessToken := accessToken s;
     accessTokenExpiresAtMs := accessTokenExpiresAtMs s;
     logged := logged s; tokenCalls := tokenCalls s;
     listCalls := listCalls s |}.

Definition set_cronJob (s : Service) :=
  {| config := config s; cronJob := true;
     processedQueue := processedQueue s; processedSet := processedSet s;
     accessToken := accessToken s;
     accessTokenExpiresAtMs := accessTokenExpiresAtMs s;
     logged := logged s; tokenCalls := tokenCalls s;
     listCalls := listCalls s |}.

Section Startup.

Variable env : gmap string string.
Variable toNumber : string → Z.
Variable cronAccepts : string → bool.

Definition isEnabled : bool := flagIsTrue (get env "OUTLOOK_API_ENABLED").

Definition requireEnv (key : string) : Try string :=
  match get env key with
  | Some v =>
      if truthy (Some v) then Value v
      else Raise ("Missing required environment variable " +:+ key)
  | None => Raise ("Missing required environment variable " +:+ key)
  end.

Definition numberOr (key : string) (fallback : Z) : Z :=
  match get env key with
  | Some v => toNumber v
  | None => fallback
  end.

Definition resolveConfig : Try OutlookPollingConfig :=
  match requireEnv "OUTLOOK_TENANT_ID" with
  | Raise e => Raise e
  | Value tenant =>
  match requireEnv "OUTLOOK_CLIENT_ID" with
  | Raise e => Raise e
  | Value cid =>
  match requireEnv "OUTLOOK_CLIENT_SECRET" with
  | Raise e => Raise e
  | Value csecret =>
  match requireEnv "OUTLOOK_USER_ID" with
  | Raise e => Raise e
  | Value user =>
      Value
        {| tenantId := tenant;
           clientId := cid;
           clientSecret := csecret;
           userId := user;
           folderId := getOr env "OUTLOOK_FOLDER_ID" "inbox";
           cronExpression :=
             getOr env "OUTLOOK_CRON_EXPRESSION" "*/5 * * * *";
           top := numberOr "OUTLOOK_TOP" 10;
           processedCache := numberOr "OUTLOOK_PROCESSED_CACHE" 100 |}
  end end end end.

Definition registerCronJob (expression : string) (s : Service)
  : Try Service :=
  if cronAccepts expression then Value (set_cronJob s)
  else Raise "invalid cron expression".

(** [onModuleInit()]: as in the Gmail service, the start-up runs inside
    a [try] whose [catch] only logs. *)
Definition onModuleInit (s : Service) : Service * Outcome :=
  if negb isEnabled then (log Disabled s, Returned)
  else
    match resolveConfig with
    | Raise e => (log (InitFailed e) s, Returned)
    | Value cfg =>
        let s1 := set_config cfg s in
        match registerCronJob (cronExpression cfg) s1 with
        | Raise e => (log (InitFailed e) s1, Returned)
        | Value s2 => (log (Ready (cronExpression cfg)) s2, Returned)
        end
    end.

End Startup.

Definition notifications (s : Service) : list (option string) :=
  omap (fun l => match l with Detected i _ _ => Some i | _ => None end)
    (logged s).

End Outlook.

(** ** MailService (mail.service.ts): the push-subscribed IMAP watcher *)

Module Mail.

Record MailWatcherConfig := {
  imapHost : string;
  imapPort : Z;
  imapUser : string;
  imapPass : string;
  mailbox : string;
  smtpHost : string;
  smtpPort : Z;
  smtpSecure : bool;
  smtpUser : string;
  smtpPass : string;
  notifyRecipient : string;
  notifyFrom : string;
}.

Record MessageAddressObject := {
  name : option string;
  address : option string;
}.

Record MessageEnvelopeObject := {
  from : option (list MessageAddressObject);
  subject : option string;
}.

Record FetchMessageObject := {
  uid : Z;
  envelope : option MessageEnvelopeObject;
}.

(** [imapClient.mailbox]: the number of messages ([exists] in the source)
    and the predicted next uid. *)
Record MailboxObject := {
  exists_ : Z;
  uidNext : option Z;
}.

(** The argument of [smtpTransport.sendMail]. *)
Record MailOptions := {
  mail_from : string;
  mail_to : string;
  mail_subject : string;
  mail_text : string;
}.

(** What the iterator of [imapClient.fetch] produces during one scan: the
    messages it yields, then the end of the iteration or a failure. *)
Record Fetched := {
  yielded : list FetchMessageObject;
  failure : option string;
}.

Inductive LogLine :=
| Disabled
| SmtpVerifyFailed (err : string)
| SmtpReady (host : string) (port : Z)
| StartFailed (err : string)
| Watching (mailbox : string)
| ProcessFailed (err : string)
| Forwarding (fromDisplay : string).

(** One call of [sendNotification] made by the scan loop, for the message
    of that uid, and whether it returned. *)
Record Attempt := {
  attempt_uid : Z;
  attempt_ok : bool;
}.

(** The fields of the service ([imapClient] and [smtpTransport] as
    presence flags, [watching] for the registered [exists] handler), and
    the observation fields: lines logged, calls of [sendNotification],
    mails accepted by the transport, and the number of [fetch] and
    [sendMail] calls. *)
Record Service := {
  imapClient : bool;
  smtpTransport : bool;
  shuttingDown : bool;
  lastProcessedUid : Z;
  processingMailbox : bool;
  watching : bool;
  logged : list LogLine;
  attempts : list Attempt;
  outbox : list MailOptions;
  fetchCalls : nat;
  sendCalls : nat;
}.

Definition initial : Service :=
  {| imapClient := false; smtpTransport := false; shuttingDown := false;
     lastProcessedUid := 0; processingMailbox := false; watching := false;
     logged := []; attempts := []; outbox := []; fetchCalls := 0;
     sendCalls := 0 |}.

Definition set_imapClient (s : Service) :=
  {| imapClient := true; smtpTransport := smtpTransport s;
     shuttingDown := shuttingDown s;
     lastProcessedUid := lastProcessedUid s;
     processingMailbox := processingMailbox s; watching := watching s;
     logged := logged s; attempts := attempts s; outbox := outbox s;
     fetchCalls := fetchCalls s; sendCalls := sendCalls s |}.

Definition set_smtpTransport (s : Service) :=
  {| imapClient := imapClient s; smtpTransport := true;
     shuttingDown := shuttingDown s;
     lastProcessedUid := lastProcessedUid s;
     processingMailbox := processingMailbox s; watching := watching s;
     logged := logged s; attempts := attempts s; outbox := outbox s;
     fetchCalls := fetchCalls s; sendCalls := sendCalls s |}.

Definition set_lastProcessedUid (u : Z) (s : Service) :=
  {| imapClient := imapClient s; smtpTransport := smtpTransport s;
     shuttingDown := shuttingDown s; lastProcessedUid := u;
     processingMailbox := processingMailbox s; watching := watching s;
     logged := logged s; attempts := attempts s; outbox := outbox s;
     fetchCalls := fetchCalls s; sendCalls := sendCalls s |}.

Definition set_processingMailbox (b : bool) (s : Service) :=
  {| imapClient := imapClient s; smtpTransport := smtpTransport s;
     shuttingDown := shuttingDown s;
     lastProcessedUid := lastProcessedUid s; processingMailbox := b;
     watching := watching s; logged := logged s; attempts := attempts s;
     outbox := outbox s; fetchCalls := fetchCalls s;
     sendCalls := sendCalls s |}.

Definition set_watching (s : Service) :=
  {| imapClient := imapClient s; smtpTransport := smtpTransport s;
     shuttingDown := shuttingDown s;
     lastProcessedUid := lastProcessedUid s;
     processingMailbox := processingMailbox s; watching := true;
     logged := logged s; attempts := attempts s; outbox := outbox s;
     fetchCalls := fetchCalls s; sendCalls := sendCalls s |}.

Definition log (l : LogLine) (s : Service) :=
  {| imapClient := imapClient s; smtpTransport := smtpTransport s;
     shuttingDown := shuttingDown s;
     lastProcessedUid := lastProcessedUid s;
     processingMailbox := processingMailbox s; watching := watching s;
     logged := logged s ++ [l]; attempts := attempts s; outbox := outbox s;
     fetchCalls := fetchCalls s; sendCalls := sendCalls s |}.

Definition observe (a : Attempt) (s : Service) :=
  {| imapClient := imapClient s; smtpTransport := smtpTransport s;
     shuttingDown := shuttingDown s;
     lastProcessedUid := lastProcessedUid s;
     processingMailbox := processingMailbox s; watching := watching s;
     logged := logged s; attempts := attempts s ++ [a]; outbox := outbox s;
     fetchCalls := fetchCalls s; sendCalls := sendCalls s |}.

Definition count_fetch (s : Service) :=
  {| imapClient := imapClient s; smtpTransport := smtpTransport s;
     shuttingDown := shuttingDown s;
     lastProcessedUid := lastProcessedUid s;
     processingMailbox := processingMailbox s; watching := watching s;
     logged := logged s; attempts := attempts s; outbox := outbox s;
     fetchCalls := S (fetchCalls s); sendCalls := sendCalls s |}.

(** The transport was called with [m]; [accepted] tells whether it took
    the mail. *)
Definition count_send (m : MailOptions) (accepted : bool) (s : Service) :=
  {| imapClient := imapClient s; smtpTransport := smtpTransport s;
     shuttingDown := shuttingDown s;
     lastProcessedUid := lastProcessedUid s;
     processingMailbox := processingMailbox s; watching := watching s;
     logged := logged s; attempts := attempts s;
     outbox := if accepted then outbox s ++ [m] else outbox s;
     fetchCalls := fetchCalls s; sendCalls := S (sendCalls s) |}.

(** The sender shown by a notification:
    [sender?.name || sender?.address || "unknown sender"], where [sender] is
    [envelope?.from?.[0]]. *)
Definition fromDisplay (env : option MessageEnvelopeObject) : string :=
  let sender := (env ≫= from) ≫= head in
  orElse (sender ≫= name) (orElse (sender ≫= address) "unknown sender").

(** The mail that [sendNotification] composes. *)
Definition notification (cfg : MailWatcherConfig)
    (env : option MessageEnvelopeObject) : MailOptions :=
  let subject := orElse (env ≫= subject) "(no subject)" in
  {| mail_from := notifyFrom cfg;
     mail_to := notifyRecipient cfg;
     mail_subject := "New email received from " +:+ fromDisplay env;
     mail_text :=
       "You have received a new email from " +:+ fromDisplay env
         +:+ " with the subject " +:+ dquote +:+ subject +:+ dquote
         +:+ "." |}.

(** The part of [sendNotification] that follows
    [await this.smtpTransport.sendMail(...)], given the answer. *)
Definition sent (m : MailOptions) (answer : option string) (s : Service)
  : Service * Outcome :=
  match answer with
  | None => (count_send m true s, Returned)
  | Some e => (count_send m false s, Threw e)
  end.

Section WithTransport.

(** [sendMail n m]: the answer of the SMTP transport to the [n]-th call
    (from 0) of [sendMail], made with [m]: [None] when the mail is
    accepted, the error it rejects with otherwise. *)
Variable sendMail : nat → MailOptions → option string.

(** [sendNotification(config, envelope)]: the mail is handed to the
    transport, and the method ends as the transport answers. *)
Definition sendNotification (cfg : MailWatcherConfig)
    (env : option MessageEnvelopeObject) (s : Service)
  : Service * Outcome :=
  if negb (smtpTransport s) then (s, Threw "SMTP transport is not ready")
  else
    let s1 := log (Forwarding (fromDisplay env)) s in
    let m := notification cfg env in
    sent m (sendMail (sendCalls s1) m) s1.

(** The guard at the head of the loop body:
    [!message.envelope || !message.uid || message.uid <= lastProcessedUid]. *)
Definition skips (message : FetchMessageObject) (s : Service) : bool :=
  negb (bool_decide (is_Some (envelope message)))
  || negb (truthyNum (uid message))
  || bool_decide (uid message ≤ lastProcessedUid s).

(** The [for await (const message of iterator)] loop. *)
Fixpoint scanLoop (cfg : MailWatcherConfig)
    (messages : list FetchMessageObject) (failure : option string)
    (s : Service) : Service * Outcome :=
  match messages with
  | [] =>
      (s, match failure with Some e => Threw e | None => Returned end)
  | message :: rest =>
      if skips message s then scanLoop cfg rest failure s
      else
        match sendNotification cfg (envelope message) s with
        | (s1, Returned) =>
            scanLoop cfg rest failure
              (set_lastProcessedUid (uid message)
                 (observe {| attempt_uid := uid message;
                             attempt_ok := true |} s1))
        | (s1, o) =>
            (observe {| attempt_uid := uid message;
                        attempt_ok := false |} s1, o)
        end
  end.

(** The checks of [handleNewMessages] that come before the fetch:
    [true] when the method returns without fetching. *)
Definition nothingToFetch (mb : option MailboxObject) (s : Service)
  : bool :=
  negb (imapClient s)
  || match mb with
     | None => true
     | Some m =>
         let startUid := lastProcessedUid s + 1 in
         negb (truthyNum (exists_ m))
         || bool_decide (startUid > default 0 (uidNext m))
     end.

(** [handleNewMessages(config)], given the value of [imapClient.mailbox]
    and what the fetch produces. *)
Definition handleNewMessages (cfg : MailWatcherConfig)
    (mb : option MailboxObject) (f : Fetched) (s : Service)
  : Service * Outcome :=
  if nothingToFetch mb s then (s, Returned)
  else scanLoop cfg (yielded f) (failure f) (count_fetch s).

(** The [exists] handler registered by [startImapWatcher], when no other
    activation of it is suspended. *)
Definition onExists (cfg : MailWatcherConfig)
    (mb : option MailboxObject) (f : Fetched) (s : Service) : Service :=
  if processingMailbox s then s
  else
    let s1 := set_processingMailbox true s in
    match handleNewMessages cfg mb f s1 with
    | (s2, Threw e) => set_processingMailbox false (log (ProcessFailed e) s2)
    | (s2, _) => set_processingMailbox false s2
    end.

(** One scan of a sequence: the inputs of [handleNewMessages]. *)
Record Scan := {
  scan_mailbox : option MailboxObject;
  scan_fetched : Fetched;
}.

(** A sequence of [exists] events, each handled before the next. *)
Definition runScans (cfg : MailWatcherConfig) (scans : list Scan)
    (s : Service) : Service :=
  foldl (fun s sc => onExists cfg (scan_mailbox sc) (scan_fetched sc) s)
    s scans.

End WithTransport.

(** What the world answers during [onModuleInit]: [smtpTransport.verify()]
    and [imapClient.connect()] ([None] when they succeed, the error
    otherwise) and [imapClient.mailboxOpen(mailbox)]. *)
Record StartWorld := {
  verify : option string;
  connect : option string;
  mailboxOpen : Try MailboxObject;
}.

Section Startup.

Variable env : gmap string string.
Variable toNumber : string → Z.

Definition isEnabled : bool := flagIsTrue (get env "MAIL_SERVICE_ENABLED").

Definition requireEnv (key : string) : Try string :=
  match get env key with
  | Some v =>
      if truthy (Some v) then Value v
      else Raise ("Missing required environment variable: " +:+ key)
  | None => Raise ("Missing required environment variable: " +:+ key)
  end.

Definition numberOr (key : string) (fallback : Z) : Z :=
  match get env key with
  | Some v => toNumber v
  | None => fallback
  end.

Definition resolveConfig : Try MailWatcherConfig :=
  match requireEnv "SOURCE_EMAIL" with
  | Raise e => Raise e
  | Value user =>
  match requireEnv "SOURCE_APP_PASSWORD" with
  | Raise e => Raise e
  | Value pass =>
  match requireEnv "NOTIFY_RECIPIENT" with
  | Raise e => Raise e
  | Value recipient =>
      Value
        {| imapHost := getOr env "IMAP_HOST" "imap.gmail.com";
           imapPort := numberOr "IMAP_PORT" 993;
           imapUser := user;
           imapPass := pass;
           mailbox := getOr env "GMAIL_MAILBOX" "INBOX";
           smtpHost := getOr env "SMTP_HOST" "smtp.gmail.com";
           smtpPort := numberOr "SMTP_PORT" 465;
           smtpSecure :=
             bool_decide (getOr env "SMTP_SECURE" "true" ≠ "false");
           smtpUser := getOr env "SMTP_USERNAME" user;
           smtpPass := getOr env "SMTP_PASSWORD" pass;
           notifyRecipient := recipient;
           notifyFrom := getOr env "NOTIFY_FROM" user |}
  end end end.

(** [bootstrapSmtpTransport(config)]: a failed [verify()] is logged and
    thrown again. *)
Definition bootstrapSmtpTransport (cfg : MailWatcherConfig)
    (w : StartWorld) (s : Service) : Service * Outcome :=
  let s1 := set_smtpTransport s in
  match verify w with
  | Some e => (log (SmtpVerifyFailed e) s1, Threw e)
  | None => (log (SmtpReady (smtpHost cfg) (smtpPort cfg)) s1, Returned)
  end.

(** [startImapWatcher(config)]: the cursor is seeded from [uidNext] and
    the [exists] handler is registered last. *)
Definition startImapWatcher (cfg : MailWatcherConfig) (w : StartWorld)
    (s : Service) : Service * Outcome :=
  let s1 := set_imapClient s in
  match connect w with
  | Some e => (s1, Threw e)
  | None =>
      match mailboxOpen w with
      | Raise e => (s1, Threw e)
      | Value mailboxInfo =>
          let seed :=
            match uidNext mailboxInfo with
            | Some n => if truthyNum n then n - 1 else 0
            | None => 0
            end in
          (set_watching
             (log (Watching (mailbox cfg))
                (set_lastProcessedUid seed s1)), Returned)
      end
  end.

(** [onModuleInit()]: [resolveConfig()] and [bootstrapSmtpTransport] are
    called outside any [try]; the [catch] around [startImapWatcher] logs
    and ends in [throw err]. *)
Definition onModuleInit (w : StartWorld) (s : Service)
  : Service * Outcome :=
  if negb isEnabled then (log Disabled s, Returned)
  else
    match resolveConfig with
    | Raise e => (s, Threw e)
    | Value watcherConfig =>
        match bootstrapSmtpTransport watcherConfig w s with
        | (s1, Returned) =>
            match startImapWatcher watcherConfig w s1 with
            | (s2, Threw e) => (log (StartFailed e) s2, Threw e)
            | r => r
            end
        | r => r
        end
    end.

End Startup.

End Mail.

(** ** The application (main.ts, mail/mail.module.ts) *)

Module App.

Inductive Provider :=
| MailService
| GmailApiPollingService
| OutlookGraphPollingService.

#[global] Instance provider_eq_dec : EqDecision Provider.
Proof. solve_decision. Defined.

(** The providers of [MailModule] in mail/mail.module.ts. *)
Definition MailModule : list Provider :=
  [MailService; OutlookGraphPollingService].

(** The providers of the other [MailModule] file of the repository. *)
Definition MailModule_gmail : list Provider :=
  [MailService; GmailApiPollingService].

(** One instance per service; no field is shared between them. *)
Record Services := {
  mail : Mail.Service;
  gmail : Gmail.Service;
  outlook : Outlook.Service;
}.

Definition fresh : Services :=
  {| mail := Mail.initial; gmail := Gmail.initial;
     outlook := Outlook.initial |}.

(** The process after [bootstrap()]: alive with its services, or ended
    with an exit code. *)
Inductive Process :=
| Running (a : Services)
| Exited (code : Z).

(** What keeps the event loop busy once [bootstrap()] has returned: the
    open connection of the watcher and the timer of a started cron job.
    [main.ts] itself holds nothing. *)
Definition keepsAlive (a : Services) : bool :=
  Mail.watching (mail a)
  || Gmail.cronJob (gmail a)
  || Outlook.cronJob (outlook a).

Section Bootstrap.

Variable env : gmap string string.
Variable toNumber : string → Z.
Variable cronAccepts : string → bool.
Variable start : Mail.StartWorld.

(** The [onModuleInit] hook of a provider. *)
Definition init (p : Provider) (a : Services) : Services * Outcome :=
  match p with
  | MailService =>
      let '(m, o) := Mail.onModuleInit env toNumber start (mail a) in
      ({| mail := m; gmail := gmail a; outlook := outlook a |}, o)
  | GmailApiPollingService =>
      let '(g, o) :=
        Gmail.onModuleInit env toNumber cronAccepts (gmail a) in
      ({| mail := mail a; gmail := g; outlook := outlook a |}, o)
  | OutlookGraphPollingService =>
      let '(x, o) :=
        Outlook.onModuleInit env toNumber cronAccepts (outlook a) in
      ({| mail := mail a; gmail := gmail a; outlook := x |}, o)
  end.

(** [NestFactory.createApplicationContext(AppModule)], as far as the
    services are concerned: Nest awaits the [onModuleInit] hooks of the
    providers of the module together, and the call rejects with the
    first rejection among them. *)
Fixpoint createApplicationContext (providers : list Provider)
    (a : Services) : Services * Outcome :=
  match providers with
  | [] => (a, Returned)
  | p :: rest =>
      match init p a with
      | (a1, Returned) => createApplicationContext rest a1
      | (a1, o) => (fst (createApplicationContext rest a1), o)
      end
  end.

(** [bootstrap().catch((err) => { ...; process.exit(1); })]. When
    [bootstrap()] returns and start-up has left neither a connection nor a
    cron job, nothing is pending and the process ends with code 0. *)
Definition bootstrap (providers : list Provider) : Process :=
  match createApplicationContext providers fresh with
  | (a, Returned) => if keepsAlive a then Running a else Exited 0
  | (_, _) => Exited 1
  end.

End Bootstrap.

(** Whether the cron job of a poll source is scheduled in the process. *)
Definition gmailPolling (p : Process) : bool :=
  match p with
  | Running a => Gmail.cronJob (gmail a)
  | Exited _ => false
  end.

Definition outlookPolling (p : Process) : bool :=
  match p with
  | Running a => Outlook.cronJob (outlook a)
  | Exited _ => false
  end.

Definition mailWatching (p : Process) : bool :=
  match p with
  | Running a => Mail.watching (mail a)
  | Exited _ => false
  end.

End App.

(** ** Interleaved activations of the [exists] handler

    The handler of [startImapWatcher] is an [async] function: while it is
    suspended at an [await], the event loop may deliver another [exists]
    event. The machine below keeps every suspended activation of
    [handleNewMessages] and lets the event loop resume any of them, from
    one [await] to the next. *)

Module MailAsync.

Import Mail.

(** A suspended activation of [handleNewMessages]: waiting for the iterator
    (with what it has still to produce), or waiting for the transport (with
    the message being dispatched, the mail, and what the transport will
    answer). *)
Inductive Activation :=
| Iterating (pending : list FetchMessageObject) (failure : option string)
| Sending (message : FetchMessageObject) (m : MailOptions)
    (answer : option string)
    (pending : list FetchMessageObject) (failure : option string).

Record Machine := {
  svc : Service;
  inflight : list Activation;
}.

Inductive Event :=
| Exists (mb : option MailboxObject) (f : Fetched)
| Resume (k : nat).

(** The end of the handler, after
    [await this.handleNewMessages(config).catch(...)]: the error, if any, is
    logged and the flag is lowered. *)
Definition settle (o : Outcome) (s : Service) : Service :=
  set_processingMailbox false
    (match o with
     | Threw e => log (ProcessFailed e) s
     | _ => s
     end).

Section WithTransport.

Variable sendMail : nat → MailOptions → option string.
Variable cfg : MailWatcherConfig.

(** A resumed activation runs to its next [await] or to its end: the new
    state of the service, and the activation if it is suspended again. *)
Definition turn (a : Activation) (s : Service) : Service * option Activation :=
  match a with
  | Iterating [] failure =>
      (settle (match failure with
               | Some e => Threw e
               | None => Returned
               end) s, None)
  | Iterating (message :: rest) failure =>
      if skips message s then (s, Some (Iterating rest failure))
      else if negb (smtpTransport s) then
        (settle (Threw "SMTP transport is not ready")
           (observe {| attempt_uid := uid message; attempt_ok := false |} s),
         None)
      else
        let s1 := log (Forwarding (fromDisplay (envelope message))) s in
        let m := notification cfg (envelope message) in
        (s1, Some (Sending message m (sendMail (sendCalls s1) m) rest failure))
  | Sending message m answer rest failure =>
      match sent m answer s with
      | (s1, Returned) =>
          (set_lastProcessedUid (uid message)
             (observe {| attempt_uid := uid message; attempt_ok := true |} s1),
           Some (Iterating rest failure))
      | (s1, o) =>
          (settle o
             (observe {| attempt_uid := uid message; attempt_ok := false |} s1),
           None)
      end
  end.

(** The [exists] handler up to its first [await], and the resumption of the
    [k]-th suspended activation. *)
Definition step (m : Machine) (e : Event) : Machine :=
  match e with
  | Exists mb f =>
      if processingMailbox (svc m) then m
      else
        let s1 := set_processingMailbox true (svc m) in
        if nothingToFetch mb s1
        then {| svc := settle Returned s1; inflight := inflight m |}
        else
          {| svc := count_fetch s1;
             inflight := inflight m ++ [Iterating (yielded f) (failure f)] |}
  | Resume k =>
      match inflight m !! k with
      | None => m
      | Some a =>
          match turn a (svc m) with
          | (s', Some a') =>
              {| svc := s'; inflight := <[k := a']> (inflight m) |}
          | (s', None) =>
              {| svc := s'; inflight := delete k (inflight m) |}
          end
      end
  end.

Definition run (m : Machine) (events : list Event) : Machine :=
  foldl step m events.

End WithTransport.

(** The machine of a service with no activation suspended. *)
Definition start (s : Service) : Machine :=
  {| svc := s; inflight := [] |}.

End MailAsync.

(** ** Interleaved activations of the Gmail cron callback *)

Module GmailAsync.

Import Gmail.

(** A suspended activation of [pollInbox]: waiting for the listing, about
    to visit the entries that remain, or waiting for the answer of
    [messages.get] for an identifier. *)
Inductive Activation :=
| AwaitList (l : ListOutcome)
| InLoop (rest : list Schema_Message)
| AwaitGet (i : string) (answer : GetOutcome) (rest : list Schema_Message).

(** [stuck] is raised when an activation enters a loop that never ends:
    nothing else runs from then on. *)
Record Machine := {
  svc : Service;
  inflight : list Activation;
  stuck : bool;
}.

Inductive Event :=
| Tick (l : ListOutcome)
| Resume (k : nat).

Inductive Turn :=
| Suspended (s : Service) (a : Activation)
| Settled (s : Service)
| Hangs (s : Service).

Section WithBackend.

Variable messagesGet : nat → string → GetOutcome.

(** A resumed activation of [pollInbox] runs to its next [await] or to its
    end; a rejection is logged by the [catch] of the cron callback. *)
Definition turn (a : Activation) (s : Service) : Turn :=
  match a with
  | AwaitList (ListRejected e) => Settled (log (PollFailed e) s)
  | AwaitList (Listed ms) =>
      let messages := default [] ms in
      if decide (length messages = 0%nat)
      then Settled (log NoMatching s)
      else Suspended s (InLoop messages)
  | InLoop [] => Settled s
  | InLoop (entry :: rest) =>
      match candidate entry s with
      | None => Suspended s (InLoop rest)
      | Some i =>
          if negb (gmail s) then
            match trackProcessed i s with
            | Some s2 => Suspended s2 (InLoop rest)
            | None => Hangs s
            end
          else
            Suspended (count_get s)
              (AwaitGet i (messagesGet (getCalls s) i) rest)
      end
  | AwaitGet i answer rest =>
      match inspected i answer s with
      | (s1, Returned) =>
          match trackProcessed i s1 with
          | Some s2 => Suspended s2 (InLoop rest)
          | None => Hangs s1
          end
      | (s1, Threw e) => Settled (log (PollFailed e) s1)
      | (s1, Diverges) => Hangs s1
      end
  end.

(** The cron callback starts [pollInbox] on every tick: there is no flag to
    consult. *)
Definition step (m : Machine) (e : Event) : Machine :=
  if stuck m then m
  else
    match e with
    | Tick l =>
        if negb (gmail (svc m))
           || negb (bool_decide (is_Some (config (svc m))))
        then m
        else
          {| svc := count_list (svc m);
             inflight := inflight m ++ [AwaitList l];
             stuck := false |}
    | Resume k =>
        match inflight m !! k with
        | None => m
        | Some a =>
            match turn a (svc m) with
            | Suspended s' a' =>
                {| svc := s'; inflight := <[k := a']> (inflight m);
                   stuck := false |}
            | Settled s' =>
                {| svc := s'; inflight := delete k (inflight m);
                   stuck := false |}
            | Hangs s' =>
                {| svc := s'; inflight := inflight m; stuck := true |}
            end
        end
    end.

Definition run (m : Machine) (events : list Event) : Machine :=
  foldl step m events.

End WithBackend.

Definition start (s : Service) : Machine :=
  {| svc := s; inflight := []; stuck := false |}.

End GmailAsync.

(** * Vocabulary of the properties, and the data of the scenarios *)

(** The cache invariant, for a capacity [cap] and the sequence [history] of
    all identifiers inserted so far (oldest first): the queue has at most
    [cap] entries, the set has as many elements as the queue has entries and
    the same ones, and the queue is the last [cap] insertions, in order. *)
Definition fifo_bounded (cap : Z) (history q : list string) (m : gset string)
  : Prop :=
  Z.of_nat (length q) ≤ cap
  ∧ size m = length q
  ∧ NoDup q
  ∧ (∀ x, x ∈ m ↔ x ∈ q)
  ∧ q = drop (length history - Z.to_nat cap) history.

Definition nonempty_ids (q : list string) : Prop :=
  Forall (λ i, i ≠ EmptyString) q.

(** The ways a token exchange fails: [fetch] rejects, the response is not
    OK, its body does not parse, or the body has no usable [access_token]. *)
Definition exchangeFails (a : Outlook.TokenAnswer) : bool :=
  match a with
  | Outlook.TokenRejected _ => true
  | Outlook.TokenResponse ok _ _ body =>
      negb ok
      || match body with
         | None => true
         | Some b => negb (Js.truthy (Outlook.access_token b))
         end
  end.

(** The lifetime in seconds that [getAccessToken] takes from an answer. *)
Definition grantedLifetime (a : Outlook.TokenAnswer) : Z :=
  match a with
  | Outlook.TokenResponse _ _ _ (Some b) => default 3600 (Outlook.expires_in b)
  | _ => 3600
  end.

(** The cursor of the push source, replayed over a sequence of calls of
    [sendNotification]: a call that returned moves it to the uid of its
    message. *)
Fixpoint replay (cursor : Z) (calls : list Mail.Attempt) : Z :=
  match calls with
  | [] => cursor
  | a :: rest =>
      replay (if Mail.attempt_ok a then Mail.attempt_uid a else cursor) rest
  end.

(** Every call is made for a uid greater than the cursor at the time of the
    call. *)
Fixpoint above (cursor : Z) (calls : list Mail.Attempt) : Prop :=
  match calls with
  | [] => True
  | a :: rest =>
      cursor < Mail.attempt_uid a
      ∧ above (if Mail.attempt_ok a then Mail.attempt_uid a else cursor) rest
  end.

(** The uids whose notification was handed over, in order. *)
Definition dispatched (calls : list Mail.Attempt) : list Z :=
  omap (λ a, if Mail.attempt_ok a then Some (Mail.attempt_uid a) else None)
    calls.

(** The state of the scan guard of the push source: idle with nothing
    suspended, or running with exactly one suspended activation. *)
Definition guarded (m : MailAsync.Machine) : Prop :=
  Mail.processingMailbox (MailAsync.svc m) = false
  ∧ MailAsync.inflight m = []
  ∨ Mail.processingMailbox (MailAsync.svc m) = true
    ∧ ∃ a, MailAsync.inflight m = [a].

(** An activation that waits for the transport is dispatching a message
    whose uid is above the cursor. *)
Definition sending_above (m : MailAsync.Machine) : Prop :=
  ∀ message mail answer rest failure,
    MailAsync.inflight m
    = [MailAsync.Sending message mail answer rest failure] →
    Mail.lastProcessedUid (MailAsync.svc m) < Mail.uid message.

(** A sequence of Outlook ticks, each poll run to completion before the
    next, as [Gmail.runTicks]. *)
Fixpoint outlookTicks (worlds : list Outlook.PollWorld) (s : Outlook.Service)
  : Outlook.Service * Outcome :=
  match worlds with
  | [] => (s, Returned)
  | w :: rest =>
      match Outlook.onTick w s with
      | (s', Returned) => outlookTicks rest s'
      | r => r
      end
  end.

(** The identifiers that the Outlook service has announced, in order. *)
Definition announcedIds (s : Outlook.Service) : list string :=
  omap (λ i : option string, i) (Outlook.notifications s).

(** The first of the required settings, in the order in which
    [resolveConfig] asks for them, that is missing or empty. *)
Fixpoint firstMissing (env : gmap string string) (keys : list string)
  : option string :=
  match keys with
  | [] => None
  | k :: rest =>
      if Js.truthy (Js.get env k) then firstMissing env rest else Some k
  end.

(** The value that a header contributes under the key [k]: its value, when
    name and value are both present and not empty and the name is [k] up to
    the case of its letters. *)
Definition headerFor (k : string) (h : Gmail.Schema_MessagePartHeader)
  : option string :=
  match Gmail.name h, Gmail.value h with
  | Some n, Some v =>
      if decide (n ≠ EmptyString ∧ v ≠ EmptyString ∧ Js.toLowerCase n = k)
      then Some v else None
  | _, _ => None
  end.

(** The cache of the Gmail service is sound for a configuration: it is the
    bounded queue of some sequence of insertions, none of them empty, every
    one of which has been announced. *)
Definition cache_sound (cfg : Gmail.GmailPollingConfig) (s : Gmail.Service)
  : Prop :=
  Gmail.config s = Some cfg
  ∧ nonempty_ids (Gmail.processedQueue s)
  ∧ ∃ history,
      fifo_bounded (Gmail.processedCache cfg) history
        (Gmail.processedQueue s) (Gmail.processedSet s)
      ∧ Forall (λ x, x ∈ Gmail.notifications s) history.

(** An activation that waits for [messages.get] does so for an identifier
    that passed the guard of the loop. *)
Definition awaits_nonempty (a : GmailAsync.Activation) : Prop :=
  match a with
  | GmailAsync.AwaitGet i _ _ => i ≠ EmptyString
  | _ => True
  end.

(** A scan that finds nothing above the cursor: the client has no mailbox
    selected, the mailbox is empty, or its next uid, 0 when the server does
    not report one, is not above the cursor. *)
Definition nothingNew (cursor : Z) (sc : Mail.Scan) : Prop :=
  match Mail.scan_mailbox sc with
  | None => True
  | Some m => Mail.exists_ m = 0 ∨ default 0 (Mail.uidNext m) ≤ cursor
  end.

(** Whether a string starts with a character of white space. *)
Definition headSpace (s : string) : bool :=
  match s with
  | EmptyString => false
  | String c r =>
      Js.isSpace c
      || match r with
         | EmptyString => false
         | String c2 r2 =>
             Js.isSpace2 c c2
             || match r2 with
                | EmptyString => false
                | String c3 _ => Js.isSpace3 c c2 c3
                end
         end
  end.

(** What the start-up of each source gives when it is taken alone, from
    the initial state of the service: whether the watcher is subscribed,
    whether its start-up rejects, and whether a poller is scheduled. *)
Definition mailStarts (env : gmap string string) (toNumber : string → Z)
    (start : Mail.StartWorld) : bool :=
  Mail.watching (fst (Mail.onModuleInit env toNumber start Mail.initial)).

Definition mailRejects (env : gmap string string) (toNumber : string → Z)
    (start : Mail.StartWorld) : bool :=
  match snd (Mail.onModuleInit env toNumber start Mail.initial) with
  | Returned => false
  | _ => true
  end.

Definition gmailStarts (env : gmap string string) (toNumber : string → Z)
    (cronAccepts : string → bool) : bool :=
  Gmail.cronJob
    (fst (Gmail.onModuleInit env toNumber cronAccepts Gmail.initial)).

Definition outlookStarts (env : gmap string string) (toNumber : string → Z)
    (cronAccepts : string → bool) : bool :=
  Outlook.cronJob
    (fst (Outlook.onModuleInit env toNumber cronAccepts Outlook.initial)).

(** ** Scenario data *)

Module Scenario.

(** A Gmail configuration with dedup capacity [n]. *)
Definition gmailConfig (n : Z) : Gmail.GmailPollingConfig :=
  {| Gmail.clientId := "client"; Gmail.clientSecret := "secret";
     Gmail.redirectUri := "https://developers.google.com/oauthplayground";
     Gmail.refreshToken := "refresh";
     Gmail.cronExpression := "*/5 * * * *";
     Gmail.query := "is:unread newer_than:1d";
     Gmail.labelIds := ["INBOX"; "UNREAD"]; Gmail.maxResults := 10;
     Gmail.processedCache := n |}.

(** The Gmail service after a successful [onModuleInit], capacity [n]. *)
Definition gmailReady (n : Z) : Gmail.Service :=
  Gmail.set_cronJob (Gmail.set_gmail (Gmail.set_config (gmailConfig n)
    Gmail.initial)).

(** A listing answer with the given identifiers. *)
Definition listing (ids : list string) : Gmail.ListOutcome :=
  Gmail.Listed (Some ((λ i, {| Gmail.id := Some i |}) <$> ids)).

(** An Outlook configuration with dedup capacity [n]. *)
Definition outlookConfig (n : Z) : Outlook.OutlookPollingConfig :=
  {| Outlook.tenantId := "tenant"; Outlook.clientId := "client";
     Outlook.clientSecret := "secret"; Outlook.userId := "user@contoso.com";
     Outlook.folderId := "inbox"; Outlook.cronExpression := "*/5 * * * *";
     Outlook.top := 10; Outlook.processedCache := n |}.

(** The Outlook service after a successful [onModuleInit]. *)
Definition outlookReady (n : Z) : Outlook.Service :=
  Outlook.set_cronJob (Outlook.set_config (outlookConfig n) Outlook.initial).

(** A Gmail backend whose [messages.get] always answers, with a message
    without headers. *)
Definition getsSucceed : nat → string → Gmail.GetOutcome :=
  λ _ _, Gmail.Got None.

(** A Gmail backend whose first [messages.get] fails and whose later ones
    answer. *)
Definition firstGetFails : nat → string → Gmail.GetOutcome :=
  λ n _,
    match n with
    | O => Gmail.GetRejected "ETIMEDOUT"
    | S _ => Gmail.Got None
    end.

Definition emptyId : Gmail.Schema_Message := {| Gmail.id := Some EmptyString |}.
Definition entry (i : string) : Gmail.Schema_Message :=
  {| Gmail.id := Some i |}.

Definition graphNoId : Outlook.GraphMessage :=
  {| Outlook.id := None; Outlook.subject := Some "hello";
     Outlook.from := None |}.
Definition graphMessage (i : string) : Outlook.GraphMessage :=
  {| Outlook.id := Some i; Outlook.subject := None; Outlook.from := None |}.

(** The token endpoint grants token [t] for [lifetime] seconds. *)
Definition grantBody (t : string) (lifetime : Z) : Outlook.TokenBody :=
  {| Outlook.access_token := Some t;
     Outlook.expires_in := Some lifetime;
     Outlook.token_type := Some "Bearer" |}.

Definition grant (t : string) (lifetime : Z) : Outlook.TokenAnswer :=
  Outlook.TokenResponse true 200 "{...}" (Some (grantBody t lifetime)).

(** The token endpoint refuses the credentials. *)
Definition refuse : Outlook.TokenAnswer :=
  Outlook.TokenResponse false 401 "{...}" None.

(** A call of [getAccessToken] at instant [t] (in milliseconds), the
    exchange, if made, answering [a] at the same instant. *)
Definition at_ (t : Z) (a : Outlook.TokenAnswer) : Outlook.TokenWorld :=
  {| Outlook.now := t; Outlook.answer := a; Outlook.nowAfter := t |}.

(** Scenario D: the instant T0 of the first exchange, and the service after
    it has obtained a token with a 3600 second lifetime at T0. *)
Definition T0 : Z := 1700000000000.

Definition afterFirstGrant : Outlook.Service :=
  fst (Outlook.getAccessToken (at_ T0 (grant "first" 3600))
         (outlookReady 100)).

(** The configuration of the watcher. *)
Definition watcherConfig : Mail.MailWatcherConfig :=
  {| Mail.imapHost := "imap.gmail.com"; Mail.imapPort := 993;
     Mail.imapUser := "source@example.com"; Mail.imapPass := "app-password";
     Mail.mailbox := "INBOX"; Mail.smtpHost := "smtp.gmail.com";
     Mail.smtpPort := 465; Mail.smtpSecure := true;
     Mail.smtpUser := "source@example.com"; Mail.smtpPass := "app-password";
     Mail.notifyRecipient := "me@example.com";
     Mail.notifyFrom := "source@example.com" |}.

(** A fetched message with the given uid, from [sender]. *)
Definition message (u : Z) (sender : string) : Mail.FetchMessageObject :=
  {| Mail.uid := u;
     Mail.envelope :=
       Some {| Mail.from :=
                 Some [{| Mail.name := Some sender; Mail.address := None |}];
               Mail.subject := Some "hello" |} |}.

(** The watcher after a successful start on a mailbox whose next uid is
    [next]: the cursor is [next - 1]. *)
Definition watching (next : Z) : Mail.Service :=
  Mail.set_watching
    (Mail.set_lastProcessedUid (next - 1)
       (Mail.set_imapClient (Mail.set_smtpTransport Mail.initial))).

(** A Gmail backend whose first two [messages.get] fail. *)
Definition firstTwoGetsFail : nat → string → Gmail.GetOutcome :=
  λ n _,
    match n with
    | O | S O => Gmail.GetRejected "ETIMEDOUT"
    | S (S _) => Gmail.Got None
    end.

(** An SMTP transport that accepts every mail, and one that rejects its
    second call only. *)
Definition accepts : nat → Mail.MailOptions → option string := λ _ _, None.

Definition rejectsSecond : nat → Mail.MailOptions → option string :=
  λ n _, match n with 1%nat => Some "ECONNRESET" | _ => None end.

(** Scenarios A and B: the mailbox holds uids up to 13, the cursor is 10 and
    the fetch yields 11, 12, 13. *)
Definition mailbox13 : Mail.MailboxObject :=
  {| Mail.exists_ := 13; Mail.uidNext := Some 14 |}.

Definition fetched_11_12_13 : Mail.Fetched :=
  {| Mail.yielded := [message 11 "a"; message 12 "b"; message 13 "c"];
     Mail.failure := None |}.

(** An environment that enables the IMAP watcher without its credentials
    and the Gmail poller with all of its own. *)
Definition envMailUnconfigured : gmap string string :=
  list_to_map
    [("MAIL_SERVICE_ENABLED", "true");
     ("GMAIL_API_ENABLED", "true");
     ("GOOGLE_CLIENT_ID", "client");
     ("GOOGLE_CLIENT_SECRET", "secret");
     ("GOOGLE_REFRESH_TOKEN", "refresh")].

(** The same environment with the credentials of the watcher. *)
Definition envAllConfigured : gmap string string :=
  list_to_map
    [("MAIL_SERVICE_ENABLED", "true");
     ("SOURCE_EMAIL", "source@example.com");
     ("SOURCE_APP_PASSWORD", "app-password");
     ("NOTIFY_RECIPIENT", "me@example.com");
     ("GMAIL_API_ENABLED", "true");
     ("GOOGLE_CLIENT_ID", "client");
     ("GOOGLE_CLIENT_SECRET", "secret");
     ("GOOGLE_REFRESH_TOKEN", "refresh")].

(** An environment with the watcher configured and both pollers enabled
    without their credentials. *)
Definition envPollersUnconfigured : gmap string string :=
  list_to_map
    [("MAIL_SERVICE_ENABLED", "true");
     ("SOURCE_EMAIL", "source@example.com");
     ("SOURCE_APP_PASSWORD", "app-password");
     ("NOTIFY_RECIPIENT", "me@example.com");
     ("GMAIL_API_ENABLED", "true");
     ("OUTLOOK_API_ENABLED", "true")].

(** An environment that enables only the Gmail poller, without its
    credentials. *)
Definition envGmailUnconfigured : gmap string string :=
  list_to_map [("GMAIL_API_ENABLED", "true")].

(** Settings are not numeric in these environments, every cron expression
    is accepted, and the mail servers answer. *)
Definition noNumber : string → Z := λ _, 0.
Definition anyCron : string → bool := λ _, true.
Definition serversUp : Mail.StartWorld :=
  {| Mail.verify := None; Mail.connect := None;
     Mail.mailboxOpen := Value mailbox13 |}.

(** The poll services after one poll that announced A then B. *)
Definition gmailAfterAB : Gmail.Service :=
  fst (Gmail.runTicks getsSucceed [listing ["A"; "B"]] (gmailReady 2)).

Definition outlookAfterAB : Outlook.Service :=
  fst (Outlook.pollLoop [graphMessage "A"; graphMessage "B"] (outlookReady 2)).

(** An Outlook poll at instant [t]: the token endpoint grants a token and
    the folder lists the given identifiers. *)
Definition graphPoll (t : Z) (ids : list string) : Outlook.PollWorld :=
  {| Outlook.token := at_ t (grant "first" 3600);
     Outlook.listing :=
       Outlook.ListResponse true 200 "{...}" (Some (Some (graphMessage <$> ids))) |}.

(** The no-break space U+00A0 and the byte order mark U+FEFF, in UTF-8. *)
Definition nbsp : string :=
  String (ascii_of_nat 194) (String (ascii_of_nat 160) EmptyString).

Definition bom : string :=
  String (ascii_of_nat 239)
    (String (ascii_of_nat 187) (String (ascii_of_nat 191) EmptyString)).

(** An environment with the Gmail credentials, a flag written with a
    no-break space before it, and a label list with blanks, a piece that is
    a no-break space only, and empty pieces. *)
Definition envGmailLabels : gmap string string :=
  list_to_map
    [("GMAIL_API_ENABLED", nbsp +:+ "True ");
     ("GOOGLE_CLIENT_ID", "client");
     ("GOOGLE_CLIENT_SECRET", "secret");
     ("GOOGLE_REFRESH_TOKEN", "refresh");
     ("GMAIL_LABELS",
      " INBOX, ,UNREAD " +:+ bom +:+ "," +:+ nbsp +:+ ",,Label_7")].

Definition gmailLabelsConfig : Gmail.GmailPollingConfig :=
  {| Gmail.clientId := "client"; Gmail.clientSecret := "secret";
     Gmail.refreshToken := "refresh";
     Gmail.redirectUri := "https://developers.google.com/oauthplayground";
     Gmail.cronExpression := "*/5 * * * *";
     Gmail.query := "is:unread newer_than:1d";
     Gmail.labelIds := ["INBOX"; "UNREAD"; "Label_7"];
     Gmail.maxResults := 10; Gmail.processedCache := 100 |}.

(** A mailbox whose server reports no next uid. *)
Definition mailboxNoUidNext : Mail.MailboxObject :=
  {| Mail.exists_ := 20; Mail.uidNext := None |}.

End Scenario.

(** * Properties *)

(** ** The bounded dedup cache *)

Lemma evict_enough (fuel : nat) (cap : Z) (q : list string) (m : gset string) :
  0 ≤ cap → (length q < fuel)%nat → Forall (λ i, i ≠ EmptyString) q →
  Gmail.evict fuel cap q m
  = Some (drop (length q - Z.to_nat cap) q,
          m ∖ list_to_set (take (length q - Z.to_nat cap) q)).
Proof.
  intros Hcap. revert fuel m.
  induction q as [|o q IH]; intros fuel m Hfuel Hne.
  - destruct fuel; [simpl in Hfuel; lia|]. simpl.
    case_decide; [lia|].
    f_equal. f_equal. set_solver.
  - destruct fuel as [|fuel]; [simpl in Hfuel; lia|].
    cbn [Gmail.evict].
    case_decide as Hgt.
    + inversion Hne as [|? ? Ho Hq]; subst.
      assert (Js.truthy (Some o) = true) as ->
        by (unfold Js.truthy; by rewrite bool_decide_eq_true).
      rewrite IH; [|simpl in Hfuel; lia|done].
      simpl in Hgt.
      replace (length (o :: q) - Z.to_nat cap)%nat
        with (S (length q - Z.to_nat cap)) by (simpl; lia).
      simpl. f_equal. f_equal. set_solver.
    + replace (length (o :: q) - Z.to_nat cap)%nat with 0%nat by lia.
      simpl. f_equal. f_equal. set_solver.
Qed.

Lemma evict_negative_diverges (fuel : nat) (cap : Z) (q : list string)
    (m : gset string) :
  cap < 0 → Gmail.evict fuel cap q m = None.
Proof.
  intros Hcap. revert q m.
  induction fuel as [|fuel IH]; intros q m; simpl.
  - case_decide; [done|lia].
  - case_decide; [|lia].
    destruct q; apply IH.
Qed.

Lemma outlook_evict_eq (fuel : nat) (cap : Z) (q : list string)
    (m : gset string) :
  Outlook.evict fuel cap q m = Gmail.evict fuel cap q m.
Proof.
  revert q m. induction fuel as [|fuel IH]; intros q m; simpl; [done|].
  case_decide; [|done].
  destruct q; apply IH.
Qed.

(** Inserting an identifier that the set does not hold: the queue grows at
    its end and loses what exceeds the capacity at its front. *)
Lemma insert_fresh (cap : Z) (history q : list string) (m : gset string)
    (i : string) :
  0 ≤ cap → i ≠ EmptyString → nonempty_ids q → i ∉ m →
  fifo_bounded cap history q m →
  ∃ q' m',
    Gmail.evict (S (length (q ++ [i]))) cap (q ++ [i]) ({[i]} ∪ m)
    = Some (q', m')
    ∧ nonempty_ids q'
    ∧ fifo_bounded cap (history ++ [i]) q' m'.
Proof.
  intros Hcap Hi Hq Hfresh (Hlen & Hsize & Hnd & Hmirror & Hfifo).
  set (l := q ++ [i]). set (k := (length l - Z.to_nat cap)%nat).
  assert (nonempty_ids l) as Hl by (apply Forall_app; split; [done|by constructor]).
  assert (NoDup l) as Hndl.
  { apply NoDup_app. split_and!; [done| |apply NoDup_singleton].
    intros x Hx ->%list_elem_of_singleton. apply Hfresh, Hmirror, Hx. }
  exists (drop k l), (({[i]} ∪ m) ∖ list_to_set (take k l)).
  split; [apply evict_enough; [done|lia|done]|].
  assert (NoDup (drop k l)) as Hndd.
  { rewrite <-(take_drop k l) in Hndl. by apply NoDup_app in Hndl as (_ & _ & ?). }
  assert (∀ x, x ∈ ({[i]} ∪ m) ∖ list_to_set (take k l) ↔ x ∈ drop k l)
    as Hmirror'.
  { intros x. rewrite elem_of_difference, elem_of_list_to_set, elem_of_union,
      elem_of_singleton, Hmirror.
    assert (x = i ∨ x ∈ q ↔ x ∈ l) as ->
      by (unfold l; rewrite elem_of_app, list_elem_of_singleton; tauto).
    rewrite <-(take_drop k l) in Hndl. apply NoDup_app in Hndl as (_ & Hdis & _).
    rewrite <-(take_drop k l) at 1. rewrite elem_of_app.
    split; [intros [[?|?] ?]; tauto|].
    intros Hx. split; [by right|]. intros Ht. by apply (Hdis x). }
  split; [by apply Forall_drop|].
  split_and!; [| |done|done|].
  - rewrite length_drop. unfold k. lia.
  - rewrite <-(size_list_to_set (C:=gset string)) by done.
    f_equal. apply set_eq. intros x. by rewrite Hmirror', elem_of_list_to_set.
  - pose proof (f_equal length Hfifo) as Hlq. rewrite length_drop in Hlq.
    unfold k, l. rewrite !length_app. simpl. rewrite Hlq, Hfifo.
    destruct (decide (length history ≤ Z.to_nat cap)%nat) as [Hsmall|Hbig].
    + replace (length history - Z.to_nat cap)%nat with 0%nat by lia.
      rewrite !drop_0. f_equal. lia.
    + rewrite <-(drop_app_le history [i]) by lia.
      rewrite drop_drop. f_equal. lia.
Qed.

Lemma gmail_trackAll_fifo (cfg : Gmail.GmailPollingConfig) (ids : list string) :
  0 ≤ Gmail.processedCache cfg → nonempty_ids ids →
  ∀ (s : Gmail.Service) (history : list string),
    Gmail.config s = Some cfg →
    nonempty_ids (Gmail.processedQueue s) →
    fifo_bounded (Gmail.processedCache cfg) history
      (Gmail.processedQueue s) (Gmail.processedSet s) →
    ∃ s',
      Gmail.trackAll ids s = Some s'
      ∧ fifo_bounded (Gmail.processedCache cfg)
          (history ++ Gmail.inserted ids s)
          (Gmail.processedQueue s') (Gmail.processedSet s').
Proof.
  intros Hcap Hids. induction Hids as [|i ids Hi Hids IH];
    intros s history Hcfg Hq Hinv.
  - exists s. simpl. by rewrite app_nil_r.
  - cbn [Gmail.trackAll Gmail.inserted]. unfold Gmail.trackProcessed.
    rewrite Hcfg. case_decide as Hin.
    + rewrite (bool_decide_eq_true_2 (i ∈ _)) by done.
      rewrite andb_false_r. simpl. by apply IH.
    + destruct (insert_fresh _ _ _ _ i Hcap Hi Hq Hin Hinv)
        as (q' & m' & -> & Hq' & Hinv').
      rewrite (bool_decide_eq_false_2 (i ∈ _)) by done.
      rewrite (bool_decide_eq_true_2 (is_Some _)) by eauto. simpl.
      destruct (IH (Gmail.set_cache q' m' s) (history ++ [i]))
        as (s' & Hrun & Hfinal); [done..|].
      exists s'. split; [done|]. by rewrite <-app_assoc in Hfinal.
Qed.

Lemma outlook_trackAll_fifo (cfg : Outlook.OutlookPollingConfig)
    (ids : list string) :
  0 ≤ Outlook.processedCache cfg → nonempty_ids ids →
  ∀ (s : Outlook.Service) (history : list string),
    Outlook.config s = Some cfg →
    nonempty_ids (Outlook.processedQueue s) →
    fifo_bounded (Outlook.processedCache cfg) history
      (Outlook.processedQueue s) (Outlook.processedSet s) →
    ∃ s',
      Outlook.trackAll ids s = Some s'
      ∧ fifo_bounded (Outlook.processedCache cfg)
          (history ++ Outlook.inserted ids s)
          (Outlook.processedQueue s') (Outlook.processedSet s').
Proof.
  intros Hcap Hids. induction Hids as [|i ids Hi Hids IH];
    intros s history Hcfg Hq Hinv.
  - exists s. simpl. by rewrite app_nil_r.
  - cbn [Outlook.trackAll Outlook.inserted]. unfold Outlook.trackProcessed.
    rewrite Hcfg, outlook_evict_eq. case_decide as Hin.
    + rewrite (bool_decide_eq_true_2 (i ∈ _)) by done.
      rewrite andb_false_r. simpl. by apply IH.
    + destruct (insert_fresh _ _ _ _ i Hcap Hi Hq Hin Hinv)
        as (q' & m' & -> & Hq' & Hinv').
      rewrite (bool_decide_eq_false_2 (i ∈ _)) by done.
      rewrite (bool_decide_eq_true_2 (is_Some _)) by eauto. simpl.
      destruct (IH (Outlook.set_cache q' m' s) (history ++ [i]))
        as (s' & Hrun & Hfinal); [done..|].
      exists s'. split; [done|]. by rewrite <-app_assoc in Hfinal.
Qed.

Lemma fifo_bounded_empty (cap : Z) : 0 ≤ cap → fifo_bounded cap [] [] ∅.
Proof.
  intros Hcap. split_and!; [simpl; lia|done|constructor|set_solver|].
  by rewrite drop_nil.
Qed.

(** C3. From the empty cache of a configured poll service (Gmail or
    Outlook) with a capacity [N >= 0], after each call of a sequence of
    [trackProcessed] calls on non-empty identifiers: the call returns, the
    queue holds at most [N] identifiers, the set has the same size and the
    same elements as the queue, and the queue is exactly the last [N]
    identifiers inserted, in insertion order. So what has been evicted is
    always the earliest-inserted part, whatever was looked up or offered
    again in between. *)
Theorem dedup_cache_bounded_fifo
    (g : Gmail.Service) (gcfg : Gmail.GmailPollingConfig)
    (o : Outlook.Service) (ocfg : Outlook.OutlookPollingConfig)
    (ids : list string) (k : nat) :
  Forall (λ i, i ≠ EmptyString) ids →
  Gmail.config g = Some gcfg → 0 ≤ Gmail.processedCache gcfg →
  Gmail.processedQueue g = [] → Gmail.processedSet g = ∅ →
  Outlook.config o = Some ocfg → 0 ≤ Outlook.processedCache ocfg →
  Outlook.processedQueue o = [] → Outlook.processedSet o = ∅ →
  (∃ g',
     Gmail.trackAll (take k ids) g = Some g'
     ∧ fifo_bounded (Gmail.processedCache gcfg)
         (Gmail.inserted (take k ids) g)
         (Gmail.processedQueue g') (Gmail.processedSet g'))
  ∧ (∃ o',
       Outlook.trackAll (take k ids) o = Some o'
       ∧ fifo_bounded (Outlook.processedCache ocfg)
           (Outlook.inserted (take k ids) o)
           (Outlook.processedQueue o') (Outlook.processedSet o')).
Proof.
  intros Hids Hg Hgcap Hgq Hgm Ho Hocap Hoq Hom.
  assert (nonempty_ids (take k ids)) as Hk by by apply Forall_take.
  split.
  - destruct (gmail_trackAll_fifo gcfg (take k ids) Hgcap Hk g [])
      as (g' & ? & ?); [done|rewrite Hgq; constructor|..]; [|by exists g'].
    rewrite Hgq, Hgm. by apply fifo_bounded_empty.
  - destruct (outlook_trackAll_fifo ocfg (take k ids) Hocap Hk o [])
      as (o' & ? & ?); [done|rewrite Hoq; constructor|..]; [|by exists o'].
    rewrite Hoq, Hom. by apply fifo_bounded_empty.
Qed.

Lemma dedup_cache_bounded_fifo_witness :
  (∃ g',
     Gmail.trackAll (take 3 ["A"; "B"; "C"]) (Scenario.gmailReady 2) = Some g'
     ∧ fifo_bounded 2
         (Gmail.inserted (take 3 ["A"; "B"; "C"]) (Scenario.gmailReady 2))
         (Gmail.processedQueue g') (Gmail.processedSet g'))
  ∧ (∃ o',
       Outlook.trackAll (take 3 ["A"; "B"; "C"]) (Scenario.outlookReady 2)
       = Some o'
       ∧ fifo_bounded 2
           (Outlook.inserted (take 3 ["A"; "B"; "C"]) (Scenario.outlookReady 2))
           (Outlook.processedQueue o') (Outlook.processedSet o')).
Proof.
  apply (dedup_cache_bounded_fifo
           (Scenario.gmailReady 2) (Scenario.gmailConfig 2)
           (Scenario.outlookReady 2) (Scenario.outlookConfig 2)
           ["A"; "B"; "C"] 3);
    try reflexivity; try (simpl; lia).
  repeat constructor; discriminate.
Defined.

(** Why the identifiers must be non-empty: the eviction loop tests
    [if (oldest)] before deleting from the set, so an empty identifier, once
    evicted from the queue, stays in the set. [pollInbox] never passes one. *)
Example empty_identifier_outlives_its_eviction :
  (λ s, (Gmail.processedQueue s, elements (Gmail.processedSet s)))
    <$> Gmail.trackAll [EmptyString; "B"] (Scenario.gmailReady 1)
  = Some (["B"], ["B"; EmptyString]).
Proof. vm_compute. reflexivity. Qed.

(** ** Poll scans *)

Lemma gmail_pollLoop_app (get : nat → string → Gmail.GetOutcome)
    (pre post : list Gmail.Schema_Message) (s : Gmail.Service) :
  Gmail.pollLoop get (pre ++ post) s
  = match Gmail.pollLoop get pre s with
    | (s1, Returned) => Gmail.pollLoop get post s1
    | r => r
    end.
Proof.
  revert s. induction pre as [|entry pre IH]; intros s; simpl.
  - done.
  - destruct (Gmail.candidate entry s) as [i|]; [|apply IH].
    destruct (Gmail.inspectMessage get i s) as [s1 [| |]]; try done.
    destruct (Gmail.trackProcessed i s1) as [s2|]; [apply IH|done].
Qed.

Lemma outlook_pollLoop_app (pre post : list Outlook.GraphMessage)
    (s : Outlook.Service) :
  Outlook.pollLoop (pre ++ post) s
  = match Outlook.pollLoop pre s with
    | (s1, Returned) => Outlook.pollLoop post s1
    | r => r
    end.
Proof.
  revert s. induction pre as [|message pre IH]; intros s; simpl.
  - done.
  - destruct (Outlook.candidate message s) as [i|]; [|apply IH].
    destruct (Outlook.trackProcessed i _) as [s2|]; [apply IH|done].
Qed.

(** C10. In a poll scan of either poll service, a listed item whose
    identifier is missing or empty changes nothing: the loop over a listing
    that contains it ends in the same state and the same way as the loop over
    the listing without it, so the item is neither announced nor entered in
    the cache, and the items around it are processed as if it were absent.
    For Gmail the same holds of [pollInbox] as a whole. *)
Theorem idless_item_is_skipped
    (get : nat → string → Gmail.GetOutcome)
    (g : Gmail.Service) (gpre gpost : list Gmail.Schema_Message)
    (entry : Gmail.Schema_Message)
    (o : Outlook.Service) (opre opost : list Outlook.GraphMessage)
    (message : Outlook.GraphMessage) :
  Js.truthy (Gmail.id entry) = false →
  Js.truthy (Outlook.id message) = false →
  Gmail.gmail g = true → is_Some (Gmail.config g) →
  Gmail.pollLoop get (gpre ++ entry :: gpost) g
  = Gmail.pollLoop get (gpre ++ gpost) g
  ∧ Gmail.pollInbox get (Gmail.Listed (Some (gpre ++ entry :: gpost))) g
    = Gmail.pollLoop get (gpre ++ gpost) (Gmail.count_list g)
  ∧ Outlook.pollLoop (opre ++ message :: opost) o
    = Outlook.pollLoop (opre ++ opost) o.
Proof.
  intros Hentry Hmessage Hgmail Hconfig.
  assert (∀ s, Gmail.candidate entry s = None) as Hg.
  { intros s. unfold Gmail.candidate. destruct (Gmail.id entry); [|done].
    by rewrite Hentry. }
  assert (∀ s, Outlook.candidate message s = None) as Ho.
  { intros s. unfold Outlook.candidate. destruct (Outlook.id message); [|done].
    by rewrite Hmessage. }
  assert (∀ s, Gmail.pollLoop get (gpre ++ entry :: gpost) s
               = Gmail.pollLoop get (gpre ++ gpost) s) as Hloop.
  { intros s. rewrite !gmail_pollLoop_app.
    destruct (Gmail.pollLoop get gpre s) as [s1 [| |]]; try done.
    simpl. by rewrite Hg. }
  split_and!.
  - apply Hloop.
  - unfold Gmail.pollInbox. rewrite Hgmail.
    rewrite bool_decide_eq_true_2 by done. simpl.
    case_decide as Hlen; [|apply Hloop].
    rewrite length_app in Hlen. simpl in Hlen. lia.
  - rewrite !outlook_pollLoop_app.
    destruct (Outlook.pollLoop opre o) as [s1 [| |]]; try done.
    simpl. by rewrite Ho.
Qed.

Lemma idless_item_is_skipped_witness :
  Gmail.pollLoop Scenario.getsSucceed
    ([Scenario.entry "A"] ++ Scenario.emptyId :: [Scenario.entry "B"])
    (Scenario.gmailReady 100)
  = Gmail.pollLoop Scenario.getsSucceed
      ([Scenario.entry "A"] ++ [Scenario.entry "B"]) (Scenario.gmailReady 100)
  ∧ Gmail.pollInbox Scenario.getsSucceed
      (Gmail.Listed
         (Some ([Scenario.entry "A"] ++ Scenario.emptyId :: [Scenario.entry "B"])))
      (Scenario.gmailReady 100)
    = Gmail.pollLoop Scenario.getsSucceed
        ([Scenario.entry "A"] ++ [Scenario.entry "B"])
        (Gmail.count_list (Scenario.gmailReady 100))
  ∧ Outlook.pollLoop
      ([Scenario.graphMessage "A"] ++ Scenario.graphNoId
         :: [Scenario.graphMessage "B"]) (Scenario.outlookReady 100)
    = Outlook.pollLoop
        ([Scenario.graphMessage "A"] ++ [Scenario.graphMessage "B"])
        (Scenario.outlookReady 100).
Proof.
  apply (idless_item_is_skipped Scenario.getsSucceed
           (Scenario.gmailReady 100) [Scenario.entry "A"] [Scenario.entry "B"]
           Scenario.emptyId
           (Scenario.outlookReady 100) [Scenario.graphMessage "A"]
           [Scenario.graphMessage "B"] Scenario.graphNoId).
  - reflexivity.
  - reflexivity.
  - reflexivity.
  - simpl. eauto.
Defined.

Lemma gmail_trackProcessed_fields (i : string) (s s' : Gmail.Service) :
  Gmail.trackProcessed i s = Some s' →
  Gmail.gmail s' = Gmail.gmail s ∧ Gmail.config s' = Gmail.config s
  ∧ Gmail.logged s' = Gmail.logged s.
Proof.
  unfold Gmail.trackProcessed. intros H.
  destruct (Gmail.config s) as [cfg|] eqn:Hcfg; [|by simplify_eq].
  case_decide; [by simplify_eq|].
  destruct (Gmail.evict _ _ _ _) as [[q m]|]; by simplify_eq.
Qed.

Lemma gmail_inspectMessage_fields (get : nat → string → Gmail.GetOutcome)
    (i : string) (s s' : Gmail.Service) (o : Outcome) :
  Gmail.inspectMessage get i s = (s', o) →
  Gmail.gmail s' = Gmail.gmail s ∧ Gmail.config s' = Gmail.config s
  ∧ Gmail.processedSet s' = Gmail.processedSet s
  ∧ Gmail.processedQueue s' = Gmail.processedQueue s.
Proof.
  unfold Gmail.inspectMessage, Gmail.inspected. intros H.
  destruct (Gmail.gmail s) eqn:Hg; simpl in H; [|by simplify_eq].
  destruct (get _ _); by simplify_eq.
Qed.

Lemma gmail_pollLoop_fields (get : nat → string → Gmail.GetOutcome)
    (l : list Gmail.Schema_Message) (s s' : Gmail.Service) (o : Outcome) :
  Gmail.pollLoop get l s = (s', o) →
  Gmail.gmail s' = Gmail.gmail s ∧ Gmail.config s' = Gmail.config s.
Proof.
  revert s. induction l as [|entry l IH]; intros s H; simpl in H.
  - by simplify_eq.
  - destruct (Gmail.candidate entry s) as [i|]; [|by apply IH].
    destruct (Gmail.inspectMessage get i s) as [s1 o1] eqn:Hi.
    apply gmail_inspectMessage_fields in Hi as (Hg & Hc & _).
    destruct o1; try (simplify_eq; done).
    destruct (Gmail.trackProcessed i s1) as [s2|] eqn:Ht; [|by simplify_eq].
    apply gmail_trackProcessed_fields in Ht as (Hg2 & Hc2 & _).
    apply IH in H as [-> ->]. by rewrite Hg2, Hc2.
Qed.

Lemma outlook_pollLoop_never_throws (messages : list Outlook.GraphMessage)
    (o : Outlook.Service) (err : string) :
  snd (Outlook.pollLoop messages o) ≠ Threw err.
Proof.
  revert o. induction messages as [|message messages IH]; intros o; simpl.
  - done.
  - destruct (Outlook.candidate message o) as [i|]; [|apply IH].
    destruct (Outlook.trackProcessed i _) as [s2|]; [apply IH|done].
Qed.

Lemma gmail_notifications_log (l : Gmail.LogLine) (s : Gmail.Service) :
  Gmail.notifications (Gmail.log l s)
  = Gmail.notifications s
      ++ match l with Gmail.Detected i _ _ => [i] | _ => [] end.
Proof.
  unfold Gmail.notifications. simpl. rewrite omap_app.
  destruct l; simpl; by rewrite ?app_nil_r.
Qed.

Lemma gmail_inspected_Got (i : string)
    (hs : option (list Gmail.Schema_MessagePartHeader)) (s : Gmail.Service) :
  ∃ s1,
    Gmail.inspected i (Gmail.Got hs) s = (s1, Returned)
    ∧ Gmail.notifications s1 = Gmail.notifications s ++ [i]
    ∧ Gmail.gmail s1 = Gmail.gmail s
    ∧ Gmail.config s1 = Gmail.config s
    ∧ Gmail.processedQueue s1 = Gmail.processedQueue s
    ∧ Gmail.processedSet s1 = Gmail.processedSet s.
Proof.
  eexists. split; [reflexivity|]. split_and!; try done.
  apply gmail_notifications_log.
Qed.

Lemma gmail_candidate_Some (entry : Gmail.Schema_Message) (s : Gmail.Service)
    (i : string) :
  Gmail.candidate entry s = Some i →
  Gmail.id entry = Some i ∧ i ≠ EmptyString ∧ i ∉ Gmail.processedSet s.
Proof.
  unfold Gmail.candidate. destruct (Gmail.id entry) as [j|]; [|done].
  destruct (negb (Js.truthy (Some j))) eqn:Ht; [done|]. simpl.
  case_bool_decide; [done|]. intros ?; simplify_eq.
  apply negb_false_iff in Ht. unfold Js.truthy in Ht.
  by apply bool_decide_eq_true in Ht.
Qed.

Lemma gmail_evict_subset (fuel : nat) (cap : Z) (q q' : list string)
    (m m' : gset string) :
  Gmail.evict fuel cap q m = Some (q', m') → m' ⊆ m.
Proof.
  revert q m. induction fuel as [|fuel IH]; intros q m; simpl.
  - case_decide as Hd; [done|]. by intros ?; simplify_eq.
  - case_decide as Hd; [|by intros ?; simplify_eq].
    destruct q as [|o q]; [apply IH|].
    intros Hsub%IH. etrans; [exact Hsub|]. case_match; set_solver.
Qed.

Lemma gmail_trackProcessed_subset (j : string) (s s' : Gmail.Service) :
  Gmail.trackProcessed j s = Some s' →
  Gmail.processedSet s' ⊆ {[j]} ∪ Gmail.processedSet s.
Proof.
  unfold Gmail.trackProcessed. intros H.
  destruct (Gmail.config s) as [cfg|]; [|simplify_eq; set_solver].
  case_decide; [simplify_eq; set_solver|].
  destruct (Gmail.evict _ _ _ _) as [[q m]|] eqn:He; [|done].
  simplify_eq. simpl. by apply gmail_evict_subset in He.
Qed.

(** An identifier that a listing does not contain is not entered in the
    cache by the loop over it. *)
Lemma gmail_pollLoop_uncached (get : nat → string → Gmail.GetOutcome)
    (i : string) (l : list Gmail.Schema_Message) (s : Gmail.Service) :
  Forall (λ x, Gmail.id x ≠ Some i) l →
  i ∉ Gmail.processedSet s →
  i ∉ Gmail.processedSet (fst (Gmail.pollLoop get l s)).
Proof.
  intros Hl. revert s. induction Hl as [|entry l Hentry _ IH]; intros s Hs.
  - done.
  - simpl. destruct (Gmail.candidate entry s) as [j|] eqn:Hcand;
      [|by apply IH].
    apply gmail_candidate_Some in Hcand as (Hid & _ & _).
    destruct (Gmail.inspectMessage get j s) as [s1 o] eqn:Hi.
    apply gmail_inspectMessage_fields in Hi as (_ & _ & Hset & _).
    destruct o; simpl; try (by rewrite Hset).
    destruct (Gmail.trackProcessed j s1) as [s2|] eqn:Ht;
      [|simpl; by rewrite Hset].
    apply IH. apply gmail_trackProcessed_subset in Ht.
    assert (j ≠ i) by congruence. set_solver.
Qed.

(** What has been announced stays announced. *)
Lemma gmail_pollLoop_keeps_announced (get : nat → string → Gmail.GetOutcome)
    (i : string) (l : list Gmail.Schema_Message) (s : Gmail.Service) :
  i ∈ Gmail.notifications s →
  i ∈ Gmail.notifications (fst (Gmail.pollLoop get l s)).
Proof.
  revert s. induction l as [|entry l IH]; intros s Hs; [done|].
  simpl. destruct (Gmail.candidate entry s) as [j|]; [|by apply IH].
  assert (i ∈ Gmail.notifications (fst (Gmail.inspectMessage get j s)))
    as Hs1.
  { unfold Gmail.inspectMessage, Gmail.inspected.
    destruct (negb (Gmail.gmail s)); [done|].
    destruct (get _ _); [done|]. cbn [fst].
    unfold Gmail.notifications in *. simpl. rewrite omap_app.
    apply elem_of_app. by left. }
  destruct (Gmail.inspectMessage get j s) as [s1 o]. simpl in Hs1.
  destruct o; try done.
  destruct (Gmail.trackProcessed j s1) as [s2|] eqn:Ht; [|done].
  apply IH. apply gmail_trackProcessed_fields in Ht as (_ & _ & Hlog).
  unfold Gmail.notifications in *. by rewrite Hlog.
Qed.

Lemma gmail_onTick_keeps_announced (get : nat → string → Gmail.GetOutcome)
    (i : string) (l : Gmail.ListOutcome) (s : Gmail.Service) :
  i ∈ Gmail.notifications (fst (Gmail.pollInbox get l s)) →
  i ∈ Gmail.notifications (fst (Gmail.onTick get l s)).
Proof.
  unfold Gmail.onTick. destruct (Gmail.pollInbox get l s) as [s' o].
  destruct o; try done. simpl. intros H.
  unfold Gmail.notifications in *. simpl. rewrite omap_app.
  apply elem_of_app. by left.
Qed.

(** C5 (amended). In a Gmail poll whose listing call succeeded, when the
    dispatch of an item ([inspectMessage]) fails, [pollInbox] rejects at that
    item: the cron callback logs the error, the identifier is not entered in
    the dedup cache and the entries listed after it are not visited. At the
    next poll the item passes the guard of the loop again: if that poll
    lists it, after entries that do not carry its identifier, the item is
    dispatched again as soon as the loop reaches it, and announced when
    the request succeeds; when the request fails again, or the dispatch of
    an entry listed before it fails, the poll ends there and the item is
    still not in the cache. In the Outlook service the dispatch is a log
    call: its loop never throws. *)
Theorem failed_dispatch_leaves_item_untracked
    (get : nat → string → Gmail.GetOutcome) (s s1 : Gmail.Service)
    (pre rest : list Gmail.Schema_Message) (entry : Gmail.Schema_Message)
    (i e : string) :
  Gmail.gmail s = true → is_Some (Gmail.config s) →
  Gmail.pollLoop get pre (Gmail.count_list s) = (s1, Returned) →
  Gmail.candidate entry s1 = Some i →
  get (Gmail.getCalls s1) i = Gmail.GetRejected e →
  let after :=
    fst (Gmail.onTick get (Gmail.Listed (Some (pre ++ entry :: rest))) s) in
  after = Gmail.log (Gmail.PollFailed e) (Gmail.count_get s1)
  ∧ (i ∉ Gmail.processedSet after)
  ∧ Gmail.processedQueue after = Gmail.processedQueue s1
  ∧ Gmail.candidate entry after = Some i
  ∧ (∀ pre' rest',
       Forall (λ x, Gmail.id x ≠ Some i) pre' →
       let next :=
         fst (Gmail.onTick get
                (Gmail.Listed (Some (pre' ++ entry :: rest'))) after) in
       match Gmail.pollLoop get pre' (Gmail.count_list after) with
       | (s2, Returned) =>
           match get (Gmail.getCalls s2) i with
           | Gmail.Got _ => i ∈ Gmail.notifications next
           | Gmail.GetRejected e' =>
               next = Gmail.log (Gmail.PollFailed e') (Gmail.count_get s2)
               ∧ i ∉ Gmail.processedSet next
           end
       | (s2, Threw e') =>
           next = Gmail.log (Gmail.PollFailed e') s2
           ∧ i ∉ Gmail.processedSet next
       | (s2, Diverges) => next = s2
       end)
  ∧ (∀ messages o err, snd (Outlook.pollLoop messages o) ≠ Threw err).
Proof.
  intros Hgmail Hconfig Hpre Hcand Hget after.
  assert (after = Gmail.log (Gmail.PollFailed e) (Gmail.count_get s1)) as ->.
  { unfold after, Gmail.onTick, Gmail.pollInbox. rewrite Hgmail.
    rewrite bool_decide_eq_true_2 by done. simpl.
    case_decide as Hlen; [rewrite length_app in Hlen; simpl in Hlen; lia|].
    rewrite gmail_pollLoop_app, Hpre. simpl. rewrite Hcand.
    unfold Gmail.inspectMessage.
    apply gmail_pollLoop_fields in Hpre as [-> _]. simpl.
    by rewrite Hgmail, Hget. }
  assert (i ∉ Gmail.processedSet s1) as Hfresh.
  { unfold Gmail.candidate in Hcand. destruct (Gmail.id entry); [|done].
    destruct (negb _ || bool_decide (s0 ∈ Gmail.processedSet s1)) eqn:Hb;
      [done|].
    simplify_eq. apply orb_false_elim in Hb as [_ Hb].
    by apply bool_decide_eq_false in Hb. }
  split_and!; try done; [|apply outlook_pollLoop_never_throws].
  intros pre' rest' Hpre' next.
  pose proof (gmail_pollLoop_fields _ _ _ _ _ Hpre) as [Hg1 Hc1].
  simpl in Hg1, Hc1.
  set (t := Gmail.count_list
              (Gmail.log (Gmail.PollFailed e) (Gmail.count_get s1))).
  assert (next = fst (Gmail.onTick get
                        (Gmail.Listed (Some (pre' ++ entry :: rest')))
                        (Gmail.log (Gmail.PollFailed e) (Gmail.count_get s1))))
    as Hnext by done.
  assert (Gmail.pollInbox get (Gmail.Listed (Some (pre' ++ entry :: rest')))
            (Gmail.log (Gmail.PollFailed e) (Gmail.count_get s1))
          = Gmail.pollLoop get (pre' ++ entry :: rest') t) as Hpoll.
  { unfold Gmail.pollInbox. simpl. rewrite Hg1, Hgmail, Hc1.
    rewrite bool_decide_eq_true_2 by done. simpl.
    case_decide as Hlen; [rewrite length_app in Hlen; simpl in Hlen; lia|].
    done. }
  pose proof (gmail_pollLoop_uncached get i pre' t Hpre' Hfresh) as Hun.
  rewrite gmail_pollLoop_app in Hpoll.
  destruct (Gmail.pollLoop get pre' t) as [s2 o2] eqn:Hloop.
  simpl in Hun.
  pose proof (gmail_pollLoop_fields _ _ _ _ _ Hloop) as [Hg2 _].
  simpl in Hg2. rewrite Hg1, Hgmail in Hg2.
  destruct o2.
  - assert (Gmail.candidate entry s2 = Some i) as Hcand2.
    { apply gmail_candidate_Some in Hcand as (Hid & Hne & _).
      unfold Gmail.candidate. rewrite Hid.
      unfold Js.truthy. rewrite (bool_decide_eq_true_2 (i ≠ _)) by done.
      by rewrite (bool_decide_eq_false_2 (i ∈ _)). }
    cbn [Gmail.pollLoop] in Hpoll. rewrite Hcand2 in Hpoll.
    unfold Gmail.inspectMessage in Hpoll. rewrite Hg2 in Hpoll.
    cbn [negb] in Hpoll.
    destruct (get (Gmail.getCalls s2) i) as [e'|hs] eqn:Hget2.
    + cbn [Gmail.inspected] in Hpoll.
      unfold Gmail.onTick in Hnext. rewrite Hpoll in Hnext.
      simpl in Hnext. by rewrite Hnext.
    + rewrite Hnext. apply gmail_onTick_keeps_announced. rewrite Hpoll.
      destruct (gmail_inspected_Got i hs (Gmail.count_get s2))
        as (s3 & -> & Hn3 & _).
      assert (i ∈ Gmail.notifications s3) as Hi3.
      { rewrite Hn3. apply elem_of_app. right. by constructor. }
      destruct (Gmail.trackProcessed i s3) as [s4|] eqn:Ht; [|done].
      apply gmail_pollLoop_keeps_announced.
      apply gmail_trackProcessed_fields in Ht as (_ & _ & Hlog).
      unfold Gmail.notifications in *. by rewrite Hlog.
  - unfold Gmail.onTick in Hnext. rewrite Hpoll in Hnext.
    simpl in Hnext. by rewrite Hnext.
  - unfold Gmail.onTick in Hnext. by rewrite Hpoll in Hnext.
Qed.

Lemma failed_dispatch_leaves_item_untracked_witness :
  let after :=
    fst (Gmail.onTick Scenario.firstGetFails
           (Gmail.Listed (Some ([] ++ Scenario.entry "A" :: [Scenario.entry "B"])))
           (Scenario.gmailReady 100)) in
  after = Gmail.log (Gmail.PollFailed "ETIMEDOUT")
            (Gmail.count_get (Gmail.count_list (Scenario.gmailReady 100)))
  ∧ ("A" ∉ Gmail.processedSet after)
  ∧ Gmail.processedQueue after
    = Gmail.processedQueue (Gmail.count_list (Scenario.gmailReady 100))
  ∧ Gmail.candidate (Scenario.entry "A") after = Some "A"
  ∧ (∀ pre' rest',
       Forall (λ x, Gmail.id x ≠ Some "A") pre' →
       let next :=
         fst (Gmail.onTick Scenario.firstGetFails
                (Gmail.Listed (Some (pre' ++ Scenario.entry "A" :: rest')))
                after) in
       match Gmail.pollLoop Scenario.firstGetFails pre'
               (Gmail.count_list after) with
       | (s2, Returned) =>
           match Scenario.firstGetFails (Gmail.getCalls s2) "A" with
           | Gmail.Got _ => "A" ∈ Gmail.notifications next
           | Gmail.GetRejected e' =>
               next = Gmail.log (Gmail.PollFailed e') (Gmail.count_get s2)
               ∧ "A" ∉ Gmail.processedSet next
           end
       | (s2, Threw e') =>
           next = Gmail.log (Gmail.PollFailed e') s2
           ∧ "A" ∉ Gmail.processedSet next
       | (s2, Diverges) => next = s2
       end)
  ∧ (∀ messages o err, snd (Outlook.pollLoop messages o) ≠ Threw err).
Proof.
  apply (failed_dispatch_leaves_item_untracked Scenario.firstGetFails
           (Scenario.gmailReady 100)
           (Gmail.count_list (Scenario.gmailReady 100))
           [] [Scenario.entry "B"] (Scenario.entry "A") "A" "ETIMEDOUT").
  - reflexivity.
  - simpl. eauto.
  - reflexivity.
  - vm_compute. reflexivity.
  - reflexivity.
Defined.

(** The retry of a failed item waits for a poll that reaches it. After the
    poll of [A; B] failed at [A], a poll of [B; A] announces [B] then [A]
    when its requests succeed; when the request for [B] fails, [A] is not
    requested in that poll, and the poll after it announces both. *)
Example retry_waits_for_a_poll_that_reaches_the_item :
  let after_first (get : nat → string → Gmail.GetOutcome) :=
    fst (Gmail.onTick get (Scenario.listing ["A"; "B"])
           (Scenario.gmailReady 100)) in
  let second (get : nat → string → Gmail.GetOutcome) :=
    fst (Gmail.onTick get (Scenario.listing ["B"; "A"]) (after_first get)) in
  let third (get : nat → string → Gmail.GetOutcome) :=
    fst (Gmail.onTick get (Scenario.listing ["B"; "A"]) (second get)) in
  Gmail.notifications (second Scenario.firstGetFails) = ["B"; "A"]
  ∧ Gmail.notifications (second Scenario.firstTwoGetsFail) = []
  ∧ Gmail.getCalls (second Scenario.firstTwoGetsFail) = 2%nat
  ∧ Gmail.processedQueue (second Scenario.firstTwoGetsFail) = []
  ∧ Gmail.notifications (third Scenario.firstTwoGetsFail) = ["B"; "A"].
Proof. split_and!; vm_compute; reflexivity. Qed.

(** The claim C5 as written fails: with the listing [A] and a failing
    [messages.get], the identifier is not in the cache after the poll, and the
    next poll that lists [A] announces it. *)
Lemma failed_dispatch_is_retried :
  let s1 :=
    fst (Gmail.onTick Scenario.firstGetFails (Scenario.listing ["A"])
           (Scenario.gmailReady 100)) in
  ("A" ∉ Gmail.processedSet s1)
  ∧ Gmail.processedQueue s1 = []
  ∧ Gmail.notifications s1 = []
  ∧ Gmail.notifications
      (fst (Gmail.onTick Scenario.firstGetFails (Scenario.listing ["A"]) s1))
    = ["A"].
Proof.
  split_and!.
  - apply (bool_decide_eq_false_1 _). vm_compute. reflexivity.
  - vm_compute. reflexivity.
  - vm_compute. reflexivity.
  - vm_compute. reflexivity.
Qed.

(** C8 (amended). Capacity 2, polls [A, B], [B, C], [A, D], every dispatch
    succeeding whatever the headers of the messages: after the second poll
    the notifications are A, B, C and the cache holds B, C (A, inserted
    first, was evicted when C was inserted); after the third poll there are
    five notifications, in the order A, B, C, A, D. *)
Theorem scenario_C_five_notifications
    (headers : nat → string → option (list Gmail.Schema_MessagePartHeader)) :
  let get := λ n i, Gmail.Got (headers n i) in
  let polls := [Scenario.listing ["A"; "B"]; Scenario.listing ["B"; "C"];
                Scenario.listing ["A"; "D"]] in
  let after2 := Gmail.runTicks get (take 2 polls) (Scenario.gmailReady 2) in
  let after3 := Gmail.runTicks get polls (Scenario.gmailReady 2) in
  Gmail.notifications (fst after2) = ["A"; "B"; "C"]
  ∧ Gmail.processedQueue (fst after2) = ["B"; "C"]
  ∧ Gmail.notifications (fst after3) = ["A"; "B"; "C"; "A"; "D"]
  ∧ Gmail.processedQueue (fst after3) = ["A"; "D"]
  ∧ snd after3 = Returned.
Proof.
  intros get polls after2 after3.
  split_and!; vm_compute; reflexivity.
Qed.

(** The claim C8 as written fails: the notifications of the three polls are
    not the four A, B, C, D. *)
Lemma scenario_C_not_four_notifications :
  Gmail.notifications
    (fst (Gmail.runTicks Scenario.getsSucceed
            [Scenario.listing ["A"; "B"]; Scenario.listing ["B"; "C"];
             Scenario.listing ["A"; "D"]] (Scenario.gmailReady 2)))
  ≠ ["A"; "B"; "C"; "D"].
Proof. vm_compute. discriminate. Qed.

(** ** The token cache *)

Lemma cachedToken_Some (now : Z) (s : Outlook.Service) (t : string) :
  Outlook.cachedToken now s = Some t
  ↔ Outlook.accessToken s = Some t ∧ t ≠ EmptyString
    ∧ now < Outlook.accessTokenExpiresAtMs s - 30000.
Proof.
  unfold Outlook.cachedToken, Js.truthy.
  destruct (Outlook.accessToken s) as [c|]; [|naive_solver].
  destruct (bool_decide (c ≠ EmptyString)) eqn:Hc;
    destruct (bool_decide (now < _)) eqn:Hn; simpl;
    try apply bool_decide_eq_true in Hc; try apply bool_decide_eq_true in Hn;
    try apply bool_decide_eq_false in Hc; try apply bool_decide_eq_false in Hn;
    naive_solver.
Qed.

Lemma cachedToken_None (now : Z) (s : Outlook.Service) :
  Outlook.cachedToken now s = None
  ↔ Js.truthy (Outlook.accessToken s) = false
    ∨ Outlook.accessTokenExpiresAtMs s - 30000 ≤ now.
Proof.
  unfold Outlook.cachedToken.
  destruct (Outlook.accessToken s) as [c|]; [|naive_solver].
  destruct (Js.truthy (Some c)); simpl; [|naive_solver].
  case_bool_decide; split; intros H'; try done.
  - destruct H' as [?|?]; [done|lia].
  - right. lia.
Qed.

Lemma exchangeToken_Value (w : Outlook.TokenWorld) (s s' : Outlook.Service)
    (t : string) :
  Outlook.exchangeToken w s = (s', Value t) →
  exchangeFails (Outlook.answer w) = false
  ∧ t ≠ EmptyString
  ∧ s' = Outlook.set_token t
           (Outlook.nowAfter w + grantedLifetime (Outlook.answer w) * 1000)
           (Outlook.count_token s).
Proof.
  unfold Outlook.exchangeToken, exchangeFails, grantedLifetime.
  destruct (Outlook.answer w) as [e|ok status text body]; [done|].
  destruct ok; simpl; [|done].
  destruct body as [b|]; [|done].
  destruct (Js.truthy (Outlook.access_token b)) eqn:Ht; [|done].
  intros H. simplify_eq. split_and!; [done| |done].
  unfold Js.truthy in Ht. destruct (Outlook.access_token b); [|done].
  simpl. by apply bool_decide_eq_true in Ht.
Qed.

Lemma exchangeToken_Raise (w : Outlook.TokenWorld) (s : Outlook.Service) :
  exchangeFails (Outlook.answer w) = true →
  ∃ e, Outlook.exchangeToken w s = (Outlook.count_token s, Raise e).
Proof.
  unfold Outlook.exchangeToken, exchangeFails.
  destruct (Outlook.answer w) as [e|ok status text body]; [by eexists|].
  destruct ok; simpl; [|by eexists].
  destruct body as [b|]; [|by eexists].
  destruct (Js.truthy (Outlook.access_token b)); [done|by eexists].
Qed.

Lemma exchangeToken_counts (w : Outlook.TokenWorld) (s : Outlook.Service) :
  Outlook.tokenCalls (fst (Outlook.exchangeToken w s))
  = S (Outlook.tokenCalls s).
Proof.
  unfold Outlook.exchangeToken.
  destruct (Outlook.answer w) as [e|ok status text body]; [done|].
  destruct ok; simpl; [|done].
  destruct body as [b|]; [|done].
  by destruct (Js.truthy (Outlook.access_token b)).
Qed.

(** C6 (amended). [getAccessToken] returns the cached token, with the state
    unchanged and no request sent, whenever more than 30 seconds remain
    before the stored expiry ([now < expiry - 30000], in milliseconds).
    Otherwise it sends one token request; when that succeeds it stores the
    new token with the expiry [clock after the exchange + lifetime * 1000]
    (lifetime 3600 when the answer reports none) and returns it. So a token
    that is returned from the cache has more than 30 seconds left, and a
    token that is returned fresh has its whole reported lifetime left. *)
Theorem token_cache_freshness (w : Outlook.TokenWorld) (s : Outlook.Service) :
  (∀ t,
     Outlook.accessToken s = Some t → t ≠ EmptyString →
     Outlook.now w < Outlook.accessTokenExpiresAtMs s - 30000 →
     Outlook.getAccessToken w s = (s, Value t))
  ∧ (Js.truthy (Outlook.accessToken s) = false
     ∨ Outlook.accessTokenExpiresAtMs s - 30000 ≤ Outlook.now w →
     Outlook.tokenCalls (fst (Outlook.getAccessToken w s))
     = S (Outlook.tokenCalls s)
     ∧ ∀ status text b t,
         Outlook.answer w = Outlook.TokenResponse true status text (Some b) →
         Outlook.access_token b = Some t → t ≠ EmptyString →
         Outlook.getAccessToken w s
         = (Outlook.set_token t
              (Outlook.nowAfter w + default 3600 (Outlook.expires_in b) * 1000)
              (Outlook.count_token s), Value t))
  ∧ (∀ s' t,
       Outlook.getAccessToken w s = (s', Value t) →
       Outlook.accessToken s' = Some t
       ∧ (s' = s
          ∧ 30000 < Outlook.accessTokenExpiresAtMs s' - Outlook.now w
          ∨ Outlook.tokenCalls s' = S (Outlook.tokenCalls s)
            ∧ Outlook.accessTokenExpiresAtMs s' - Outlook.nowAfter w
              = grantedLifetime (Outlook.answer w) * 1000)).
Proof.
  split_and!.
  - intros t Ht Hne Hnow. unfold Outlook.getAccessToken.
    by rewrite (proj2 (cachedToken_Some _ _ t)).
  - intros Hstale. unfold Outlook.getAccessToken.
    rewrite (proj2 (cachedToken_None _ _)) by done.
    split; [apply exchangeToken_counts|].
    intros status text b t Hanswer Htoken Hne.
    unfold Outlook.exchangeToken. rewrite Hanswer. simpl.
    rewrite Htoken. simpl. by rewrite bool_decide_eq_true_2.
  - intros s' t. unfold Outlook.getAccessToken.
    destruct (Outlook.cachedToken (Outlook.now w) s) as [c|] eqn:Hc.
    + intros H. simplify_eq. apply cachedToken_Some in Hc as (? & ? & ?).
      split; [done|]. left. split; [done|lia].
    + intros (_ & _ & ->)%exchangeToken_Value. split; [done|].
      right. simpl. split; [done|lia].
Qed.

Lemma token_cache_freshness_witness :
  Outlook.getAccessToken
    (Scenario.at_ (Scenario.T0 + 3550000) (Scenario.grant "second" 3600))
    Scenario.afterFirstGrant
  = (Scenario.afterFirstGrant, Value "first")
  ∧ Outlook.getAccessToken
      (Scenario.at_ (Scenario.T0 + 100000) (Scenario.grant "second" 3600))
      Scenario.afterFirstGrant
    = (Scenario.afterFirstGrant, Value "first")
  ∧ Outlook.getAccessToken
      (Scenario.at_ (Scenario.T0 + 3570000) (Scenario.grant "second" 3600))
      Scenario.afterFirstGrant
    = (Outlook.set_token "second" (Scenario.T0 + 3570000 + 3600 * 1000)
         (Outlook.count_token Scenario.afterFirstGrant), Value "second").
Proof.
  split_and!.
  - apply (proj1 (token_cache_freshness
                    (Scenario.at_ (Scenario.T0 + 3550000)
                       (Scenario.grant "second" 3600))
                    Scenario.afterFirstGrant));
      [reflexivity|discriminate|vm_compute; reflexivity].
  - apply (proj1 (token_cache_freshness
                    (Scenario.at_ (Scenario.T0 + 100000)
                       (Scenario.grant "second" 3600))
                    Scenario.afterFirstGrant));
      [reflexivity|discriminate|vm_compute; reflexivity].
  - refine (proj2 (proj1 (proj2 (token_cache_freshness
                    (Scenario.at_ (Scenario.T0 + 3570000)
                       (Scenario.grant "second" 3600))
                    Scenario.afterFirstGrant)) _) 200 "{...}"
              (Scenario.grantBody "second" 3600) "second" _ _ _);
      [right; vm_compute; discriminate|reflexivity|reflexivity|discriminate].
Defined.

(** The claim C6 as written fails on its own scenario: 3550 seconds after a
    3600 second token was obtained, 50 seconds remain, more than the margin,
    and the call returns the cached token without any exchange. It also
    fails at the boundary: with exactly 30 seconds left the cached token is
    not returned. *)
Lemma scenario_D_call_at_3550_uses_cache :
  Outlook.getAccessToken
    (Scenario.at_ (Scenario.T0 + 3550000) (Scenario.grant "second" 3600))
    Scenario.afterFirstGrant
  = (Scenario.afterFirstGrant, Value "first")
  ∧ Outlook.tokenCalls Scenario.afterFirstGrant = 1%nat
  ∧ Outlook.accessTokenExpiresAtMs Scenario.afterFirstGrant
    - (Scenario.T0 + 3570000) = 30000
  ∧ snd (Outlook.getAccessToken
           (Scenario.at_ (Scenario.T0 + 3570000)
              (Scenario.grant "second" 3600))
           Scenario.afterFirstGrant)
    = Value "second".
Proof. split_and!; vm_compute; reflexivity. Qed.

(** C7. When the exchange is attempted (no usable cached token, or 30
    seconds or less before its expiry) and fails (the request is rejected,
    the response is not OK, its body does not parse or has no
    [access_token]), [getAccessToken] throws, the cached token and its expiry
    are what they were, and a later call sends a token request again. *)
Theorem failed_exchange_keeps_cached_token
    (w w2 : Outlook.TokenWorld) (s : Outlook.Service) :
  Js.truthy (Outlook.accessToken s) = false
  ∨ Outlook.accessTokenExpiresAtMs s - 30000 ≤ Outlook.now w →
  exchangeFails (Outlook.answer w) = true →
  Outlook.now w ≤ Outlook.now w2 →
  ∃ e s',
    Outlook.getAccessToken w s = (s', Raise e)
    ∧ Outlook.accessToken s' = Outlook.accessToken s
    ∧ Outlook.accessTokenExpiresAtMs s' = Outlook.accessTokenExpiresAtMs s
    ∧ Outlook.tokenCalls s' = S (Outlook.tokenCalls s)
    ∧ Outlook.tokenCalls (fst (Outlook.getAccessToken w2 s'))
      = S (Outlook.tokenCalls s').
Proof.
  intros Hstale Hfails Hlater.
  destruct (exchangeToken_Raise w s Hfails) as [e He].
  exists e, (Outlook.count_token s). unfold Outlook.getAccessToken.
  rewrite (proj2 (cachedToken_None _ _)) by done.
  split_and!; try done.
  rewrite (proj2 (cachedToken_None _ _)); [apply exchangeToken_counts|].
  simpl. destruct Hstale as [?|?]; [by left|right; lia].
Qed.

Lemma failed_exchange_keeps_cached_token_witness :
  ∃ e s',
    Outlook.getAccessToken
      (Scenario.at_ (Scenario.T0 + 3590000) Scenario.refuse)
      Scenario.afterFirstGrant = (s', Raise e)
    ∧ Outlook.accessToken s' = Outlook.accessToken Scenario.afterFirstGrant
    ∧ Outlook.accessTokenExpiresAtMs s'
      = Outlook.accessTokenExpiresAtMs Scenario.afterFirstGrant
    ∧ Outlook.tokenCalls s' = S (Outlook.tokenCalls Scenario.afterFirstGrant)
    ∧ Outlook.tokenCalls
        (fst (Outlook.getAccessToken
                (Scenario.at_ (Scenario.T0 + 3595000)
                   (Scenario.grant "second" 3600)) s'))
      = S (Outlook.tokenCalls s').
Proof.
  apply (failed_exchange_keeps_cached_token
           (Scenario.at_ (Scenario.T0 + 3590000) Scenario.refuse)
           (Scenario.at_ (Scenario.T0 + 3595000)
              (Scenario.grant "second" 3600))
           Scenario.afterFirstGrant).
  - right. vm_compute. discriminate.
  - reflexivity.
  - vm_compute. discriminate.
Defined.

(** ** The cursor of the push source *)

Lemma replay_app (c : Z) (n1 n2 : list Mail.Attempt) :
  replay c (n1 ++ n2) = replay (replay c n1) n2.
Proof. revert c. induction n1 as [|a n1 IH]; intros c; simpl; [done|apply IH]. Qed.

Lemma above_app (c : Z) (n1 n2 : list Mail.Attempt) :
  above c (n1 ++ n2) ↔ above c n1 ∧ above (replay c n1) n2.
Proof.
  revert c. induction n1 as [|a n1 IH]; intros c; simpl; [tauto|].
  rewrite IH. tauto.
Qed.

Lemma above_replay_le (c : Z) (n : list Mail.Attempt) :
  above c n → c ≤ replay c n.
Proof.
  revert c. induction n as [|a n IH]; intros c; simpl; [lia|].
  intros [Hlt Hrest]. apply IH in Hrest. destruct (Mail.attempt_ok a); lia.
Qed.

Lemma above_dispatched (c : Z) (n : list Mail.Attempt) :
  above c n →
  StronglySorted Z.lt (dispatched n) ∧ Forall (λ u, c < u) (dispatched n).
Proof.
  revert c. induction n as [|a n IH]; intros c; simpl.
  - intros _. split; constructor.
  - intros [Hlt Hrest]. apply IH in Hrest as [Hsorted Hall].
    unfold dispatched. simpl. fold (dispatched n).
    destruct (Mail.attempt_ok a); [|done].
    split; constructor; try done.
    eapply Forall_impl; [exact Hall|]. simpl. lia.
Qed.

Lemma sendNotification_fields (sendMail : nat → Mail.MailOptions → option string)
    (cfg : Mail.MailWatcherConfig) (env : option Mail.MessageEnvelopeObject)
    (s s' : Mail.Service) (o : Outcome) :
  Mail.sendNotification sendMail cfg env s = (s', o) →
  Mail.lastProcessedUid s' = Mail.lastProcessedUid s
  ∧ Mail.attempts s' = Mail.attempts s
  ∧ Mail.processingMailbox s' = Mail.processingMailbox s
  ∧ Mail.fetchCalls s' = Mail.fetchCalls s
  ∧ (o ≠ Returned → Mail.outbox s' = Mail.outbox s).
Proof.
  unfold Mail.sendNotification, Mail.sent. intros H.
  destruct (Mail.smtpTransport s); simpl in H; [|by simplify_eq].
  destruct (sendMail _ _); by simplify_eq.
Qed.

Lemma skips_false_above (m : Mail.FetchMessageObject) (s : Mail.Service) :
  Mail.skips m s = false → Mail.lastProcessedUid s < Mail.uid m.
Proof.
  unfold Mail.skips. intros H.
  apply orb_false_elim in H as [_ H]. apply bool_decide_eq_false in H. lia.
Qed.

(** What a scan loop does to the cursor and to the record of calls. *)
Lemma scanLoop_cursor (sendMail : nat → Mail.MailOptions → option string)
    (cfg : Mail.MailWatcherConfig) (msgs : list Mail.FetchMessageObject)
    (failure : option string) (s s' : Mail.Service) (o : Outcome) :
  Mail.scanLoop sendMail cfg msgs failure s = (s', o) →
  Mail.processingMailbox s' = Mail.processingMailbox s
  ∧ ∃ new,
      Mail.attempts s' = Mail.attempts s ++ new
      ∧ above (Mail.lastProcessedUid s) new
      ∧ Mail.lastProcessedUid s' = replay (Mail.lastProcessedUid s) new.
Proof.
  revert s. induction msgs as [|m msgs IH]; intros s H; simpl in H.
  - simplify_eq. split; [done|]. exists []. by rewrite app_nil_r.
  - destruct (Mail.skips m s) eqn:Hskip; [by apply IH|].
    apply skips_false_above in Hskip.
    destruct (Mail.sendNotification sendMail cfg (Mail.envelope m) s)
      as [s1 o1] eqn:Hsend.
    apply sendNotification_fields in Hsend as (Hc & Ha & Hp & _).
    destruct o1.
    + apply IH in H as (Hp' & new & Hnew & Habove & Hlast). simpl in *.
      split; [congruence|].
      exists ({| Mail.attempt_uid := Mail.uid m; Mail.attempt_ok := true |}
                :: new).
      rewrite Hnew, Ha, <-app_assoc. simpl. by split_and!.
    + simplify_eq. simpl. split; [done|].
      exists [{| Mail.attempt_uid := Mail.uid m; Mail.attempt_ok := false |}].
      rewrite Ha, Hc. simpl. by split_and!.
    + simplify_eq. simpl. split; [done|].
      exists [{| Mail.attempt_uid := Mail.uid m; Mail.attempt_ok := false |}].
      rewrite Ha, Hc. simpl. by split_and!.
Qed.

Lemma onExists_cursor (sendMail : nat → Mail.MailOptions → option string)
    (cfg : Mail.MailWatcherConfig) (mb : option Mail.MailboxObject)
    (f : Mail.Fetched) (s : Mail.Service) :
  ∃ new,
    Mail.attempts (Mail.onExists sendMail cfg mb f s) = Mail.attempts s ++ new
    ∧ above (Mail.lastProcessedUid s) new
    ∧ Mail.lastProcessedUid (Mail.onExists sendMail cfg mb f s)
      = replay (Mail.lastProcessedUid s) new.
Proof.
  unfold Mail.onExists.
  destruct (Mail.processingMailbox s);
    [exists []; by rewrite app_nil_r|].
  unfold Mail.handleNewMessages.
  destruct (Mail.nothingToFetch mb _);
    [exists []; simpl; by rewrite app_nil_r|].
  destruct (Mail.scanLoop sendMail cfg _ _ _) as [s2 o] eqn:Hscan.
  apply scanLoop_cursor in Hscan as (_ & new & Hnew & Habove & Hlast).
  exists new. by destruct o.
Qed.

(** C1. Over any sequence of scans of the push source, from any state and
    whatever the server and the transport answer: the cursor does not
    decrease; every notification attempted is for a uid greater than the
    cursor at the time of the attempt (the cursor being moved only by the
    attempts that succeeded, to their uid); hence the uids handed over are
    strictly increasing and greater than the cursor the sequence started
    from, and none is handed over twice. *)
Theorem cursor_monotone_no_redispatch
    (sendMail : nat → Mail.MailOptions → option string)
    (cfg : Mail.MailWatcherConfig) (scans : list Mail.Scan)
    (s : Mail.Service) :
  let s' := Mail.runScans sendMail cfg scans s in
  Mail.lastProcessedUid s ≤ Mail.lastProcessedUid s'
  ∧ ∃ new,
      Mail.attempts s' = Mail.attempts s ++ new
      ∧ above (Mail.lastProcessedUid s) new
      ∧ Mail.lastProcessedUid s' = replay (Mail.lastProcessedUid s) new
      ∧ StronglySorted Z.lt (dispatched new)
      ∧ Forall (λ u, Mail.lastProcessedUid s < u) (dispatched new).
Proof.
  simpl.
  assert (∃ new,
      Mail.attempts (Mail.runScans sendMail cfg scans s)
      = Mail.attempts s ++ new
      ∧ above (Mail.lastProcessedUid s) new
      ∧ Mail.lastProcessedUid (Mail.runScans sendMail cfg scans s)
        = replay (Mail.lastProcessedUid s) new) as (new & Hnew & Habove & Hlast).
  { revert s. induction scans as [|sc scans IH]; intros s.
    - exists []. simpl. by rewrite app_nil_r.
    - simpl. 
      destruct (onExists_cursor sendMail cfg (Mail.scan_mailbox sc)
                  (Mail.scan_fetched sc) s) as (n1 & Hn1 & Ha1 & Hl1).
      destruct (IH (Mail.onExists sendMail cfg (Mail.scan_mailbox sc)
                      (Mail.scan_fetched sc) s)) as (n2 & Hn2 & Ha2 & Hl2).
      exists (n1 ++ n2). unfold Mail.runScans in *.
      rewrite Hn2, Hn1, Hl2, Hl1, replay_app, above_app, <-app_assoc.
      rewrite Hl1 in Ha2. done. }
  split; [rewrite Hlast; by apply above_replay_le|].
  exists new. destruct (above_dispatched _ _ Habove). by split_and!.
Qed.

Lemma scanLoop_app (sendMail : nat → Mail.MailOptions → option string)
    (cfg : Mail.MailWatcherConfig) (pre post : list Mail.FetchMessageObject)
    (failure : option string) (s : Mail.Service) :
  Mail.scanLoop sendMail cfg (pre ++ post) failure s
  = match Mail.scanLoop sendMail cfg pre None s with
    | (s1, Returned) => Mail.scanLoop sendMail cfg post failure s1
    | r => r
    end.
Proof.
  revert s. induction pre as [|m pre IH]; intros s; simpl; [done|].
  destruct (Mail.skips m s); [apply IH|].
  destruct (Mail.sendNotification sendMail cfg (Mail.envelope m) s)
    as [s1 [| |]]; [apply IH|done..].
Qed.

(** C2. In a scan of the push source, let the messages before [m] have been
    processed without error, leaving the state [s1], and let [m] pass the
    guard of the loop. If the dispatch of [m] returns, the scan goes on with
    the cursor at the uid of [m], and the dispatch itself has not moved the
    cursor. If the dispatch of [m] fails, the scan ends there with that
    error: the cursor is the one of [s1], below the uid of [m]; the call for
    [m] is the last one recorded, so no message after [m] is attempted; and
    no mail was accepted beyond those of [s1]. *)
Theorem failed_dispatch_stops_scan
    (sendMail : nat → Mail.MailOptions → option string)
    (cfg : Mail.MailWatcherConfig)
    (pre rest : list Mail.FetchMessageObject) (m : Mail.FetchMessageObject)
    (failure : option string) (s s1 : Mail.Service) :
  Mail.scanLoop sendMail cfg pre None s = (s1, Returned) →
  Mail.skips m s1 = false →
  match Mail.sendNotification sendMail cfg (Mail.envelope m) s1 with
  | (s2, Returned) =>
      Mail.lastProcessedUid s2 = Mail.lastProcessedUid s1
      ∧ Mail.scanLoop sendMail cfg (pre ++ m :: rest) failure s
        = Mail.scanLoop sendMail cfg rest failure
            (Mail.set_lastProcessedUid (Mail.uid m)
               (Mail.observe {| Mail.attempt_uid := Mail.uid m;
                                Mail.attempt_ok := true |} s2))
  | (s2, o) =>
      let r := Mail.scanLoop sendMail cfg (pre ++ m :: rest) failure s in
      snd r = o
      ∧ Mail.lastProcessedUid (fst r) = Mail.lastProcessedUid s1
      ∧ Mail.lastProcessedUid (fst r) < Mail.uid m
      ∧ Mail.attempts (fst r)
        = Mail.attempts s1
            ++ [{| Mail.attempt_uid := Mail.uid m; Mail.attempt_ok := false |}]
      ∧ Mail.outbox (fst r) = Mail.outbox s1
  end.
Proof.
  intros Hpre Hskip.
  destruct (Mail.sendNotification sendMail cfg (Mail.envelope m) s1)
    as [s2 o] eqn:Hsend.
  pose proof (skips_false_above _ _ Hskip) as Hlt.
  pose proof (sendNotification_fields _ _ _ _ _ _ Hsend)
    as (Hc & Ha & _ & _ & Hout).
  rewrite scanLoop_app, Hpre. simpl. rewrite Hskip, Hsend.
  destruct o; simpl.
  - done.
  - rewrite Hc, Ha, Hout by done. split_and!; done.
  - rewrite Hc, Ha, Hout by done. split_and!; done.
Qed.

(** Scenario B, as an instance of the statement above: cursor 10, the fetch
    yields 11, 12, 13 and the transport rejects the second mail. The scan
    ends with the error, the cursor at 11, two calls recorded (11 handed
    over, 12 failed, none for 13) and one mail accepted, the one for 11. *)
Lemma failed_dispatch_stops_scan_witness :
  let r :=
    Mail.handleNewMessages Scenario.rejectsSecond Scenario.watcherConfig
      (Some Scenario.mailbox13) Scenario.fetched_11_12_13
      (Scenario.watching 11) in
  snd r = Threw "ECONNRESET"
  ∧ Mail.lastProcessedUid (fst r) = 11
  ∧ Mail.lastProcessedUid (fst r) < 12
  ∧ Mail.attempts (fst r)
    = [{| Mail.attempt_uid := 11; Mail.attempt_ok := true |};
       {| Mail.attempt_uid := 12; Mail.attempt_ok := false |}]
  ∧ Mail.outbox (fst r)
    = [{| Mail.mail_from := "source@example.com";
          Mail.mail_to := "me@example.com";
          Mail.mail_subject := "New email received from a";
          Mail.mail_text :=
            "You have received a new email from a with the subject "
              +:+ Js.dquote +:+ "hello" +:+ Js.dquote +:+ "." |}].
Proof.
  exact (failed_dispatch_stops_scan Scenario.rejectsSecond
           Scenario.watcherConfig
           [Scenario.message 11 "a"] [Scenario.message 13 "c"]
           (Scenario.message 12 "b") None
           (Mail.count_fetch (Scenario.watching 11))
           (fst (Mail.scanLoop Scenario.rejectsSecond
                   Scenario.watcherConfig [Scenario.message 11 "a"] None
                   (Mail.count_fetch (Scenario.watching 11))))
           eq_refl eq_refl).
Defined.

(** Scenario A: cursor 10, the fetch yields 11, 12, 13 and every mail is
    accepted. The cursor ends at 13 after three notifications, in the order
    11, 12, 13. *)
Example scenario_A :
  let s :=
    Mail.onExists Scenario.accepts Scenario.watcherConfig
      (Some Scenario.mailbox13) Scenario.fetched_11_12_13
      (Scenario.watching 11) in
  Mail.lastProcessedUid s = 13
  ∧ dispatched (Mail.attempts s) = [11; 12; 13]
  ∧ length (Mail.outbox s) = 3%nat
  ∧ Mail.processingMailbox s = false.
Proof. split_and!; vm_compute; reflexivity. Qed.

(** ** The scan guard *)

Lemma sent_fields (m : Mail.MailOptions) (answer : option string)
    (s s' : Mail.Service) (o : Outcome) :
  Mail.sent m answer s = (s', o) →
  Mail.processingMailbox s' = Mail.processingMailbox s.
Proof. unfold Mail.sent. destruct answer; intros H; by simplify_eq. Qed.

Lemma turn_guarded (sendMail : nat → Mail.MailOptions → option string)
    (cfg : Mail.MailWatcherConfig) (a : MailAsync.Activation)
    (s : Mail.Service) :
  Mail.processingMailbox s = true →
  match MailAsync.turn sendMail cfg a s with
  | (s', Some _) => Mail.processingMailbox s' = true
  | (s', None) => Mail.processingMailbox s' = false
  end.
Proof.
  intros Hflag. destruct a as [[|message rest] failure|message m answer rest failure];
    simpl.
  - done.
  - destruct (Mail.skips message s); [done|].
    by destruct (negb (Mail.smtpTransport s)).
  - destruct (Mail.sent m answer s) as [s1 o] eqn:Hsent.
    apply sent_fields in Hsent. destruct o; simpl; congruence.
Qed.

Lemma step_guarded (sendMail : nat → Mail.MailOptions → option string)
    (cfg : Mail.MailWatcherConfig) (m : MailAsync.Machine)
    (e : MailAsync.Event) :
  guarded m → guarded (MailAsync.step sendMail cfg m e).
Proof.
  intros Hm. destruct e as [mb f|k]; simpl.
  - destruct (Mail.processingMailbox (MailAsync.svc m)) eqn:Hflag; [done|].
    destruct Hm as [[_ Hnil]|[Hrun _]]; [|congruence].
    destruct (Mail.nothingToFetch mb _); [by left|].
    right. rewrite Hnil. simpl. eauto.
  - destruct Hm as [[Hidle Hnil]|[Hrun [a Ha]]].
    + rewrite Hnil. simpl. left. by rewrite Hnil.
    + rewrite Ha. destruct k as [|k]; simpl; [|right; rewrite Ha; eauto].
      pose proof (turn_guarded sendMail cfg a _ Hrun) as Hturn.
      destruct (MailAsync.turn sendMail cfg a (MailAsync.svc m)) as [s' [a'|]];
        simpl; [right; eauto|by left].
Qed.

Lemma run_guarded (sendMail : nat → Mail.MailOptions → option string)
    (cfg : Mail.MailWatcherConfig) (events : list MailAsync.Event)
    (m : MailAsync.Machine) :
  guarded m → guarded (MailAsync.run sendMail cfg m events).
Proof.
  revert m. induction events as [|e events IH]; intros m Hm; [done|].
  simpl. apply IH. by apply step_guarded.
Qed.

(** C4 (amended). The push source has a scan guard: whatever the order in
    which [exists] events arrive and suspended activations are resumed, at
    most one activation of [handleNewMessages] is in flight, the flag
    [processingMailbox] is raised exactly while one is, and an [exists] event
    that finds the flag raised changes nothing (no fetch, no mail). The poll
    source has no guard: every tick of a configured Gmail poller sends a
    listing request and adds an activation of [pollInbox], whatever is
    already in flight. *)
Theorem scan_guard_on_push_source_only
    (sendMail : nat → Mail.MailOptions → option string)
    (cfg : Mail.MailWatcherConfig) (s : Mail.Service)
    (events : list MailAsync.Event)
    (get : nat → string → Gmail.GetOutcome) (g : GmailAsync.Machine)
    (l : Gmail.ListOutcome) :
  Mail.processingMailbox s = false →
  Gmail.gmail (GmailAsync.svc g) = true →
  is_Some (Gmail.config (GmailAsync.svc g)) →
  GmailAsync.stuck g = false →
  let m := MailAsync.run sendMail cfg (MailAsync.start s) events in
  (length (MailAsync.inflight m) ≤ 1)%nat
  ∧ (Mail.processingMailbox (MailAsync.svc m) = true
     ↔ MailAsync.inflight m ≠ [])
  ∧ (∀ mb f,
       Mail.processingMailbox (MailAsync.svc m) = true →
       MailAsync.step sendMail cfg m (MailAsync.Exists mb f) = m)
  ∧ (let g' := GmailAsync.step get g (GmailAsync.Tick l) in
     length (GmailAsync.inflight g') = S (length (GmailAsync.inflight g))
     ∧ Gmail.listCalls (GmailAsync.svc g')
       = S (Gmail.listCalls (GmailAsync.svc g))).
Proof.
  intros Hidle Hgmail Hconfig Hstuck m.
  assert (guarded m) as Hm by (apply run_guarded; by left).
  split_and!.
  - destruct Hm as [[_ ->]|[_ [a ->]]]; simpl; lia.
  - destruct Hm as [[Hf ->]|[Hf [a ->]]]; rewrite Hf; split; done.
  - intros mb f Hflag. simpl. by rewrite Hflag.
  - unfold GmailAsync.step. rewrite Hstuck, Hgmail.
    rewrite bool_decide_eq_true_2 by done. simpl.
    rewrite length_app. simpl. split; [lia|done].
Qed.

Lemma scan_guard_on_push_source_only_witness :
  let m :=
    MailAsync.run Scenario.accepts Scenario.watcherConfig
      (MailAsync.start (Scenario.watching 11))
      [MailAsync.Exists (Some Scenario.mailbox13) Scenario.fetched_11_12_13;
       MailAsync.Resume 0;
       MailAsync.Exists (Some Scenario.mailbox13) Scenario.fetched_11_12_13]
  in
  (length (MailAsync.inflight m) ≤ 1)%nat
  ∧ (Mail.processingMailbox (MailAsync.svc m) = true
     ↔ MailAsync.inflight m ≠ [])
  ∧ (∀ mb f,
       Mail.processingMailbox (MailAsync.svc m) = true →
       MailAsync.step Scenario.accepts Scenario.watcherConfig m
         (MailAsync.Exists mb f) = m)
  ∧ (let g' :=
       GmailAsync.step Scenario.getsSucceed
         (GmailAsync.start (Scenario.gmailReady 100))
         (GmailAsync.Tick (Scenario.listing ["A"])) in
     length (GmailAsync.inflight g')
     = S (length (GmailAsync.inflight
                    (GmailAsync.start (Scenario.gmailReady 100))))
     ∧ Gmail.listCalls (GmailAsync.svc g')
       = S (Gmail.listCalls
              (GmailAsync.svc (GmailAsync.start (Scenario.gmailReady 100))))).
Proof.
  apply (scan_guard_on_push_source_only Scenario.accepts
           Scenario.watcherConfig (Scenario.watching 11)
           [MailAsync.Exists (Some Scenario.mailbox13)
              Scenario.fetched_11_12_13;
            MailAsync.Resume 0;
            MailAsync.Exists (Some Scenario.mailbox13)
              Scenario.fetched_11_12_13]
           Scenario.getsSucceed
           (GmailAsync.start (Scenario.gmailReady 100))
           (Scenario.listing ["A"])).
  - reflexivity.
  - reflexivity.
  - simpl. eauto.
  - reflexivity.
Defined.

(** The claim C4 as written fails for the poll sources: a second tick that
    arrives while the first poll is still waiting for its listing is not
    skipped. Two polls are then in flight, two listing requests have been
    sent, and when both polls go on, each of them announces the message A. *)
Lemma overlapping_gmail_polls :
  let ticks :=
    [GmailAsync.Tick (Scenario.listing ["A"]);
     GmailAsync.Tick (Scenario.listing ["A"])] in
  let resumes :=
    [GmailAsync.Resume 0; GmailAsync.Resume 1; GmailAsync.Resume 0;
     GmailAsync.Resume 1; GmailAsync.Resume 0; GmailAsync.Resume 1;
     GmailAsync.Resume 0; GmailAsync.Resume 0]%nat in
  let m :=
    GmailAsync.run Scenario.getsSucceed
      (GmailAsync.start (Scenario.gmailReady 100)) ticks in
  let m' := GmailAsync.run Scenario.getsSucceed m resumes in
  length (GmailAsync.inflight m) = 2%nat
  ∧ Gmail.listCalls (GmailAsync.svc m) = 2%nat
  ∧ Gmail.notifications (GmailAsync.svc m') = ["A"; "A"]
  ∧ GmailAsync.inflight m' = [].
Proof. split_and!; vm_compute; reflexivity. Qed.

(** ** Start-up of the sources *)

Lemma gmail_onModuleInit_returns (env : gmap string string)
    (toNumber : string → Z) (cronAccepts : string → bool)
    (g : Gmail.Service) :
  snd (Gmail.onModuleInit env toNumber cronAccepts g) = Returned.
Proof.
  unfold Gmail.onModuleInit.
  destruct (negb (Gmail.isEnabled env)); [done|].
  destruct (Gmail.resolveConfig env toNumber) as [c|e]; [|done].
  by destruct (Gmail.registerCronJob cronAccepts _ _).
Qed.

Lemma outlook_onModuleInit_returns (env : gmap string string)
    (toNumber : string → Z) (cronAccepts : string → bool)
    (o : Outlook.Service) :
  snd (Outlook.onModuleInit env toNumber cronAccepts o) = Returned.
Proof.
  unfold Outlook.onModuleInit.
  destruct (negb (Outlook.isEnabled env)); [done|].
  destruct (Outlook.resolveConfig env toNumber) as [c|e]; [|done].
  by destruct (Outlook.registerCronJob cronAccepts _ _).
Qed.

Lemma init_poll_provider (env : gmap string string) (toNumber : string → Z)
    (cronAccepts : string → bool) (start : Mail.StartWorld)
    (p : App.Provider) (a : App.Services) :
  p ≠ App.MailService →
  snd (App.init env toNumber cronAccepts start p a) = Returned
  ∧ App.mail (fst (App.init env toNumber cronAccepts start p a)) = App.mail a.
Proof.
  intros Hp. destruct p; [done|simpl..].
  - pose proof (gmail_onModuleInit_returns env toNumber cronAccepts
                  (App.gmail a)) as H.
    by destruct (Gmail.onModuleInit _ _ _ _).
  - pose proof (outlook_onModuleInit_returns env toNumber cronAccepts
                  (App.outlook a)) as H.
    by destruct (Outlook.onModuleInit _ _ _ _).
Qed.

Lemma context_without_mail (env : gmap string string) (toNumber : string → Z)
    (cronAccepts : string → bool) (start : Mail.StartWorld)
    (providers : list App.Provider) (a : App.Services) :
  App.MailService ∉ providers →
  snd (App.createApplicationContext env toNumber cronAccepts start providers a)
  = Returned.
Proof.
  revert a. induction providers as [|p ps IH]; intros a Hnot; [done|].
  apply not_elem_of_cons in Hnot as [Hp Hps]. simpl.
  destruct (init_poll_provider env toNumber cronAccepts start p a) as [Ho _];
    [done|].
  destruct (App.init env toNumber cronAccepts start p a) as [a1 o].
  simpl in Ho. subst o. by apply IH.
Qed.

Lemma context_with_failing_mail (env : gmap string string)
    (toNumber : string → Z) (cronAccepts : string → bool)
    (start : Mail.StartWorld) (providers : list App.Provider)
    (a : App.Services) :
  App.MailService ∈ providers →
  snd (Mail.onModuleInit env toNumber start (App.mail a)) ≠ Returned →
  snd (App.createApplicationContext env toNumber cronAccepts start providers a)
  ≠ Returned.
Proof.
  revert a. induction providers as [|p ps IH]; intros a Hin Hfail.
  - by apply elem_of_nil in Hin.
  - simpl. destruct (decide (p = App.MailService)) as [->|Hp].
    + simpl. destruct (Mail.onModuleInit env toNumber start (App.mail a))
        as [m o]. simpl in Hfail. by destruct o.
    + apply elem_of_cons in Hin as [?|Hin]; [done|].
      destruct (init_poll_provider env toNumber cronAccepts start p a)
        as [Ho Hm]; [done|].
      destruct (App.init env toNumber cronAccepts start p a) as [a1 o].
      simpl in Ho, Hm. subst o. apply IH; [done|]. by rewrite Hm.
Qed.

Lemma gmail_onTick_catches (get : nat → string → Gmail.GetOutcome)
    (l : Gmail.ListOutcome) (g : Gmail.Service) (e : string) :
  snd (Gmail.onTick get l g) ≠ Threw e.
Proof.
  unfold Gmail.onTick. destruct (Gmail.pollInbox get l g) as [s' o].
  by destruct o.
Qed.

Lemma outlook_onTick_catches (w : Outlook.PollWorld) (o : Outlook.Service)
    (e : string) :
  snd (Outlook.onTick w o) ≠ Threw e.
Proof.
  unfold Outlook.onTick. destruct (Outlook.pollInbox w o) as [s' r].
  by destruct r.
Qed.

Lemma mail_onModuleInit_outcome (env : gmap string string)
    (toNumber : string → Z) (w : Mail.StartWorld) (s s' : Mail.Service) :
  snd (Mail.onModuleInit env toNumber w s)
  = snd (Mail.onModuleInit env toNumber w s').
Proof.
  unfold Mail.onModuleInit, Mail.bootstrapSmtpTransport,
    Mail.startImapWatcher.
  destruct (negb (Mail.isEnabled env)); [done|].
  destruct (Mail.resolveConfig env toNumber) as [c|e]; [|done].
  destruct (Mail.verify w); [done|].
  destruct (Mail.connect w); [done|].
  by destruct (Mail.mailboxOpen w).
Qed.

Lemma context_all_return (env : gmap string string) (toNumber : string → Z)
    (cronAccepts : string → bool) (start : Mail.StartWorld)
    (providers : list App.Provider) (a : App.Services) :
  snd (Mail.onModuleInit env toNumber start Mail.initial) = Returned →
  snd (App.createApplicationContext env toNumber cronAccepts start providers a)
  = Returned.
Proof.
  intros Hmail. revert a. induction providers as [|p ps IH]; intros a; [done|].
  simpl.
  assert (snd (App.init env toNumber cronAccepts start p a) = Returned) as Hp.
  { destruct (decide (p = App.MailService)) as [->|Hne].
    - pose proof (mail_onModuleInit_outcome env toNumber start (App.mail a)
                    Mail.initial) as Hsame.
      rewrite Hmail in Hsame. simpl.
      by destruct (Mail.onModuleInit env toNumber start (App.mail a)).
    - by apply init_poll_provider. }
  destruct (App.init env toNumber cronAccepts start p a) as [a1 o].
  simpl in Hp. subst o. apply IH.
Qed.

Lemma context_fst (env : gmap string string) (toNumber : string → Z)
    (cronAccepts : string → bool) (start : Mail.StartWorld)
    (p : App.Provider) (ps : list App.Provider) (a : App.Services) :
  fst (App.createApplicationContext env toNumber cronAccepts start (p :: ps) a)
  = fst (App.createApplicationContext env toNumber cronAccepts start ps
           (fst (App.init env toNumber cronAccepts start p a))).
Proof.
  simpl. destruct (App.init env toNumber cronAccepts start p a) as [a1 o].
  by destruct o.
Qed.

(** Every service comes out of the start-up of the module as its own
    [onModuleInit] leaves it, whatever its siblings did. *)
Lemma context_states (env : gmap string string) (toNumber : string → Z)
    (cronAccepts : string → bool) (start : Mail.StartWorld)
    (providers : list App.Provider) :
  NoDup providers →
  ∀ a : App.Services,
    let a' :=
      fst (App.createApplicationContext env toNumber cronAccepts start
             providers a) in
    App.mail a'
    = (if decide (App.MailService ∈ providers)
       then fst (Mail.onModuleInit env toNumber start (App.mail a))
       else App.mail a)
    ∧ App.gmail a'
      = (if decide (App.GmailApiPollingService ∈ providers)
         then fst (Gmail.onModuleInit env toNumber cronAccepts (App.gmail a))
         else App.gmail a)
    ∧ App.outlook a'
      = (if decide (App.OutlookGraphPollingService ∈ providers)
         then fst (Outlook.onModuleInit env toNumber cronAccepts
                     (App.outlook a))
         else App.outlook a).
Proof.
  induction 1 as [|p ps Hp Hnd IH]; intros a; cbn zeta.
  - rewrite !decide_False by apply not_elem_of_nil. done.
  - rewrite context_fst.
    destruct (IH (fst (App.init env toNumber cronAccepts start p a)))
      as (Hm & Hg & Ho).
    rewrite Hm, Hg, Ho. clear Hm Hg Ho IH.
    destruct p; simpl.
    + destruct (Mail.onModuleInit env toNumber start (App.mail a))
        as [m o] eqn:Hinit. simpl.
      split_and!; repeat case_decide; first [done|set_solver].
    + destruct (Gmail.onModuleInit env toNumber cronAccepts (App.gmail a))
        as [g o] eqn:Hinit. simpl.
      split_and!; repeat case_decide; first [done|set_solver].
    + destruct (Outlook.onModuleInit env toNumber cronAccepts (App.outlook a))
        as [x o] eqn:Hinit. simpl.
      split_and!; repeat case_decide; first [done|set_solver].
Qed.

Lemma mailRejects_false (env : gmap string string) (toNumber : string → Z)
    (start : Mail.StartWorld) :
  mailRejects env toNumber start = false
  ↔ snd (Mail.onModuleInit env toNumber start Mail.initial) = Returned.
Proof.
  unfold mailRejects.
  by destruct (snd (Mail.onModuleInit env toNumber start Mail.initial)).
Qed.

(** The three ways [bootstrap()] ends, read off the start-up of each
    provider taken alone. *)
Lemma bootstrap_cases (env : gmap string string) (toNumber : string → Z)
    (cronAccepts : string → bool) (start : Mail.StartWorld)
    (providers : list App.Provider) :
  NoDup providers →
  let p := App.bootstrap env toNumber cronAccepts start providers in
  let a :=
    fst (App.createApplicationContext env toNumber cronAccepts start
           providers App.fresh) in
  let alive :=
    bool_decide (App.MailService ∈ providers)
    && mailStarts env toNumber start
    || bool_decide (App.GmailApiPollingService ∈ providers)
       && gmailStarts env toNumber cronAccepts
    || bool_decide (App.OutlookGraphPollingService ∈ providers)
       && outlookStarts env toNumber cronAccepts in
  Mail.watching (App.mail a)
  = bool_decide (App.MailService ∈ providers) && mailStarts env toNumber start
  ∧ Gmail.cronJob (App.gmail a)
    = bool_decide (App.GmailApiPollingService ∈ providers)
      && gmailStarts env toNumber cronAccepts
  ∧ Outlook.cronJob (App.outlook a)
    = bool_decide (App.OutlookGraphPollingService ∈ providers)
      && outlookStarts env toNumber cronAccepts
  ∧ if bool_decide (App.MailService ∈ providers)
       && mailRejects env toNumber start
    then p = App.Exited 1
    else if alive then p = App.Running a else p = App.Exited 0.
Proof.
  intros Hnd. cbn zeta.
  destruct (context_states env toNumber cronAccepts start providers Hnd
              App.fresh) as (Hm & Hg & Ho).
  assert (Mail.watching
            (App.mail
               (fst (App.createApplicationContext env toNumber cronAccepts
                       start providers App.fresh)))
          = bool_decide (App.MailService ∈ providers)
            && mailStarts env toNumber start) as Hmw.
  { rewrite Hm. unfold mailStarts.
    destruct (decide (App.MailService ∈ providers));
      [rewrite bool_decide_eq_true_2 by done
      |rewrite bool_decide_eq_false_2 by done]; done. }
  assert (Gmail.cronJob
            (App.gmail
               (fst (App.createApplicationContext env toNumber cronAccepts
                       start providers App.fresh)))
          = bool_decide (App.GmailApiPollingService ∈ providers)
            && gmailStarts env toNumber cronAccepts) as Hgw.
  { rewrite Hg. unfold gmailStarts.
    destruct (decide (App.GmailApiPollingService ∈ providers));
      [rewrite bool_decide_eq_true_2 by done
      |rewrite bool_decide_eq_false_2 by done]; done. }
  assert (Outlook.cronJob
            (App.outlook
               (fst (App.createApplicationContext env toNumber cronAccepts
                       start providers App.fresh)))
          = bool_decide (App.OutlookGraphPollingService ∈ providers)
            && outlookStarts env toNumber cronAccepts) as How.
  { rewrite Ho. unfold outlookStarts.
    destruct (decide (App.OutlookGraphPollingService ∈ providers));
      [rewrite bool_decide_eq_true_2 by done
      |rewrite bool_decide_eq_false_2 by done]; done. }
  split_and!; [done..|].
  unfold App.bootstrap.
  destruct (bool_decide (App.MailService ∈ providers)
            && mailRejects env toNumber start) eqn:Hrej.
  - apply andb_true_iff in Hrej as [Hin%bool_decide_eq_true Hrej].
    assert (snd (Mail.onModuleInit env toNumber start Mail.initial)
            ≠ Returned) as Hfail.
    { intros Hret%mailRejects_false. congruence. }
    pose proof (context_with_failing_mail env toNumber cronAccepts start
                  providers App.fresh Hin Hfail) as H.
    destruct (App.createApplicationContext _ _ _ _ _ _) as [a o].
    simpl in H. by destruct o.
  - assert (snd (App.createApplicationContext env toNumber cronAccepts start
                   providers App.fresh) = Returned) as Hret.
    { apply andb_false_iff in Hrej as [Hnot%bool_decide_eq_false|Hret].
      - by apply context_without_mail.
      - by apply context_all_return, mailRejects_false. }
    rewrite <-Hmw, <-Hgw, <-How.
    destruct (App.createApplicationContext _ _ _ _ _ _) as [a o].
    simpl in *. subst o. unfold App.keepsAlive.
    by destruct (Mail.watching (App.mail a) || Gmail.cronJob (App.gmail a)
                 || Outlook.cronJob (App.outlook a)).
Qed.

(** C9 (amended). The start-up of a poll source never rejects: its errors,
    a missing credential among them, are caught and logged in its own
    [onModuleInit]. So they reach no sibling: in any module, as long as the
    start-up of the push source does not reject, the watcher is subscribed
    and each poller is scheduled exactly when its own start-up, taken alone,
    subscribes or schedules it, whatever happened in the others. The
    start-up of the push source does reject (a missing [SOURCE_EMAIL] is
    thrown by [resolveConfig] outside any [try], and the other start-up
    errors are thrown again after being logged); the bootstrap of a module
    that contains it then ends in [process.exit(1)], which stops every
    source. Once started, a poll never lets an error out of its cron
    callback. *)
Theorem init_failure_contained_in_poll_sources_only
    (env : gmap string string) (toNumber : string → Z)
    (cronAccepts : string → bool) (start : Mail.StartWorld)
    (providers : list App.Provider) :
  NoDup providers →
  let p := App.bootstrap env toNumber cronAccepts start providers in
  (∀ g, snd (Gmail.onModuleInit env toNumber cronAccepts g) = Returned)
  ∧ (∀ o, snd (Outlook.onModuleInit env toNumber cronAccepts o) = Returned)
  ∧ (App.MailService ∉ providers ∨ mailRejects env toNumber start = false →
     p ≠ App.Exited 1
     ∧ App.mailWatching p
       = bool_decide (App.MailService ∈ providers)
         && mailStarts env toNumber start
     ∧ App.gmailPolling p
       = bool_decide (App.GmailApiPollingService ∈ providers)
         && gmailStarts env toNumber cronAccepts
     ∧ App.outlookPolling p
       = bool_decide (App.OutlookGraphPollingService ∈ providers)
         && outlookStarts env toNumber cronAccepts)
  ∧ (Mail.isEnabled env = true →
     Js.truthy (Js.get env "SOURCE_EMAIL") = false →
     snd (Mail.onModuleInit env toNumber start Mail.initial)
     = Threw "Missing required environment variable: SOURCE_EMAIL")
  ∧ (App.MailService ∈ providers →
     mailRejects env toNumber start = true →
     p = App.Exited 1
     ∧ App.mailWatching p = false
     ∧ App.gmailPolling p = false
     ∧ App.outlookPolling p = false)
  ∧ (∀ get l g e, snd (Gmail.onTick get l g) ≠ Threw e)
  ∧ (∀ w o e, snd (Outlook.onTick w o) ≠ Threw e).
Proof.
  intros Hnd. cbn zeta.
  pose proof (bootstrap_cases env toNumber cronAccepts start providers Hnd)
    as (Hm & Hg & Ho & Hp). cbn zeta in Hm, Hg, Ho, Hp.
  split_and!; [..|apply gmail_onTick_catches|apply outlook_onTick_catches].
  - apply gmail_onModuleInit_returns.
  - apply outlook_onModuleInit_returns.
  - intros Hok.
    assert (bool_decide (App.MailService ∈ providers)
            && mailRejects env toNumber start = false) as Hrej.
    { apply andb_false_iff.
      destruct Hok as [Hnot|Hret]; [left|by right].
      by apply bool_decide_eq_false. }
    rewrite Hrej in Hp. rewrite <-Hm, <-Hg, <-Ho in Hp |- *.
    set (a := fst (App.createApplicationContext env toNumber cronAccepts
                     start providers App.fresh)) in *.
    destruct (Mail.watching (App.mail a)) eqn:Hmw;
      destruct (Gmail.cronJob (App.gmail a)) eqn:Hgw;
      destruct (Outlook.cronJob (App.outlook a)) eqn:How;
      simpl in Hp; rewrite Hp; simpl; by rewrite ?Hmw, ?Hgw, ?How.
  - intros Hen Hmissing. unfold Mail.onModuleInit, Mail.resolveConfig.
    rewrite Hen. simpl. unfold Mail.requireEnv at 1.
    unfold Js.get in *. destruct (env !! "SOURCE_EMAIL") as [v|]; [|done].
    by rewrite Hmissing.
  - intros Hin Hrej.
    rewrite (bool_decide_eq_true_2 _ Hin), Hrej in Hp. simpl in Hp.
    by rewrite Hp.
Qed.

Lemma init_failure_contained_in_poll_sources_only_witness :
  NoDup App.MailModule_gmail
  ∧ NoDup App.MailModule
  ∧ (App.bootstrap Scenario.envPollersUnconfigured Scenario.noNumber
       Scenario.anyCron Scenario.serversUp App.MailModule_gmail
     ≠ App.Exited 1
     ∧ App.mailWatching
         (App.bootstrap Scenario.envPollersUnconfigured Scenario.noNumber
            Scenario.anyCron Scenario.serversUp App.MailModule_gmail)
       = true
     ∧ App.gmailPolling
         (App.bootstrap Scenario.envPollersUnconfigured Scenario.noNumber
            Scenario.anyCron Scenario.serversUp App.MailModule_gmail)
       = false
     ∧ App.outlookPolling
         (App.bootstrap Scenario.envPollersUnconfigured Scenario.noNumber
            Scenario.anyCron Scenario.serversUp App.MailModule_gmail)
       = false)
  ∧ (App.bootstrap Scenario.envPollersUnconfigured Scenario.noNumber
       Scenario.anyCron Scenario.serversUp App.MailModule
     ≠ App.Exited 1
     ∧ App.mailWatching
         (App.bootstrap Scenario.envPollersUnconfigured Scenario.noNumber
            Scenario.anyCron Scenario.serversUp App.MailModule)
       = true
     ∧ App.gmailPolling
         (App.bootstrap Scenario.envPollersUnconfigured Scenario.noNumber
            Scenario.anyCron Scenario.serversUp App.MailModule)
       = false
     ∧ App.outlookPolling
         (App.bootstrap Scenario.envPollersUnconfigured Scenario.noNumber
            Scenario.anyCron Scenario.serversUp App.MailModule)
       = false)
  ∧ snd (Mail.onModuleInit Scenario.envMailUnconfigured Scenario.noNumber
           Scenario.serversUp Mail.initial)
    = Threw "Missing required environment variable: SOURCE_EMAIL"
  ∧ App.bootstrap Scenario.envMailUnconfigured Scenario.noNumber
      Scenario.anyCron Scenario.serversUp App.MailModule_gmail
    = App.Exited 1.
Proof.
  assert (NoDup App.MailModule_gmail) as Hg
    by (apply (bool_decide_unpack _); vm_compute; exact I).
  assert (NoDup App.MailModule) as Ho
    by (apply (bool_decide_unpack _); vm_compute; exact I).
  split; [exact Hg|]. split; [exact Ho|].
  split.
  { apply (proj1 (proj2 (proj2 (init_failure_contained_in_poll_sources_only
             Scenario.envPollersUnconfigured Scenario.noNumber
             Scenario.anyCron Scenario.serversUp App.MailModule_gmail Hg)))).
    right. vm_compute. reflexivity. }
  split.
  { apply (proj1 (proj2 (proj2 (init_failure_contained_in_poll_sources_only
             Scenario.envPollersUnconfigured Scenario.noNumber
             Scenario.anyCron Scenario.serversUp App.MailModule Ho)))).
    right. vm_compute. reflexivity. }
  split.
  { apply (proj1 (proj2 (proj2 (proj2
             (init_failure_contained_in_poll_sources_only
                Scenario.envMailUnconfigured Scenario.noNumber
                Scenario.anyCron Scenario.serversUp App.MailModule_gmail
                Hg)))));
      vm_compute; reflexivity. }
  apply (proj1 (proj2 (proj2 (proj2 (proj2
           (init_failure_contained_in_poll_sources_only
              Scenario.envMailUnconfigured Scenario.noNumber
              Scenario.anyCron Scenario.serversUp App.MailModule_gmail
              Hg)))))).
  - apply elem_of_cons. by left.
  - vm_compute. reflexivity.
Defined.

(** The claim C9 as written fails: in the module of the watcher and the
    Gmail poller, with the poller fully configured, a missing
    [SOURCE_EMAIL] of the watcher ends the process with code 1 and the
    poller does not run, although the same poller runs in the same module
    when the credentials of the watcher are there, and when it is alone. *)
Lemma missing_mail_credential_stops_gmail_poller :
  App.bootstrap Scenario.envMailUnconfigured Scenario.noNumber
    Scenario.anyCron Scenario.serversUp App.MailModule_gmail
  = App.Exited 1
  ∧ App.gmailPolling
      (App.bootstrap Scenario.envMailUnconfigured Scenario.noNumber
         Scenario.anyCron Scenario.serversUp App.MailModule_gmail)
    = false
  ∧ App.gmailPolling
      (App.bootstrap Scenario.envAllConfigured Scenario.noNumber
         Scenario.anyCron Scenario.serversUp App.MailModule_gmail)
    = true
  ∧ App.gmailPolling
      (App.bootstrap Scenario.envMailUnconfigured Scenario.noNumber
         Scenario.anyCron Scenario.serversUp [App.GmailApiPollingService])
    = true.
Proof. split_and!; vm_compute; reflexivity. Qed.

(** ** The cache under whole polls

    [pollInbox] passes only non-empty identifiers to [trackProcessed], so the
    invariant of the cache holds after every poll, whatever the listings
    contain and however the dispatches end; with a capacity [N >= 0] no poll
    hangs in the eviction loop. *)

Lemma gmail_inspectMessage_ends (get : nat → string → Gmail.GetOutcome)
    (i : string) (s : Gmail.Service) :
  snd (Gmail.inspectMessage get i s) ≠ Diverges.
Proof.
  unfold Gmail.inspectMessage, Gmail.inspected.
  destruct (negb (Gmail.gmail s)); [done|]. by destruct (get _ _).
Qed.

Lemma gmail_pollLoop_cache (get : nat → string → Gmail.GetOutcome)
    (cfg : Gmail.GmailPollingConfig) (l : list Gmail.Schema_Message) :
  0 ≤ Gmail.processedCache cfg →
  ∀ (s : Gmail.Service) (history : list string),
    Gmail.config s = Some cfg →
    nonempty_ids (Gmail.processedQueue s) →
    fifo_bounded (Gmail.processedCache cfg) history
      (Gmail.processedQueue s) (Gmail.processedSet s) →
    let r := Gmail.pollLoop get l s in
    snd r ≠ Diverges
    ∧ Gmail.config (fst r) = Some cfg
    ∧ nonempty_ids (Gmail.processedQueue (fst r))
    ∧ ∃ history',
        fifo_bounded (Gmail.processedCache cfg) history'
          (Gmail.processedQueue (fst r)) (Gmail.processedSet (fst r)).
Proof.
  intros Hcap. induction l as [|entry l IH]; intros s history Hcfg Hq Hinv.
  - simpl. split_and!; try done. by exists history.
  - simpl. destruct (Gmail.candidate entry s) as [i|] eqn:Hcand;
      [|by eapply IH].
    apply gmail_candidate_Some in Hcand as (_ & Hi & Hfresh).
    pose proof (gmail_inspectMessage_ends get i s) as Hends.
    destruct (Gmail.inspectMessage get i s) as [s1 o] eqn:Hinspect.
    apply gmail_inspectMessage_fields in Hinspect as (_ & Hc1 & Hm1 & Hq1).
    assert (fifo_bounded (Gmail.processedCache cfg) history
              (Gmail.processedQueue s1) (Gmail.processedSet s1)) as Hinv1
      by by rewrite Hq1, Hm1.
    destruct o; simpl in *.
    + unfold Gmail.trackProcessed. rewrite Hc1, Hcfg, Hm1, Hq1.
      rewrite decide_False by done.
      destruct (insert_fresh _ _ _ _ i Hcap Hi Hq Hfresh Hinv)
        as (q' & m' & -> & Hq' & Hinv').
      apply (IH _ (history ++ [i])); simpl; [congruence|done..].
    + split_and!; [done|congruence|by rewrite Hq1|by exists history].
    + done.
Qed.

(** Every sequence of Gmail polls from the empty cache, with a capacity
    [N >= 0]: each tick returns, and the cache satisfies its invariant
    afterwards. *)
Lemma gmail_polls_keep_cache_bounded (get : nat → string → Gmail.GetOutcome)
    (cfg : Gmail.GmailPollingConfig) (listings : list Gmail.ListOutcome) :
  0 ≤ Gmail.processedCache cfg →
  ∀ (s : Gmail.Service) (history : list string),
    Gmail.config s = Some cfg →
    nonempty_ids (Gmail.processedQueue s) →
    fifo_bounded (Gmail.processedCache cfg) history
      (Gmail.processedQueue s) (Gmail.processedSet s) →
    let r := Gmail.runTicks get listings s in
    snd r = Returned
    ∧ ∃ history',
        fifo_bounded (Gmail.processedCache cfg) history'
          (Gmail.processedQueue (fst r)) (Gmail.processedSet (fst r)).
Proof.
  intros Hcap. induction listings as [|l listings IH];
    intros s history Hcfg Hq Hinv.
  - simpl. split; [done|]. by exists history.
  - simpl.
    assert (∃ s' history',
              Gmail.onTick get l s = (s', Returned)
              ∧ Gmail.config s' = Some cfg
              ∧ nonempty_ids (Gmail.processedQueue s')
              ∧ fifo_bounded (Gmail.processedCache cfg) history'
                  (Gmail.processedQueue s') (Gmail.processedSet s'))
      as (s' & history' & -> & Hcfg' & Hq' & Hinv').
    { unfold Gmail.onTick, Gmail.pollInbox.
      destruct (negb (Gmail.gmail s) || _); [by exists s, history|].
      destruct l as [e|ms]; [by exists (Gmail.log (Gmail.PollFailed e)
                                          (Gmail.count_list s)), history|].
      case_decide; [by exists (Gmail.log Gmail.NoMatching
                                 (Gmail.count_list s)), history|].
      destruct (gmail_pollLoop_cache get cfg (default [] ms) Hcap
                  (Gmail.count_list s) history Hcfg Hq Hinv)
        as (Hends & Hc & Hne & history' & Hinv').
      destruct (Gmail.pollLoop get (default [] ms) (Gmail.count_list s))
        as [s' o]. simpl in *.
      destruct o; [by exists s', history'| |done].
      by exists (Gmail.log (Gmail.PollFailed message) s'), history'. }
    by eapply IH.
Qed.

(** ** The scans as uninterrupted runs of the event machines

    [onExists] and [onTick] describe a scan that nothing interleaves with.
    They are what the event machines compute when the activation started by
    a trigger is resumed until it ends, with no other event in between. *)

Lemma mail_resume_single (sendMail : nat → Mail.MailOptions → option string)
    (cfg : Mail.MailWatcherConfig) (a : MailAsync.Activation)
    (s : Mail.Service) (events : list MailAsync.Event) :
  MailAsync.run sendMail cfg
    {| MailAsync.svc := s; MailAsync.inflight := [a] |}
    (MailAsync.Resume 0 :: events)
  = MailAsync.run sendMail cfg
      {| MailAsync.svc := fst (MailAsync.turn sendMail cfg a s);
         MailAsync.inflight :=
           match snd (MailAsync.turn sendMail cfg a s) with
           | Some a' => [a']
           | None => []
           end |}
      events.
Proof.
  unfold MailAsync.run. cbn [foldl MailAsync.step]. simpl.
  by destruct (MailAsync.turn sendMail cfg a s) as [s' [a'|]].
Qed.

Lemma mail_resumed_alone (sendMail : nat → Mail.MailOptions → option string)
    (cfg : Mail.MailWatcherConfig) (pending : list Mail.FetchMessageObject)
    (failure : option string) (s : Mail.Service) :
  ∃ n,
    MailAsync.run sendMail cfg
      {| MailAsync.svc := s;
         MailAsync.inflight := [MailAsync.Iterating pending failure] |}
      (replicate n (MailAsync.Resume 0))
    = MailAsync.start
        (MailAsync.settle
           (snd (Mail.scanLoop sendMail cfg pending failure s))
           (fst (Mail.scanLoop sendMail cfg pending failure s))).
Proof.
  revert s. induction pending as [|message rest IH]; intros s.
  - by exists 1%nat.
  - cbn [Mail.scanLoop].
    destruct (Mail.skips message s) eqn:Hskip.
    { destruct (IH s) as [n Hn]. exists (S n). cbn [replicate].
      rewrite mail_resume_single. cbn [MailAsync.turn]. by rewrite Hskip. }
    unfold Mail.sendNotification.
    destruct (negb (Mail.smtpTransport s)) eqn:Hsmtp.
    { exists 1%nat. cbn [replicate]. rewrite mail_resume_single.
      cbn [MailAsync.turn]. by rewrite Hskip, Hsmtp. }
    set (s1 := Mail.log _ s).
    set (m := Mail.notification cfg (Mail.envelope message)).
    assert (MailAsync.turn sendMail cfg
              (MailAsync.Iterating (message :: rest) failure) s
            = (s1, Some (MailAsync.Sending message m
                           (sendMail (Mail.sendCalls s1) m) rest failure)))
      as Hfirst by (cbn [MailAsync.turn]; by rewrite Hskip, Hsmtp).
    destruct (Mail.sent m (sendMail (Mail.sendCalls s1) m) s1)
      as [s2 o] eqn:Hsent.
    destruct o.
    + destruct (IH (Mail.set_lastProcessedUid (Mail.uid message)
                      (Mail.observe
                         {| Mail.attempt_uid := Mail.uid message;
                            Mail.attempt_ok := true |} s2)))
        as [n Hn].
      exists (S (S n)). cbn [replicate].
      rewrite mail_resume_single, Hfirst. cbn [fst snd].
      rewrite mail_resume_single. cbn [MailAsync.turn]. by rewrite Hsent.
    + exists 2%nat. cbn [replicate].
      rewrite mail_resume_single, Hfirst. cbn [fst snd].
      rewrite mail_resume_single. cbn [MailAsync.turn]. by rewrite Hsent.
    + exists 2%nat. cbn [replicate].
      rewrite mail_resume_single, Hfirst. cbn [fst snd].
      rewrite mail_resume_single. cbn [MailAsync.turn]. by rewrite Hsent.
Qed.

(** X13. [onExists], the handler run with nothing in between, is what the
    event machine computes: after the [exists] event, resuming the
    activation it started some number of times, with no other event, leaves
    no activation suspended and the service in the state of [onExists]. *)
Lemma exists_alone_is_onExists
    (sendMail : nat → Mail.MailOptions → option string)
    (cfg : Mail.MailWatcherConfig) (mb : option Mail.MailboxObject)
    (f : Mail.Fetched) (s : Mail.Service) :
  ∃ n,
    MailAsync.run sendMail cfg (MailAsync.start s)
      (MailAsync.Exists mb f :: replicate n (MailAsync.Resume 0))
    = MailAsync.start (Mail.onExists sendMail cfg mb f s).
Proof.
  unfold Mail.onExists, Mail.handleNewMessages. simpl.
  destruct (Mail.processingMailbox s) eqn:Hflag; [by exists 0%nat|].
  destruct (Mail.nothingToFetch mb _) eqn:Hnothing; [by exists 0%nat|].
  destruct (mail_resumed_alone sendMail cfg (Mail.yielded f) (Mail.failure f)
              (Mail.count_fetch (Mail.set_processingMailbox true s)))
    as [n Hn].
  exists n. rewrite Hn.
  destruct (Mail.scanLoop sendMail cfg _ _ _) as [s2 o]. by destruct o.
Qed.

Lemma gmail_resume_single (get : nat → string → Gmail.GetOutcome)
    (a : GmailAsync.Activation) (s : Gmail.Service)
    (events : list GmailAsync.Event) :
  GmailAsync.run get
    {| GmailAsync.svc := s; GmailAsync.inflight := [a];
       GmailAsync.stuck := false |}
    (GmailAsync.Resume 0 :: events)
  = GmailAsync.run get
      match GmailAsync.turn get a s with
      | GmailAsync.Suspended s' a' =>
          {| GmailAsync.svc := s'; GmailAsync.inflight := [a'];
             GmailAsync.stuck := false |}
      | GmailAsync.Settled s' => GmailAsync.start s'
      | GmailAsync.Hangs s' =>
          {| GmailAsync.svc := s'; GmailAsync.inflight := [a];
             GmailAsync.stuck := true |}
      end
      events.
Proof.
  unfold GmailAsync.run. cbn [foldl]. unfold GmailAsync.step at 2.
  cbn [GmailAsync.stuck GmailAsync.inflight GmailAsync.svc lookup].
  simpl. by destruct (GmailAsync.turn get a s).
Qed.

Lemma gmail_stuck_run (get : nat → string → Gmail.GetOutcome)
    (m : GmailAsync.Machine) (events : list GmailAsync.Event) :
  GmailAsync.stuck m = true → GmailAsync.run get m events = m.
Proof.
  intros Hstuck. induction events as [|e events IH]; [done|].
  unfold GmailAsync.run in *. cbn [foldl]. unfold GmailAsync.step at 2.
  by rewrite Hstuck.
Qed.

Lemma gmail_resumed_alone (get : nat → string → Gmail.GetOutcome)
    (rest : list Gmail.Schema_Message) (s : Gmail.Service) :
  ∃ n,
    let m' :=
      GmailAsync.run get
        {| GmailAsync.svc := s; GmailAsync.inflight := [GmailAsync.InLoop rest];
           GmailAsync.stuck := false |}
        (replicate n (GmailAsync.Resume 0)) in
    match Gmail.pollLoop get rest s with
    | (s', Returned) => m' = GmailAsync.start s'
    | (s', Threw e) => m' = GmailAsync.start (Gmail.log (Gmail.PollFailed e) s')
    | (s', Diverges) =>
        GmailAsync.svc m' = s' ∧ GmailAsync.stuck m' = true
    end.
Proof.
  revert s. induction rest as [|entry rest IH]; intros s.
  - by exists 1%nat.
  - cbn [Gmail.pollLoop].
    destruct (Gmail.candidate entry s) as [i|] eqn:Hcand.
    2:{ destruct (IH s) as [n Hn]. exists (S n). cbn [replicate].
        rewrite gmail_resume_single. cbn [GmailAsync.turn].
        by rewrite Hcand. }
    unfold Gmail.inspectMessage.
    destruct (negb (Gmail.gmail s)) eqn:Hgmail.
    { destruct (Gmail.trackProcessed i s) as [s2|] eqn:Htrack.
      - destruct (IH s2) as [n Hn]. exists (S n). cbn [replicate].
        rewrite gmail_resume_single. cbn [GmailAsync.turn].
        by rewrite Hcand, Hgmail, Htrack.
      - exists 1%nat. cbn [replicate]. rewrite gmail_resume_single.
        cbn [GmailAsync.turn]. by rewrite Hcand, Hgmail, Htrack. }
    assert (GmailAsync.turn get (GmailAsync.InLoop (entry :: rest)) s
            = GmailAsync.Suspended (Gmail.count_get s)
                (GmailAsync.AwaitGet i (get (Gmail.getCalls s) i) rest))
      as Hfirst by (cbn [GmailAsync.turn]; by rewrite Hcand, Hgmail).
    destruct (Gmail.inspected i (get (Gmail.getCalls s) i) (Gmail.count_get s))
      as [s1 o] eqn:Hinspected.
    destruct o.
    + destruct (Gmail.trackProcessed i s1) as [s2|] eqn:Htrack.
      * destruct (IH s2) as [n Hn]. exists (S (S n)). cbn [replicate].
        rewrite gmail_resume_single, Hfirst, gmail_resume_single.
        cbn [GmailAsync.turn]. by rewrite Hinspected, Htrack.
      * exists 2%nat. cbn [replicate].
        rewrite gmail_resume_single, Hfirst, gmail_resume_single.
        cbn [GmailAsync.turn]. by rewrite Hinspected, Htrack.
    + exists 2%nat. cbn [replicate].
      rewrite gmail_resume_single, Hfirst, gmail_resume_single.
      cbn [GmailAsync.turn]. by rewrite Hinspected.
    + exists 2%nat. cbn [replicate].
      rewrite gmail_resume_single, Hfirst, gmail_resume_single.
      cbn [GmailAsync.turn]. by rewrite Hinspected.
Qed.

Lemma gmail_tick_first (get : nat → string → Gmail.GetOutcome)
    (l : Gmail.ListOutcome) (s : Gmail.Service)
    (events : list GmailAsync.Event) :
  GmailAsync.run get (GmailAsync.start s) (GmailAsync.Tick l :: events)
  = GmailAsync.run get
      (if negb (Gmail.gmail s)
          || negb (bool_decide (is_Some (Gmail.config s)))
       then GmailAsync.start s
       else
         {| GmailAsync.svc := Gmail.count_list s;
            GmailAsync.inflight := [GmailAsync.AwaitList l];
            GmailAsync.stuck := false |})
      events.
Proof.
  unfold GmailAsync.run. cbn [foldl]. unfold GmailAsync.step at 2. simpl.
  by destruct (negb (Gmail.gmail s) || _).
Qed.

(** X14. [onTick], the cron callback run with nothing in between, is what
    the Gmail event machine computes: after the tick, resuming the
    activation it started some number of times, with no other event, leaves
    no activation suspended and the service in the state of [onTick]; when
    the poll hangs in the eviction loop the machine is stuck in the state
    where it hung. *)
Lemma tick_alone_is_onTick (get : nat → string → Gmail.GetOutcome)
    (l : Gmail.ListOutcome) (s : Gmail.Service) :
  ∃ n,
    let m' :=
      GmailAsync.run get (GmailAsync.start s)
        (GmailAsync.Tick l :: replicate n (GmailAsync.Resume 0)) in
    match Gmail.onTick get l s with
    | (s', Diverges) => GmailAsync.svc m' = s' ∧ GmailAsync.stuck m' = true
    | (s', _) => m' = GmailAsync.start s'
    end.
Proof.
  unfold Gmail.onTick, Gmail.pollInbox.
  destruct (negb (Gmail.gmail s) || _) eqn:Hoff.
  { exists 0%nat. cbn zeta. by rewrite gmail_tick_first, Hoff. }
  destruct l as [e|ms].
  { exists 1%nat. cbn zeta. rewrite gmail_tick_first, Hoff. cbn [replicate].
    by rewrite gmail_resume_single. }
  case_decide as Hlen.
  { exists 1%nat. cbn zeta. rewrite gmail_tick_first, Hoff. cbn [replicate].
    rewrite gmail_resume_single. cbn [GmailAsync.turn].
    by rewrite decide_True. }
  destruct (gmail_resumed_alone get (default [] ms) (Gmail.count_list s))
    as [n Hn].
  exists (S n). cbn zeta in *. rewrite gmail_tick_first, Hoff.
  cbn [replicate]. rewrite gmail_resume_single.
  cbn [GmailAsync.turn]. rewrite decide_False by done.
  destruct (Gmail.pollLoop get (default [] ms) (Gmail.count_list s))
    as [s' o]. by destruct o.
Qed.

(** ** The cursor under every interleaving

    The properties of the cursor do not depend on the scans being run one
    after the other: they hold of the event machine, whatever the order of
    the [exists] events and of the resumptions. *)

Lemma step_cursor (sendMail : nat → Mail.MailOptions → option string)
    (cfg : Mail.MailWatcherConfig) (m : MailAsync.Machine)
    (e : MailAsync.Event) :
  guarded m → sending_above m →
  let m' := MailAsync.step sendMail cfg m e in
  sending_above m'
  ∧ ∃ new,
      Mail.attempts (MailAsync.svc m')
      = Mail.attempts (MailAsync.svc m) ++ new
      ∧ above (Mail.lastProcessedUid (MailAsync.svc m)) new
      ∧ Mail.lastProcessedUid (MailAsync.svc m')
        = replay (Mail.lastProcessedUid (MailAsync.svc m)) new.
Proof.
  intros Hguard Hsending.
  assert (∀ s s',
            Mail.attempts s' = Mail.attempts s →
            Mail.lastProcessedUid s' = Mail.lastProcessedUid s →
            ∃ new : list Mail.Attempt,
              Mail.attempts s' = Mail.attempts s ++ new
              ∧ above (Mail.lastProcessedUid s) new
              ∧ Mail.lastProcessedUid s' = replay (Mail.lastProcessedUid s) new)
    as Hsame by (intros s s' ? ?; exists []; by rewrite app_nil_r).
  destruct e as [mb f|k]; cbn zeta; cbn [MailAsync.step].
  - destruct (Mail.processingMailbox (MailAsync.svc m)) eqn:Hflag;
      [split; [done|by apply Hsame]|].
    destruct Hguard as [[_ Hnil]|[Hrun _]]; [|congruence].
    destruct (Mail.nothingToFetch mb _); (split; [|by apply Hsame]).
    + intros ? ? ? ? ? Hin. simpl in Hin. by rewrite Hnil in Hin.
    + intros ? ? ? ? ? Hin. simpl in Hin. by rewrite Hnil in Hin.
  - destruct Hguard as [[_ Hnil]|[_ [a Ha]]].
    { rewrite Hnil. simpl. split; [done|by apply Hsame]. }
    rewrite Ha. destruct k as [|k];
      [|simpl; split; [done|by apply Hsame]].
    cbn [lookup list_lookup].
    destruct a as [[|message rest] failure|message mail answer rest failure];
      cbn [MailAsync.turn].
    + split; [|destruct failure; by apply Hsame]. by intros ? ? ? ? ? Hin.
    + destruct (Mail.skips message (MailAsync.svc m)) eqn:Hskip.
      { split; [|by apply Hsame]. by intros ? ? ? ? ? Hin. }
      apply skips_false_above in Hskip.
      destruct (negb (Mail.smtpTransport (MailAsync.svc m))).
      * split; [by intros ? ? ? ? ? Hin|]. simpl.
        exists [{| Mail.attempt_uid := Mail.uid message;
                   Mail.attempt_ok := false |}].
        by split_and!.
      * split; [|by apply Hsame].
        intros ? ? ? ? ? Hin. simpl in Hin. by simplify_eq.
    + specialize (Hsending _ _ _ _ _ Ha).
      unfold Mail.sent. destruct answer as [e|]; simpl.
      * split; [by intros ? ? ? ? ? Hin|].
        exists [{| Mail.attempt_uid := Mail.uid message;
                   Mail.attempt_ok := false |}].
        by split_and!.
      * split; [by intros ? ? ? ? ? Hin|].
        exists [{| Mail.attempt_uid := Mail.uid message;
                   Mail.attempt_ok := true |}].
        by split_and!.
Qed.

(** X12. The cursor under every interleaving: from a service that is not
    scanning, after any sequence of [exists] events and resumptions of the
    event machine, the cursor has not decreased, every notification
    attempted was for a uid above the cursor at the time of the attempt, the
    cursor was moved only by the attempts that succeeded, and the uids
    handed over are strictly increasing. *)
Lemma cursor_monotone_under_interleaving
    (sendMail : nat → Mail.MailOptions → option string)
    (cfg : Mail.MailWatcherConfig) (events : list MailAsync.Event)
    (s : Mail.Service) :
  Mail.processingMailbox s = false →
  let s' :=
    MailAsync.svc (MailAsync.run sendMail cfg (MailAsync.start s) events) in
  Mail.lastProcessedUid s ≤ Mail.lastProcessedUid s'
  ∧ ∃ new,
      Mail.attempts s' = Mail.attempts s ++ new
      ∧ above (Mail.lastProcessedUid s) new
      ∧ Mail.lastProcessedUid s' = replay (Mail.lastProcessedUid s) new
      ∧ StronglySorted Z.lt (dispatched new).
Proof.
  intros Hidle. cbn zeta.
  assert (∀ m, guarded m → sending_above m →
            ∃ new,
              Mail.attempts (MailAsync.svc (MailAsync.run sendMail cfg m events))
              = Mail.attempts (MailAsync.svc m) ++ new
              ∧ above (Mail.lastProcessedUid (MailAsync.svc m)) new
              ∧ Mail.lastProcessedUid
                  (MailAsync.svc (MailAsync.run sendMail cfg m events))
                = replay (Mail.lastProcessedUid (MailAsync.svc m)) new)
    as Hrun.
  { induction events as [|e events IH]; intros m Hguard Hsending.
    - exists []. simpl. by rewrite app_nil_r.
    - destruct (step_cursor sendMail cfg m e Hguard Hsending)
        as (Hsending' & n1 & Hn1 & Ha1 & Hl1).
      destruct (IH (MailAsync.step sendMail cfg m e))
        as (n2 & Hn2 & Ha2 & Hl2); [by apply step_guarded|done|].
      exists (n1 ++ n2). unfold MailAsync.run in *. cbn [foldl].
      rewrite Hn2, Hn1, Hl2, Hl1, replay_app, above_app, <-app_assoc.
      rewrite Hl1 in Ha2. done. }
  destruct (Hrun (MailAsync.start s)) as (new & Hnew & Habove & Hlast).
  { by left. }
  { by intros ? ? ? ? ? Hin. }
  simpl in *. split; [rewrite Hlast; by apply above_replay_le|].
  exists new. destruct (above_dispatched _ _ Habove). by split_and!.
Qed.

(** * Further properties of the sources *)

(** ** The dedup cache and the announcements *)

Lemma gmail_pollLoop_announces (get : nat → string → Gmail.GetOutcome)
    (cfg : Gmail.GmailPollingConfig) (l : list Gmail.Schema_Message) :
  0 ≤ Gmail.processedCache cfg →
  ∀ s : Gmail.Service,
    Gmail.gmail s = true →
    Gmail.config s = Some cfg →
    nonempty_ids (Gmail.processedQueue s) →
    fifo_bounded (Gmail.processedCache cfg) (Gmail.notifications s)
      (Gmail.processedQueue s) (Gmail.processedSet s) →
    let r := Gmail.pollLoop get l s in
    snd r ≠ Diverges
    ∧ Gmail.gmail (fst r) = true
    ∧ Gmail.config (fst r) = Some cfg
    ∧ nonempty_ids (Gmail.processedQueue (fst r))
    ∧ fifo_bounded (Gmail.processedCache cfg) (Gmail.notifications (fst r))
        (Gmail.processedQueue (fst r)) (Gmail.processedSet (fst r)).
Proof.
  intros Hcap. induction l as [|entry l IH]; intros s Hgmail Hcfg Hq Hinv.
  - simpl. by split_and!.
  - simpl. destruct (Gmail.candidate entry s) as [i|] eqn:Hcand;
      [|by apply IH].
    apply gmail_candidate_Some in Hcand as (_ & Hi & Hfresh).
    unfold Gmail.inspectMessage. rewrite Hgmail. cbn [negb].
    destruct (get (Gmail.getCalls s) i) as [e|hs]; [by split_and!|].
    destruct (gmail_inspected_Got i hs (Gmail.count_get s))
      as (s1 & -> & Hn & Hg1 & Hc1 & Hq1 & Hm1).
    change (Gmail.notifications (Gmail.count_get s))
      with (Gmail.notifications s) in Hn.
    cbn [Gmail.gmail Gmail.config Gmail.processedQueue Gmail.processedSet
         Gmail.count_get] in Hg1, Hc1, Hq1, Hm1.
    unfold Gmail.trackProcessed. rewrite Hc1, Hm1, Hq1, Hcfg.
    rewrite decide_False by done.
    destruct (insert_fresh _ _ _ _ i Hcap Hi Hq Hfresh Hinv)
      as (q' & m' & -> & Hq' & Hinv').
    apply IH.
    + cbn. congruence.
    + cbn. congruence.
    + exact Hq'.
    + change (Gmail.notifications (Gmail.set_cache q' m' s1))
        with (Gmail.notifications s1).
      rewrite Hn. exact Hinv'.
Qed.

(** X1. Over any sequence of Gmail polls run one after the other, from an
    empty cache and with a capacity [N >= 0], whatever the listings hold and
    however the requests end: every tick returns; the cache keeps its
    invariant, and the queue is exactly the last [N] identifiers announced,
    in the order of their announcement. Hence, as long as no more than [N]
    announcements have been made, no identifier has been announced twice. *)
Theorem cache_holds_last_announced
    (get : nat → string → Gmail.GetOutcome) (cfg : Gmail.GmailPollingConfig)
    (listings : list Gmail.ListOutcome) (s : Gmail.Service) :
  Gmail.gmail s = true →
  Gmail.config s = Some cfg →
  0 ≤ Gmail.processedCache cfg →
  Gmail.notifications s = [] →
  Gmail.processedQueue s = [] →
  Gmail.processedSet s = ∅ →
  let r := Gmail.runTicks get listings s in
  snd r = Returned
  ∧ fifo_bounded (Gmail.processedCache cfg) (Gmail.notifications (fst r))
      (Gmail.processedQueue (fst r)) (Gmail.processedSet (fst r))
  ∧ (Z.of_nat (length (Gmail.notifications (fst r))) ≤ Gmail.processedCache cfg →
     NoDup (Gmail.notifications (fst r))).
Proof.
  intros Hgmail Hcfg Hcap Hn Hq Hm.
  assert (∀ s : Gmail.Service,
            Gmail.gmail s = true → Gmail.config s = Some cfg →
            nonempty_ids (Gmail.processedQueue s) →
            fifo_bounded (Gmail.processedCache cfg) (Gmail.notifications s)
              (Gmail.processedQueue s) (Gmail.processedSet s) →
            snd (Gmail.runTicks get listings s) = Returned
            ∧ fifo_bounded (Gmail.processedCache cfg)
                (Gmail.notifications (fst (Gmail.runTicks get listings s)))
                (Gmail.processedQueue (fst (Gmail.runTicks get listings s)))
                (Gmail.processedSet (fst (Gmail.runTicks get listings s))))
    as Hrun.
  { clear - Hcap. induction listings as [|l listings IH];
      intros s Hgmail Hcfg Hq Hinv; [done|].
    simpl.
    assert (∃ s',
              Gmail.onTick get l s = (s', Returned)
              ∧ Gmail.gmail s' = true
              ∧ Gmail.config s' = Some cfg
              ∧ nonempty_ids (Gmail.processedQueue s')
              ∧ fifo_bounded (Gmail.processedCache cfg)
                  (Gmail.notifications s')
                  (Gmail.processedQueue s') (Gmail.processedSet s'))
      as (s' & -> & ? & ? & ? & ?); [|by apply IH].
    unfold Gmail.onTick, Gmail.pollInbox.
    destruct (negb (Gmail.gmail s) || _); [by exists s|].
    destruct l as [e|ms].
    { exists (Gmail.log (Gmail.PollFailed e) (Gmail.count_list s)).
      split_and!; try done.
      by rewrite gmail_notifications_log, app_nil_r. }
    case_decide.
    { exists (Gmail.log Gmail.NoMatching (Gmail.count_list s)).
      split_and!; try done.
      by rewrite gmail_notifications_log, app_nil_r. }
    destruct (gmail_pollLoop_announces get cfg (default [] ms) Hcap
                (Gmail.count_list s) Hgmail Hcfg Hq Hinv)
      as (Hends & Hg & Hc & Hne & Hinv').
    destruct (Gmail.pollLoop get (default [] ms) (Gmail.count_list s))
      as [s' o]. simpl in *.
    destruct o; [by exists s'| |done].
    exists (Gmail.log (Gmail.PollFailed message) s').
    split_and!; try done.
    by rewrite gmail_notifications_log, app_nil_r. }
  destruct (Hrun s) as [Hret Hinv]; try done.
  { rewrite Hq. constructor. }
  { rewrite Hn, Hq, Hm. by apply fifo_bounded_empty. }
  cbn zeta. split_and!; [done..|].
  intros Hfew. destruct Hinv as (_ & _ & Hnd & _ & Hdrop).
  replace (length _ - Z.to_nat _)%nat with 0%nat in Hdrop by lia.
  rewrite drop_0 in Hdrop. by rewrite <-Hdrop.
Qed.

Lemma cache_holds_last_announced_witness :
  let r :=
    Gmail.runTicks Scenario.firstGetFails
      [Scenario.listing ["A"; "B"]; Scenario.listing ["B"; "C"]]
      (Scenario.gmailReady 2) in
  snd r = Returned
  ∧ fifo_bounded 2 (Gmail.notifications (fst r))
      (Gmail.processedQueue (fst r)) (Gmail.processedSet (fst r))
  ∧ (Z.of_nat (length (Gmail.notifications (fst r))) ≤ 2 →
     NoDup (Gmail.notifications (fst r))).
Proof.
  apply (cache_holds_last_announced Scenario.firstGetFails
           (Scenario.gmailConfig 2)
           [Scenario.listing ["A"; "B"]; Scenario.listing ["B"; "C"]]
           (Scenario.gmailReady 2)).
  - reflexivity.
  - reflexivity.
  - simpl. lia.
  - reflexivity.
  - reflexivity.
  - reflexivity.
Defined.

Lemma gmail_trackProcessed_negative (cfg : Gmail.GmailPollingConfig)
    (i : string) (s : Gmail.Service) :
  Gmail.processedCache cfg < 0 →
  Gmail.config s = Some cfg →
  i ∉ Gmail.processedSet s →
  Gmail.trackProcessed i s = None.
Proof.
  intros Hcap Hcfg Hfresh. unfold Gmail.trackProcessed.
  rewrite Hcfg, decide_False by done.
  by rewrite evict_negative_diverges.
Qed.

(** X2. With a negative capacity the eviction loop of [trackProcessed]
    never ends, for either poll service, whatever the cache holds. A Gmail
    poll therefore hangs at the first listed item that it announces. *)
Theorem negative_capacity_hangs_the_poll
    (get : nat → string → Gmail.GetOutcome) (s : Gmail.Service)
    (cfg : Gmail.GmailPollingConfig) (entry : Gmail.Schema_Message)
    (rest : list Gmail.Schema_Message) (i : string)
    (hs : option (list Gmail.Schema_MessagePartHeader))
    (o : Outlook.Service) (ocfg : Outlook.OutlookPollingConfig) (j : string) :
  Gmail.processedCache cfg < 0 →
  Gmail.gmail s = true →
  Gmail.config s = Some cfg →
  Gmail.candidate entry s = Some i →
  get (Gmail.getCalls s) i = Gmail.Got hs →
  Outlook.processedCache ocfg < 0 →
  Outlook.config o = Some ocfg →
  j ∉ Outlook.processedSet o →
  (∀ fuel q m, Gmail.evict fuel (Gmail.processedCache cfg) q m = None)
  ∧ snd (Gmail.pollInbox get (Gmail.Listed (Some (entry :: rest))) s)
    = Diverges
  ∧ Gmail.notifications
      (fst (Gmail.pollInbox get (Gmail.Listed (Some (entry :: rest))) s))
    = Gmail.notifications s ++ [i]
  ∧ (∀ fuel q m, Outlook.evict fuel (Outlook.processedCache ocfg) q m = None)
  ∧ Outlook.trackProcessed j o = None.
Proof.
  intros Hcap Hgmail Hcfg Hcand Hget Hocap Hocfg Hj.
  assert (∀ fuel q m, Gmail.evict fuel (Gmail.processedCache cfg) q m = None)
    as Hg by (intros; by apply evict_negative_diverges).
  assert (∀ fuel q m,
            Outlook.evict fuel (Outlook.processedCache ocfg) q m = None)
    as Ho by (intros; rewrite outlook_evict_eq; by apply evict_negative_diverges).
  assert (Gmail.pollInbox get (Gmail.Listed (Some (entry :: rest))) s
          = (Gmail.log (Gmail.Detected i
                          (orElse (Gmail.asHeaderMap hs !! "from")
                             "unknown sender")
                          (orElse (Gmail.asHeaderMap hs !! "subject")
                             "(no subject)"))
               (Gmail.count_get (Gmail.count_list s)), Diverges)) as ->.
  { unfold Gmail.pollInbox. rewrite Hgmail.
    rewrite bool_decide_eq_true_2 by (rewrite Hcfg; eauto).
    cbn [negb orb]. simpl (default _ _). rewrite decide_False by done.
    cbn [Gmail.pollLoop].
    change (Gmail.candidate entry (Gmail.count_list s))
      with (Gmail.candidate entry s).
    rewrite Hcand. unfold Gmail.inspectMessage.
    change (Gmail.gmail (Gmail.count_list s)) with (Gmail.gmail s).
    change (Gmail.getCalls (Gmail.count_list s)) with (Gmail.getCalls s).
    rewrite Hgmail, Hget. cbn [negb Gmail.inspected].
    apply gmail_candidate_Some in Hcand as (_ & _ & Hfresh).
    by rewrite (gmail_trackProcessed_negative cfg). }
  split_and!; try done.
  - cbn [fst]. by rewrite gmail_notifications_log.
  - unfold Outlook.trackProcessed. rewrite Hocfg, decide_False by done.
    by rewrite Ho.
Qed.

Lemma negative_capacity_hangs_the_poll_witness :
  (∀ fuel q m, Gmail.evict fuel (-1) q m = None)
  ∧ snd (Gmail.pollInbox Scenario.getsSucceed
           (Gmail.Listed (Some (Scenario.entry "A" :: [Scenario.entry "B"])))
           (Scenario.gmailReady (-1)))
    = Diverges
  ∧ Gmail.notifications
      (fst (Gmail.pollInbox Scenario.getsSucceed
              (Gmail.Listed (Some (Scenario.entry "A" :: [Scenario.entry "B"])))
              (Scenario.gmailReady (-1))))
    = Gmail.notifications (Scenario.gmailReady (-1)) ++ ["A"]
  ∧ (∀ fuel q m, Outlook.evict fuel (-1) q m = None)
  ∧ Outlook.trackProcessed "A" (Scenario.outlookReady (-1)) = None.
Proof.
  apply (negative_capacity_hangs_the_poll Scenario.getsSucceed
           (Scenario.gmailReady (-1)) (Scenario.gmailConfig (-1))
           (Scenario.entry "A") [Scenario.entry "B"] "A" None
           (Scenario.outlookReady (-1)) (Scenario.outlookConfig (-1)) "A").
  - simpl. lia.
  - reflexivity.
  - reflexivity.
  - vm_compute. reflexivity.
  - reflexivity.
  - simpl. lia.
  - reflexivity.
  - apply (bool_decide_eq_false_1 _). vm_compute. reflexivity.
Defined.

Lemma fifo_bounded_zero (history q : list string) (m : gset string) :
  fifo_bounded 0 history q m → q = [] ∧ m = ∅.
Proof.
  intros (Hlen & _ & _ & Hmirror & _).
  assert (q = []) as -> by (destruct q; [done|simpl in Hlen; lia]).
  split; [done|]. apply set_eq. intros x. rewrite Hmirror. set_solver.
Qed.

(** X3. Insertion and lookup of the cache, from a cache that satisfies its
    invariant: [trackProcessed] of a non-empty identifier returns; with a
    capacity of at least 1 the identifier is in the set afterwards, and is
    the newest entry of the queue if it was not there before; with capacity
    0 the cache is empty afterwards, so nothing is ever remembered. *)
Theorem tracked_id_is_cached_unless_capacity_zero
    (s : Gmail.Service) (cfg : Gmail.GmailPollingConfig)
    (history : list string) (i : string) :
  Gmail.config s = Some cfg →
  0 ≤ Gmail.processedCache cfg →
  i ≠ EmptyString →
  nonempty_ids (Gmail.processedQueue s) →
  fifo_bounded (Gmail.processedCache cfg) history
    (Gmail.processedQueue s) (Gmail.processedSet s) →
  ∃ s',
    Gmail.trackProcessed i s = Some s'
    ∧ (1 ≤ Gmail.processedCache cfg →
       i ∈ Gmail.processedSet s'
       ∧ (i ∉ Gmail.processedSet s → last (Gmail.processedQueue s') = Some i))
    ∧ (Gmail.processedCache cfg = 0 →
       Gmail.processedQueue s' = [] ∧ Gmail.processedSet s' = ∅).
Proof.
  intros Hcfg Hcap Hi Hq Hinv. unfold Gmail.trackProcessed. rewrite Hcfg.
  case_decide as Hin.
  - exists s. split_and!; [done|by split|].
    intros Hzero. rewrite Hzero in Hinv. by apply fifo_bounded_zero in Hinv.
  - destruct (insert_fresh _ _ _ _ i Hcap Hi Hq Hin Hinv)
      as (q' & m' & -> & Hq' & Hinv').
    exists (Gmail.set_cache q' m' s). split_and!; [done| |].
    + intros Hone. destruct Hinv' as (_ & _ & _ & Hmirror & Hdrop).
      rewrite length_app in Hdrop. simpl in Hdrop.
      rewrite drop_app_le in Hdrop by lia.
      assert (last q' = Some i) as Hlast by (rewrite Hdrop; apply last_snoc).
      split; [|done]. simpl. apply Hmirror. rewrite Hdrop.
      apply elem_of_app. right. by apply list_elem_of_singleton.
    + intros Hzero. rewrite Hzero in Hinv'.
      by apply fifo_bounded_zero in Hinv'.
Qed.

Lemma tracked_id_is_cached_unless_capacity_zero_witness :
  ∃ s',
    Gmail.trackProcessed "A" (Scenario.gmailReady 1) = Some s'
    ∧ (1 ≤ 1 →
       "A" ∈ Gmail.processedSet s'
       ∧ ("A" ∉ Gmail.processedSet (Scenario.gmailReady 1) →
          last (Gmail.processedQueue s') = Some "A"))
    ∧ (1 = 0 → Gmail.processedQueue s' = [] ∧ Gmail.processedSet s' = ∅).
Proof.
  apply (tracked_id_is_cached_unless_capacity_zero (Scenario.gmailReady 1)
           (Scenario.gmailConfig 1) [] "A").
  - reflexivity.
  - simpl. lia.
  - discriminate.
  - constructor.
  - apply fifo_bounded_empty. simpl. lia.
Defined.

Lemma gmail_pollLoop_all_cached (get : nat → string → Gmail.GetOutcome)
    (l : list Gmail.Schema_Message) (s : Gmail.Service) :
  Forall (λ e, ∀ i, Gmail.id e = Some i →
                    i = EmptyString ∨ i ∈ Gmail.processedSet s) l →
  Gmail.pollLoop get l s = (s, Returned).
Proof.
  intros Hl. induction Hl as [|entry l Hentry Hl IH]; [done|]. simpl.
  assert (Gmail.candidate entry s = None) as ->; [|done].
  unfold Gmail.candidate. destruct (Gmail.id entry) as [i|]; [|done].
  destruct (Hentry i eq_refl) as [->|Hin]; [done|].
  by rewrite (bool_decide_eq_true_2 _ Hin), orb_true_r.
Qed.

Lemma outlook_pollLoop_all_cached (l : list Outlook.GraphMessage)
    (o : Outlook.Service) :
  Forall (λ m, ∀ i, Outlook.id m = Some i →
                    i = EmptyString ∨ i ∈ Outlook.processedSet o) l →
  Outlook.pollLoop l o = (o, Returned).
Proof.
  intros Hl. induction Hl as [|message l Hmessage Hl IH]; [done|]. simpl.
  assert (Outlook.candidate message o = None) as ->; [|done].
  unfold Outlook.candidate. destruct (Outlook.id message) as [i|]; [|done].
  destruct (Hmessage i eq_refl) as [->|Hin]; [done|].
  by rewrite (bool_decide_eq_true_2 _ Hin), orb_true_r.
Qed.

(** X4. Dedup within the cache: a loop of either poll service over entries
    whose identifiers are all in the set leaves the service exactly as it
    was: no request, no announcement, no change of the cache. *)
Theorem cached_items_are_skipped
    (get : nat → string → Gmail.GetOutcome)
    (l : list Gmail.Schema_Message) (s : Gmail.Service)
    (ol : list Outlook.GraphMessage) (o : Outlook.Service) :
  Forall (λ e, ∀ i, Gmail.id e = Some i → i ∈ Gmail.processedSet s) l →
  Forall (λ m, ∀ i, Outlook.id m = Some i → i ∈ Outlook.processedSet o) ol →
  Gmail.pollLoop get l s = (s, Returned)
  ∧ Outlook.pollLoop ol o = (o, Returned).
Proof.
  intros Hl Hol. split.
  - apply gmail_pollLoop_all_cached.
    eapply Forall_impl; [exact Hl|]. intros e He i Hi. right. by apply He.
  - apply outlook_pollLoop_all_cached.
    eapply Forall_impl; [exact Hol|]. intros m Hm i Hi. right. by apply Hm.
Qed.

Lemma cached_items_are_skipped_witness :
  Gmail.pollLoop Scenario.getsSucceed
    [Scenario.entry "B"; Scenario.entry "A"] Scenario.gmailAfterAB
  = (Scenario.gmailAfterAB, Returned)
  ∧ Outlook.pollLoop
      [Scenario.graphMessage "B"; Scenario.graphMessage "A"]
      Scenario.outlookAfterAB
    = (Scenario.outlookAfterAB, Returned).
Proof.
  apply (cached_items_are_skipped Scenario.getsSucceed
           [Scenario.entry "B"; Scenario.entry "A"] Scenario.gmailAfterAB
           [Scenario.graphMessage "B"; Scenario.graphMessage "A"]
           Scenario.outlookAfterAB).
  - repeat constructor; intros i [= <-];
      apply (bool_decide_eq_true_1 _); vm_compute; reflexivity.
  - repeat constructor; intros i [= <-];
      apply (bool_decide_eq_true_1 _); vm_compute; reflexivity.
Defined.




(** ** The token cache across calls, and the Outlook poll *)

Lemma getAccessToken_fields (w : Outlook.TokenWorld) (s s' : Outlook.Service)
    (r : Try string) :
  Outlook.getAccessToken w s = (s', r) →
  Outlook.config s' = Outlook.config s
  ∧ Outlook.processedQueue s' = Outlook.processedQueue s
  ∧ Outlook.processedSet s' = Outlook.processedSet s
  ∧ Outlook.logged s' = Outlook.logged s
  ∧ Outlook.listCalls s' = Outlook.listCalls s.
Proof.
  unfold Outlook.getAccessToken, Outlook.exchangeToken.
  destruct (Outlook.cachedToken _ _); [by intros; simplify_eq|].
  destruct (Outlook.answer w) as [e|ok status text body];
    [by intros; simplify_eq|].
  destruct ok; simpl; [|by intros; simplify_eq].
  destruct body as [b|]; [|by intros; simplify_eq].
  destruct (Js.truthy (Outlook.access_token b)); by intros; simplify_eq.
Qed.



(** X7. An Outlook poll that fails has touched neither the cache nor the
    announcements: it failed while obtaining the token, before any listing
    request, or at the listing request itself. The loop over the listed
    messages cannot fail. *)
Theorem failed_outlook_poll_mutates_no_cache
    (w : Outlook.PollWorld) (s s' : Outlook.Service) (e : string) :
  Outlook.pollInbox w s = (s', Threw e) →
  Outlook.processedQueue s' = Outlook.processedQueue s
  ∧ Outlook.processedSet s' = Outlook.processedSet s
  ∧ Outlook.logged s' = Outlook.logged s
  ∧ (snd (Outlook.getAccessToken (Outlook.token w) s) = Raise e
     ∧ Outlook.listCalls s' = Outlook.listCalls s
     ∨ (∃ t, snd (Outlook.getAccessToken (Outlook.token w) s) = Value t)
       ∧ Outlook.listCalls s' = S (Outlook.listCalls s)).
Proof.
  unfold Outlook.pollInbox, Outlook.listUnreadMessages.
  destruct (Outlook.config s) as [cfg|]; [|done].
  destruct (Outlook.getAccessToken (Outlook.token w) s) as [s1 r] eqn:Htoken.
  apply getAccessToken_fields in Htoken as (_ & Hq & Hm & Hl & Hn).
  destruct r as [t|e1].
  - assert (∀ s2 messages,
              (if decide (length messages = 0%nat)
               then (Outlook.log Outlook.NoMatching s2, Returned)
               else Outlook.pollLoop messages s2) ≠ (s', Threw e)) as Hloop.
    { intros s2 messages. case_decide; [done|].
      intros Heq. apply (outlook_pollLoop_never_throws messages s2 e).
      by rewrite Heq. }
    destruct (Outlook.listing w) as [e2|ok status text body].
    + intros Heq. simplify_eq. simpl. split_and!; try done.
      right. split; [by exists t|]. by rewrite Hn.
    + destruct ok; simpl.
      * destruct body as [value|].
        -- intros Heq. by apply Hloop in Heq.
        -- intros Heq. simplify_eq. simpl. split_and!; try done.
           right. split; [by exists t|]. by rewrite Hn.
      * intros Heq. simplify_eq. simpl. split_and!; try done.
        right. split; [by exists t|]. by rewrite Hn.
  - intros Heq. simplify_eq. split_and!; try done. by left.
Qed.

Lemma failed_outlook_poll_mutates_no_cache_witness :
  let w :=
    {| Outlook.token := Scenario.at_ (Scenario.T0 + 3590000) Scenario.refuse;
       Outlook.listing := Outlook.ListRejected "unused" |} in
  let s' := fst (Outlook.pollInbox w Scenario.afterFirstGrant) in
  Outlook.processedQueue s' = Outlook.processedQueue Scenario.afterFirstGrant
  ∧ Outlook.processedSet s' = Outlook.processedSet Scenario.afterFirstGrant
  ∧ Outlook.logged s' = Outlook.logged Scenario.afterFirstGrant
  ∧ (snd (Outlook.getAccessToken (Outlook.token w) Scenario.afterFirstGrant)
     = Raise "Graph token request failed (401): {...}"
     ∧ Outlook.listCalls s' = Outlook.listCalls Scenario.afterFirstGrant
     ∨ (∃ t, snd (Outlook.getAccessToken (Outlook.token w)
                    Scenario.afterFirstGrant) = Value t)
       ∧ Outlook.listCalls s' = S (Outlook.listCalls Scenario.afterFirstGrant)).
Proof.
  apply (failed_outlook_poll_mutates_no_cache
           {| Outlook.token :=
                Scenario.at_ (Scenario.T0 + 3590000) Scenario.refuse;
              Outlook.listing := Outlook.ListRejected "unused" |}
           Scenario.afterFirstGrant).
  vm_compute. reflexivity.
Defined.

Lemma outlook_candidate_Some (message : Outlook.GraphMessage)
    (s : Outlook.Service) (i : string) :
  Outlook.candidate message s = Some i →
  Outlook.id message = Some i ∧ i ≠ EmptyString ∧ i ∉ Outlook.processedSet s.
Proof.
  unfold Outlook.candidate. destruct (Outlook.id message) as [j|]; [|done].
  destruct (negb (Js.truthy (Some j))) eqn:Ht; [done|]. simpl.
  case_bool_decide; [done|]. intros ?; simplify_eq.
  apply negb_false_iff in Ht. unfold Js.truthy in Ht.
  by apply bool_decide_eq_true in Ht.
Qed.

Lemma announcedIds_log (l : Outlook.LogLine) (s : Outlook.Service) :
  announcedIds (Outlook.log l s)
  = announcedIds s
      ++ match l with Outlook.Detected (Some i) _ _ => [i] | _ => [] end.
Proof.
  unfold announcedIds, Outlook.notifications. simpl. rewrite !omap_app.
  destruct l as [| | | | |[i|] ? ?]; simpl; by rewrite ?app_nil_r.
Qed.

Lemma outlook_pollLoop_announces (cfg : Outlook.OutlookPollingConfig)
    (l : list Outlook.GraphMessage) :
  0 ≤ Outlook.processedCache cfg →
  ∀ s : Outlook.Service,
    Outlook.config s = Some cfg →
    nonempty_ids (Outlook.processedQueue s) →
    fifo_bounded (Outlook.processedCache cfg) (announcedIds s)
      (Outlook.processedQueue s) (Outlook.processedSet s) →
    let r := Outlook.pollLoop l s in
    snd r = Returned
    ∧ Outlook.config (fst r) = Some cfg
    ∧ nonempty_ids (Outlook.processedQueue (fst r))
    ∧ fifo_bounded (Outlook.processedCache cfg) (announcedIds (fst r))
        (Outlook.processedQueue (fst r)) (Outlook.processedSet (fst r)).
Proof.
  intros Hcap. induction l as [|message l IH]; intros s Hcfg Hq Hinv.
  - simpl. by split_and!.
  - cbn zeta. cbn [Outlook.pollLoop].
    destruct (Outlook.candidate message s) as [i|] eqn:Hcand; [|by apply IH].
    apply outlook_candidate_Some in Hcand as (Hid & Hi & Hfresh).
    set (s1 := Outlook.logMessage message s).
    assert (announcedIds s1 = announcedIds s ++ [i]) as Hn.
    { unfold s1, Outlook.logMessage. rewrite announcedIds_log.
      by rewrite Hid. }
    unfold Outlook.trackProcessed.
    change (Outlook.config s1) with (Outlook.config s).
    change (Outlook.processedSet s1) with (Outlook.processedSet s).
    change (Outlook.processedQueue s1) with (Outlook.processedQueue s).
    rewrite Hcfg, decide_False, outlook_evict_eq by done.
    destruct (insert_fresh _ _ _ _ i Hcap Hi Hq Hfresh Hinv)
      as (q' & m' & -> & Hq' & Hinv').
    apply IH.
    + exact Hcfg.
    + exact Hq'.
    + change (announcedIds (Outlook.set_cache q' m' s1))
        with (announcedIds s1).
      rewrite Hn. exact Hinv'.
Qed.

(** X8. Over any sequence of Outlook polls run one after the other, from an
    empty cache and with a capacity [N >= 0], whatever the token endpoint
    and the listing endpoint answer: every tick returns, the cache keeps its
    invariant, and the queue is exactly the last [N] identifiers announced,
    in the order of their announcement. *)
Theorem outlook_cache_holds_last_announced
    (cfg : Outlook.OutlookPollingConfig) (worlds : list Outlook.PollWorld)
    (s : Outlook.Service) :
  Outlook.config s = Some cfg →
  0 ≤ Outlook.processedCache cfg →
  announcedIds s = [] →
  Outlook.processedQueue s = [] →
  Outlook.processedSet s = ∅ →
  let r := outlookTicks worlds s in
  snd r = Returned
  ∧ fifo_bounded (Outlook.processedCache cfg) (announcedIds (fst r))
      (Outlook.processedQueue (fst r)) (Outlook.processedSet (fst r))
  ∧ (Z.of_nat (length (announcedIds (fst r))) ≤ Outlook.processedCache cfg →
     NoDup (announcedIds (fst r))).
Proof.
  intros Hcfg Hcap Hn Hq Hm.
  assert (∀ s : Outlook.Service,
            Outlook.config s = Some cfg →
            nonempty_ids (Outlook.processedQueue s) →
            fifo_bounded (Outlook.processedCache cfg) (announcedIds s)
              (Outlook.processedQueue s) (Outlook.processedSet s) →
            snd (outlookTicks worlds s) = Returned
            ∧ fifo_bounded (Outlook.processedCache cfg)
                (announcedIds (fst (outlookTicks worlds s)))
                (Outlook.processedQueue (fst (outlookTicks worlds s)))
                (Outlook.processedSet (fst (outlookTicks worlds s))))
    as Hrun.
  { clear - Hcap. induction worlds as [|w worlds IH];
      intros s Hcfg Hq Hinv; [done|].
    simpl.
    assert (∃ s',
              Outlook.onTick w s = (s', Returned)
              ∧ Outlook.config s' = Some cfg
              ∧ nonempty_ids (Outlook.processedQueue s')
              ∧ fifo_bounded (Outlook.processedCache cfg) (announcedIds s')
                  (Outlook.processedQueue s') (Outlook.processedSet s'))
      as (s' & -> & ? & ? & ?); [|by apply IH].
    unfold Outlook.onTick, Outlook.pollInbox, Outlook.listUnreadMessages.
    rewrite Hcfg.
    destruct (Outlook.getAccessToken (Outlook.token w) s) as [s1 r]
      eqn:Htoken.
    apply getAccessToken_fields in Htoken as (Hc1 & Hq1 & Hm1 & Hl1 & _).
    assert (announcedIds s1 = announcedIds s) as Hn1
      by (unfold announcedIds, Outlook.notifications; by rewrite Hl1).
    assert (∀ line s2,
              match line with Outlook.Detected _ _ _ => False | _ => True end →
              Outlook.config s2 = Outlook.config s1 →
              Outlook.processedQueue s2 = Outlook.processedQueue s1 →
              Outlook.processedSet s2 = Outlook.processedSet s1 →
              announcedIds s2 = announcedIds s1 →
              ∃ s', (Outlook.log line s2, Returned) = (s', Returned)
                    ∧ Outlook.config s' = Some cfg
                    ∧ nonempty_ids (Outlook.processedQueue s')
                    ∧ fifo_bounded (Outlook.processedCache cfg)
                        (announcedIds s') (Outlook.processedQueue s')
                        (Outlook.processedSet s')) as Hlog.
    { intros line s2 Hline Hc2 Hq2 Hm2 Hn2. eexists. split; [done|].
      rewrite announcedIds_log. simpl.
      rewrite Hc2, Hq2, Hm2, Hn2, Hc1, Hq1, Hm1, Hn1.
      destruct line; try done; by rewrite app_nil_r. }
    destruct r as [t|e]; [|by apply Hlog].
    destruct (Outlook.listing w) as [e|ok status text body];
      [by apply Hlog|].
    destruct ok; simpl; [|by apply Hlog].
    destruct body as [value|]; [|by apply Hlog].
    case_decide; [by apply Hlog|].
    destruct (outlook_pollLoop_announces cfg (default [] value) Hcap
                (Outlook.count_list s1)) as (Hr & Hc & Hne & Hinv').
    { simpl. congruence. }
    { simpl. by rewrite Hq1. }
    { change (fifo_bounded (Outlook.processedCache cfg) (announcedIds s1)
                (Outlook.processedQueue s1) (Outlook.processedSet s1)).
      by rewrite Hn1, Hq1, Hm1. }
    destruct (Outlook.pollLoop (default [] value) (Outlook.count_list s1))
      as [s' o]. simpl in *. subst o. by exists s'. }
  destruct (Hrun s) as [Hret Hinv]; try done.
  { rewrite Hq. constructor. }
  { rewrite Hn, Hq, Hm. by apply fifo_bounded_empty. }
  cbn zeta. split_and!; [done..|].
  intros Hfew. destruct Hinv as (_ & _ & Hnd & _ & Hdrop).
  replace (length _ - Z.to_nat _)%nat with 0%nat in Hdrop by lia.
  rewrite drop_0 in Hdrop. by rewrite <-Hdrop.
Qed.

Lemma outlook_cache_holds_last_announced_witness :
  let r :=
    outlookTicks
      [Scenario.graphPoll Scenario.T0 ["A"; "B"];
       Scenario.graphPoll (Scenario.T0 + 300000) ["C"; "B"]]
      (Scenario.outlookReady 2) in
  snd r = Returned
  ∧ fifo_bounded 2 (announcedIds (fst r))
      (Outlook.processedQueue (fst r)) (Outlook.processedSet (fst r))
  ∧ (Z.of_nat (length (announcedIds (fst r))) ≤ 2 →
     NoDup (announcedIds (fst r))).
Proof.
  apply (outlook_cache_holds_last_announced (Scenario.outlookConfig 2)
           [Scenario.graphPoll Scenario.T0 ["A"; "B"];
            Scenario.graphPoll (Scenario.T0 + 300000) ["C"; "B"]]
           (Scenario.outlookReady 2)).
  - reflexivity.
  - simpl. lia.
  - reflexivity.
  - reflexivity.
  - reflexivity.
Defined.

(** ** The scans of the push source *)

Lemma scanLoop_mails (sendMail : nat → Mail.MailOptions → option string)
    (cfg : Mail.MailWatcherConfig) (msgs : list Mail.FetchMessageObject)
    (failure : option string) (s : Mail.Service) :
  let r := Mail.scanLoop sendMail cfg msgs failure s in
  Mail.fetchCalls (fst r) = Mail.fetchCalls s
  ∧ ∃ new accepted,
      Mail.attempts (fst r) = Mail.attempts s ++ new
      ∧ Mail.outbox (fst r) = Mail.outbox s ++ accepted
      ∧ length accepted = length (dispatched new)
      ∧ Forall (λ m, Mail.mail_to m = Mail.notifyRecipient cfg
                     ∧ Mail.mail_from m = Mail.notifyFrom cfg) accepted
      ∧ (Mail.sendCalls (fst r) ≤ Mail.sendCalls s + length new)%nat.
Proof.
  revert s. induction msgs as [|m msgs IH]; intros s; cbn zeta.
  - simpl. split; [done|]. exists [], []. rewrite !app_nil_r.
    split_and!; try done. simpl. lia.
  - cbn [Mail.scanLoop]. destruct (Mail.skips m s); [apply IH|].
    unfold Mail.sendNotification.
    destruct (negb (Mail.smtpTransport s)).
    { simpl. split; [done|].
      exists [{| Mail.attempt_uid := Mail.uid m; Mail.attempt_ok := false |}],
        [].
      rewrite app_nil_r. split_and!; try done. simpl. lia. }
    unfold Mail.sent.
    destruct (sendMail _ _) as [e|].
    { simpl. split; [done|].
      exists [{| Mail.attempt_uid := Mail.uid m; Mail.attempt_ok := false |}],
        [].
      rewrite app_nil_r. split_and!; try done. simpl. lia. }
    match goal with
    | |- context [Mail.scanLoop sendMail cfg msgs failure ?s1] =>
        destruct (IH s1) as (Hf & new & accepted & Hn & Ho & Hl & Ha & Hc)
    end.
    split; [by rewrite Hf|].
    exists ({| Mail.attempt_uid := Mail.uid m; Mail.attempt_ok := true |}
              :: new),
      (Mail.notification cfg (Mail.envelope m) :: accepted).
    rewrite Hn, Ho. simpl. rewrite <-!app_assoc. simpl.
    split_and!; try done.
    + unfold dispatched in *. simpl. by rewrite Hl.
    + by constructor.
    + simpl in Hc. lia.
Qed.

Lemma onExists_flag (sendMail : nat → Mail.MailOptions → option string)
    (cfg : Mail.MailWatcherConfig) (mb : option Mail.MailboxObject)
    (f : Mail.Fetched) (s : Mail.Service) :
  Mail.processingMailbox s = false →
  Mail.processingMailbox (Mail.onExists sendMail cfg mb f s) = false
  ∧ (Mail.fetchCalls (Mail.onExists sendMail cfg mb f s)
     ≤ S (Mail.fetchCalls s))%nat.
Proof.
  intros Hidle. unfold Mail.onExists, Mail.handleNewMessages.
  rewrite Hidle. destruct (Mail.nothingToFetch mb _); [simpl; split; [done|lia]|].
  pose proof (scanLoop_mails sendMail cfg (Mail.yielded f) (Mail.failure f)
                (Mail.count_fetch (Mail.set_processingMailbox true s)))
    as [Hf _].
  destruct (Mail.scanLoop sendMail cfg _ _ _) as [s2 o]. simpl in Hf.
  destruct o; simpl; (split; [done|lia]).
Qed.

(** X9. The scan guard is always released: from a service that is not
    scanning, after any sequence of [exists] events handled one after the
    other the flag [processingMailbox] is lowered again, whether the scans
    returned or failed; and each event has caused at most one fetch. *)
Theorem guard_is_released_after_every_scan
    (sendMail : nat → Mail.MailOptions → option string)
    (cfg : Mail.MailWatcherConfig) (scans : list Mail.Scan)
    (s : Mail.Service) :
  Mail.processingMailbox s = false →
  Mail.processingMailbox (Mail.runScans sendMail cfg scans s) = false
  ∧ (Mail.fetchCalls (Mail.runScans sendMail cfg scans s)
     ≤ Mail.fetchCalls s + length scans)%nat.
Proof.
  revert s. induction scans as [|sc scans IH]; intros s Hidle.
  - simpl. split; [done|lia].
  - unfold Mail.runScans in *. cbn [foldl].
    destruct (onExists_flag sendMail cfg (Mail.scan_mailbox sc)
                (Mail.scan_fetched sc) s Hidle) as [Hflag Hfetch].
    destruct (IH _ Hflag) as [Hflag' Hfetch'].
    split; [done|]. simpl. lia.
Qed.

Lemma guard_is_released_after_every_scan_witness :
  Mail.processingMailbox
    (Mail.runScans Scenario.rejectsSecond Scenario.watcherConfig
       [{| Mail.scan_mailbox := Some Scenario.mailbox13;
           Mail.scan_fetched := Scenario.fetched_11_12_13 |};
        {| Mail.scan_mailbox := None;
           Mail.scan_fetched := Scenario.fetched_11_12_13 |}]
       (Scenario.watching 11)) = false
  ∧ (Mail.fetchCalls
       (Mail.runScans Scenario.rejectsSecond Scenario.watcherConfig
          [{| Mail.scan_mailbox := Some Scenario.mailbox13;
              Mail.scan_fetched := Scenario.fetched_11_12_13 |};
           {| Mail.scan_mailbox := None;
              Mail.scan_fetched := Scenario.fetched_11_12_13 |}]
          (Scenario.watching 11))
     ≤ Mail.fetchCalls (Scenario.watching 11) + 2)%nat.
Proof.
  apply (guard_is_released_after_every_scan Scenario.rejectsSecond
           Scenario.watcherConfig
           [{| Mail.scan_mailbox := Some Scenario.mailbox13;
               Mail.scan_fetched := Scenario.fetched_11_12_13 |};
            {| Mail.scan_mailbox := None;
               Mail.scan_fetched := Scenario.fetched_11_12_13 |}]
           (Scenario.watching 11)).
  reflexivity.
Defined.

Lemma dispatched_app (n1 n2 : list Mail.Attempt) :
  dispatched (n1 ++ n2) = dispatched n1 ++ dispatched n2.
Proof. unfold dispatched. apply omap_app. Qed.

(** X10. Mails and dispatches correspond: over any sequence of scans, the
    transport has accepted exactly one mail per notification handed over,
    every accepted mail goes from [notifyFrom] to [notifyRecipient], and
    [sendMail] was called at most once per recorded attempt. *)
Theorem accepted_mails_match_dispatches
    (sendMail : nat → Mail.MailOptions → option string)
    (cfg : Mail.MailWatcherConfig) (scans : list Mail.Scan)
    (s : Mail.Service) :
  let s' := Mail.runScans sendMail cfg scans s in
  ∃ new accepted,
    Mail.attempts s' = Mail.attempts s ++ new
    ∧ Mail.outbox s' = Mail.outbox s ++ accepted
    ∧ length accepted = length (dispatched new)
    ∧ Forall (λ m, Mail.mail_to m = Mail.notifyRecipient cfg
                   ∧ Mail.mail_from m = Mail.notifyFrom cfg) accepted
    ∧ (Mail.sendCalls s' ≤ Mail.sendCalls s + length new)%nat.
Proof.
  cbn zeta. revert s. induction scans as [|sc scans IH]; intros s.
  - exists [], []. simpl. rewrite !app_nil_r. split_and!; try done. lia.
  - unfold Mail.runScans in *. cbn [foldl].
    assert (∃ new accepted,
              Mail.attempts (Mail.onExists sendMail cfg (Mail.scan_mailbox sc)
                               (Mail.scan_fetched sc) s)
              = Mail.attempts s ++ new
              ∧ Mail.outbox (Mail.onExists sendMail cfg (Mail.scan_mailbox sc)
                               (Mail.scan_fetched sc) s)
                = Mail.outbox s ++ accepted
              ∧ length accepted = length (dispatched new)
              ∧ Forall (λ m, Mail.mail_to m = Mail.notifyRecipient cfg
                             ∧ Mail.mail_from m = Mail.notifyFrom cfg) accepted
              ∧ (Mail.sendCalls (Mail.onExists sendMail cfg
                                   (Mail.scan_mailbox sc)
                                   (Mail.scan_fetched sc) s)
                 ≤ Mail.sendCalls s + length new)%nat)
      as (n1 & a1 & Hn1 & Ho1 & Hl1 & Ha1 & Hc1).
    { unfold Mail.onExists, Mail.handleNewMessages.
      destruct (Mail.processingMailbox s).
      { exists [], []. rewrite !app_nil_r. split_and!; try done. simpl. lia. }
      destruct (Mail.nothingToFetch _ _).
      { exists [], []. simpl. rewrite !app_nil_r. split_and!; try done. lia. }
      pose proof (scanLoop_mails sendMail cfg
                    (Mail.yielded (Mail.scan_fetched sc))
                    (Mail.failure (Mail.scan_fetched sc))
                    (Mail.count_fetch (Mail.set_processingMailbox true s)))
        as (_ & new & accepted & Hn & Ho & Hl & Ha & Hc).
      destruct (Mail.scanLoop sendMail cfg _ _ _) as [s2 o].
      exists new, accepted. simpl in *. by destruct o. }
    destruct (IH (Mail.onExists sendMail cfg (Mail.scan_mailbox sc)
                    (Mail.scan_fetched sc) s))
      as (n2 & a2 & Hn2 & Ho2 & Hl2 & Ha2 & Hc2).
    exists (n1 ++ n2), (a1 ++ a2).
    rewrite Hn2, Hn1, Ho2, Ho1, dispatched_app, !length_app, <-!app_assoc.
    split_and!; try done; [lia|by apply Forall_app|lia].
Qed.

Lemma above_Forall (c : Z) (new : list Mail.Attempt) :
  above c new → Forall (λ a, c < Mail.attempt_uid a) new.
Proof.
  revert c. induction new as [|a new IH]; intros c; [constructor|].
  simpl. intros [Hlt Hrest]. constructor; [done|].
  apply IH in Hrest. eapply Forall_impl; [exact Hrest|]. simpl.
  intros b. destruct (Mail.attempt_ok a); lia.
Qed.

Lemma runScans_above (sendMail : nat → Mail.MailOptions → option string)
    (cfg : Mail.MailWatcherConfig) (scans : list Mail.Scan)
    (s : Mail.Service) :
  ∃ new,
    Mail.attempts (Mail.runScans sendMail cfg scans s) = Mail.attempts s ++ new
    ∧ above (Mail.lastProcessedUid s) new.
Proof.
  revert s. induction scans as [|sc scans IH]; intros s.
  - exists []. simpl. by rewrite app_nil_r.
  - unfold Mail.runScans in *. cbn [foldl].
    destruct (onExists_cursor sendMail cfg (Mail.scan_mailbox sc)
                (Mail.scan_fetched sc) s) as (n1 & Hn1 & Ha1 & Hl1).
    destruct (IH (Mail.onExists sendMail cfg (Mail.scan_mailbox sc)
                    (Mail.scan_fetched sc) s)) as (n2 & Hn2 & Ha2).
    exists (n1 ++ n2). rewrite Hn2, Hn1, above_app, <-app_assoc.
    rewrite Hl1 in Ha2. done.
Qed.

(** X11. Mail that was in the mailbox when the watcher started is never
    notified: after a start on a mailbox whose next uid is [n], the cursor
    is [n - 1], and in every later scan each notification attempted is for a
    uid of at least [n], whatever the fetch yields (a fetch of [n:*] yields
    the last message of the mailbox even when nothing is new). *)
Theorem mail_present_at_start_is_never_notified
    (sendMail : nat → Mail.MailOptions → option string)
    (cfg : Mail.MailWatcherConfig) (w : Mail.StartWorld)
    (info : Mail.MailboxObject) (n : Z) (scans : list Mail.Scan)
    (s : Mail.Service) :
  Mail.connect w = None →
  Mail.mailboxOpen w = Value info →
  Mail.uidNext info = Some n →
  n ≠ 0 →
  let s0 := fst (Mail.startImapWatcher cfg w s) in
  let s' := Mail.runScans sendMail cfg scans s0 in
  snd (Mail.startImapWatcher cfg w s) = Returned
  ∧ Mail.watching s0 = true
  ∧ Mail.lastProcessedUid s0 = n - 1
  ∧ ∃ new,
      Mail.attempts s' = Mail.attempts s ++ new
      ∧ Forall (λ a, n ≤ Mail.attempt_uid a) new.
Proof.
  intros Hconnect Hopen Hnext Hn s0 s'.
  assert (Mail.startImapWatcher cfg w s
          = (Mail.set_watching
               (Mail.log (Mail.Watching (Mail.mailbox cfg))
                  (Mail.set_lastProcessedUid (n - 1) (Mail.set_imapClient s))),
             Returned)) as Hstart.
  { unfold Mail.startImapWatcher. rewrite Hconnect, Hopen, Hnext.
    unfold Js.truthyNum. by rewrite bool_decide_eq_true_2. }
  unfold s', s0. rewrite Hstart. cbn [fst snd]. split_and!; try done.
  destruct (runScans_above sendMail cfg scans
              (Mail.set_watching
                 (Mail.log (Mail.Watching (Mail.mailbox cfg))
                    (Mail.set_lastProcessedUid (n - 1)
                       (Mail.set_imapClient s)))))
    as (new & Hnew & Habove).
  exists new. split; [exact Hnew|].
  apply above_Forall in Habove. eapply Forall_impl; [exact Habove|].
  simpl. lia.
Qed.

Lemma mail_present_at_start_is_never_notified_witness :
  let s0 :=
    fst (Mail.startImapWatcher Scenario.watcherConfig Scenario.serversUp
           (Mail.set_smtpTransport Mail.initial)) in
  let s' :=
    Mail.runScans Scenario.accepts Scenario.watcherConfig
      [{| Mail.scan_mailbox := Some Scenario.mailbox13;
          Mail.scan_fetched :=
            {| Mail.yielded := [Scenario.message 13 "c"];
               Mail.failure := None |} |}] s0 in
  snd (Mail.startImapWatcher Scenario.watcherConfig Scenario.serversUp
         (Mail.set_smtpTransport Mail.initial)) = Returned
  ∧ Mail.watching s0 = true
  ∧ Mail.lastProcessedUid s0 = 14 - 1
  ∧ ∃ new,
      Mail.attempts s'
      = Mail.attempts (Mail.set_smtpTransport Mail.initial) ++ new
      ∧ Forall (λ a, 14 ≤ Mail.attempt_uid a) new.
Proof.
  apply (mail_present_at_start_is_never_notified Scenario.accepts
           Scenario.watcherConfig Scenario.serversUp Scenario.mailbox13 14
           [{| Mail.scan_mailbox := Some Scenario.mailbox13;
               Mail.scan_fetched :=
                 {| Mail.yielded := [Scenario.message 13 "c"];
                    Mail.failure := None |} |}]
           (Mail.set_smtpTransport Mail.initial)).
  - reflexivity.
  - reflexivity.
  - reflexivity.
  - discriminate.
Defined.

Lemma cursor_monotone_under_interleaving_witness :
  let events :=
    [MailAsync.Exists (Some Scenario.mailbox13) Scenario.fetched_11_12_13;
     MailAsync.Resume 0;
     MailAsync.Exists (Some Scenario.mailbox13) Scenario.fetched_11_12_13;
     MailAsync.Resume 0; MailAsync.Resume 0; MailAsync.Resume 0]%nat in
  let s' :=
    MailAsync.svc
      (MailAsync.run Scenario.rejectsSecond Scenario.watcherConfig
         (MailAsync.start (Scenario.watching 11)) events) in
  Mail.lastProcessedUid (Scenario.watching 11) ≤ Mail.lastProcessedUid s'
  ∧ ∃ new,
      Mail.attempts s' = Mail.attempts (Scenario.watching 11) ++ new
      ∧ above (Mail.lastProcessedUid (Scenario.watching 11)) new
      ∧ Mail.lastProcessedUid s'
        = replay (Mail.lastProcessedUid (Scenario.watching 11)) new
      ∧ StronglySorted Z.lt (dispatched new).
Proof.
  apply (cursor_monotone_under_interleaving Scenario.rejectsSecond
           Scenario.watcherConfig
           [MailAsync.Exists (Some Scenario.mailbox13)
              Scenario.fetched_11_12_13;
            MailAsync.Resume 0;
            MailAsync.Exists (Some Scenario.mailbox13)
              Scenario.fetched_11_12_13;
            MailAsync.Resume 0; MailAsync.Resume 0; MailAsync.Resume 0]%nat
           (Scenario.watching 11)).
  reflexivity.
Defined.

(** ** Start-up *)

(** X15. How [bootstrap()] ends, for a module whose providers are
    distinct. The process exits with code 1 exactly when the module
    contains [MailService] and its [onModuleInit] rejects. It ends with
    code 0 exactly when no start-up rejects and none leaves a connection or
    a cron job behind: nothing keeps the process alive then. Otherwise it
    keeps running, with every service as its own [onModuleInit], taken
    alone, leaves it. *)
Theorem bootstrap_exits_iff_mail_init_rejects
    (env : gmap string string) (toNumber : string → Z)
    (cronAccepts : string → bool) (start : Mail.StartWorld)
    (providers : list App.Provider) :
  NoDup providers →
  let p := App.bootstrap env toNumber cronAccepts start providers in
  let rejects :=
    bool_decide (App.MailService ∈ providers)
    && mailRejects env toNumber start in
  let alive :=
    bool_decide (App.MailService ∈ providers)
    && mailStarts env toNumber start
    || bool_decide (App.GmailApiPollingService ∈ providers)
       && gmailStarts env toNumber cronAccepts
    || bool_decide (App.OutlookGraphPollingService ∈ providers)
       && outlookStarts env toNumber cronAccepts in
  (p = App.Exited 1 ↔ rejects = true)
  ∧ (p = App.Exited 0 ↔ rejects = false ∧ alive = false)
  ∧ (∀ code, p = App.Exited code → code = 0 ∨ code = 1)
  ∧ ((∃ a, p = App.Running a) ↔ rejects = false ∧ alive = true)
  ∧ ∀ a, p = App.Running a →
      Mail.watching (App.mail a)
      = bool_decide (App.MailService ∈ providers)
        && mailStarts env toNumber start
      ∧ Gmail.cronJob (App.gmail a)
        = bool_decide (App.GmailApiPollingService ∈ providers)
          && gmailStarts env toNumber cronAccepts
      ∧ Outlook.cronJob (App.outlook a)
        = bool_decide (App.OutlookGraphPollingService ∈ providers)
          && outlookStarts env toNumber cronAccepts.
Proof.
  intros Hnd. cbn zeta.
  pose proof (bootstrap_cases env toNumber cronAccepts start providers Hnd)
    as (Hm & Hg & Ho & Hp). cbn zeta in Hm, Hg, Ho, Hp.
  destruct (bool_decide (App.MailService ∈ providers)
            && mailRejects env toNumber start) eqn:Hrej.
  { rewrite Hp. split_and!.
    - done.
    - split; [done|]. by intros [? _].
    - intros code ?; simplify_eq. by right.
    - split; [by intros [a ?]|]. by intros [? _].
    - done. }
  destruct (bool_decide (App.MailService ∈ providers)
            && mailStarts env toNumber start
            || bool_decide (App.GmailApiPollingService ∈ providers)
               && gmailStarts env toNumber cronAccepts
            || bool_decide (App.OutlookGraphPollingService ∈ providers)
               && outlookStarts env toNumber cronAccepts) eqn:Halive.
  - rewrite Hp. split_and!.
    + done.
    + split; [done|]. by intros [_ ?].
    + done.
    + split; [done|]. intros _. by eexists.
    + intros a ?; simplify_eq. done.
  - rewrite Hp. split_and!.
    + done.
    + done.
    + intros code ?; simplify_eq. by left.
    + split; [by intros [a ?]|]. by intros [_ ?].
    + done.
Qed.

Lemma bootstrap_exits_iff_mail_init_rejects_witness :
  NoDup App.MailModule
  ∧ App.bootstrap Scenario.envGmailUnconfigured Scenario.noNumber
      Scenario.anyCron Scenario.serversUp App.MailModule
    = App.Exited 0
  ∧ App.bootstrap Scenario.envMailUnconfigured Scenario.noNumber
      Scenario.anyCron Scenario.serversUp App.MailModule
    = App.Exited 1
  ∧ ∃ a, App.bootstrap Scenario.envPollersUnconfigured Scenario.noNumber
           Scenario.anyCron Scenario.serversUp App.MailModule
         = App.Running a.
Proof.
  assert (NoDup App.MailModule) as Hnd
    by (apply (bool_decide_unpack _); vm_compute; exact I).
  split; [exact Hnd|]. split.
  { apply (proj1 (proj2 (bootstrap_exits_iff_mail_init_rejects
             Scenario.envGmailUnconfigured Scenario.noNumber
             Scenario.anyCron Scenario.serversUp App.MailModule Hnd))).
    split; vm_compute; reflexivity. }
  split.
  { apply (proj1 (bootstrap_exits_iff_mail_init_rejects
             Scenario.envMailUnconfigured Scenario.noNumber
             Scenario.anyCron Scenario.serversUp App.MailModule Hnd)).
    vm_compute. reflexivity. }
  apply (proj1 (proj2 (proj2 (proj2 (bootstrap_exits_iff_mail_init_rejects
           Scenario.envPollersUnconfigured Scenario.noNumber
           Scenario.anyCron Scenario.serversUp App.MailModule Hnd))))).
  split; vm_compute; reflexivity.
Defined.

(** X16. [MailService.onModuleInit] ends with the watcher subscribed exactly
    when the service is enabled and every step of the start-up succeeds:
    the settings resolve, [verify()], [connect()] and [mailboxOpen()]. It
    resolves exactly when the service is disabled or the watcher is
    subscribed. When it rejects, it rejects with the error of the step that
    failed, nothing is subscribed and the cursor is still 0. *)
Theorem mail_watches_iff_every_start_step_succeeds
    (env : gmap string string) (toNumber : string → Z)
    (w : Mail.StartWorld) :
  let r := Mail.onModuleInit env toNumber w Mail.initial in
  (Mail.watching (fst r) = true
   ↔ Mail.isEnabled env = true
     ∧ (∃ c, Mail.resolveConfig env toNumber = Value c)
     ∧ Mail.verify w = None ∧ Mail.connect w = None
     ∧ ∃ info, Mail.mailboxOpen w = Value info)
  ∧ (snd r = Returned
     ↔ Mail.isEnabled env = false ∨ Mail.watching (fst r) = true)
  ∧ (∀ e, snd r = Threw e →
       Mail.watching (fst r) = false
       ∧ Mail.lastProcessedUid (fst r) = 0
       ∧ (Mail.resolveConfig env toNumber = Raise e
          ∨ Mail.verify w = Some e ∨ Mail.connect w = Some e
          ∨ Mail.mailboxOpen w = Raise e))
  ∧ snd r ≠ Diverges.
Proof.
  unfold Mail.onModuleInit, Mail.bootstrapSmtpTransport,
    Mail.startImapWatcher.
  destruct (Mail.isEnabled env); simpl.
  2: { split_and!; [naive_solver|naive_solver|done|done]. }
  destruct (Mail.resolveConfig env toNumber) as [c|e0]; simpl.
  2: { split_and!; [naive_solver|naive_solver| |done].
       intros e ?; simplify_eq. naive_solver. }
  destruct (Mail.verify w) as [e0|]; simpl.
  { split_and!; [naive_solver|naive_solver| |done].
    intros e ?; simplify_eq. naive_solver. }
  destruct (Mail.connect w) as [e0|]; simpl.
  { split_and!; [naive_solver|naive_solver| |done].
    intros e ?; simplify_eq. naive_solver. }
  destruct (Mail.mailboxOpen w) as [info|e0]; simpl.
  - split_and!; [naive_solver|naive_solver|done|done].
  - split_and!; [naive_solver|naive_solver| |done].
    intros e ?; simplify_eq. naive_solver.
Qed.

Lemma gmail_resolveConfig_firstMissing (env : gmap string string)
    (toNumber : string → Z) :
  match firstMissing env
          ["GOOGLE_CLIENT_ID"; "GOOGLE_CLIENT_SECRET"; "GOOGLE_REFRESH_TOKEN"]
  with
  | Some k =>
      Gmail.resolveConfig env toNumber
      = Raise ("Missing required environment variable " +:+ k)
  | None =>
      ∃ c, Gmail.resolveConfig env toNumber = Value c
           ∧ Gmail.cronExpression c
             = Js.getOr env "GMAIL_CRON_EXPRESSION" "*/5 * * * *"
           ∧ Gmail.processedCache c
             = Gmail.numberOr env toNumber "GMAIL_PROCESSED_CACHE" 100
           ∧ Js.get env "GOOGLE_CLIENT_ID" = Some (Gmail.clientId c)
           ∧ Js.get env "GOOGLE_CLIENT_SECRET" = Some (Gmail.clientSecret c)
           ∧ Js.get env "GOOGLE_REFRESH_TOKEN" = Some (Gmail.refreshToken c)
  end.
Proof.
  unfold firstMissing, Gmail.resolveConfig, Gmail.requireEnv.
  destruct (Js.get env "GOOGLE_CLIENT_ID") as [a|]; [|done].
  destruct (Js.truthy (Some a)); [|done].
  destruct (Js.get env "GOOGLE_CLIENT_SECRET") as [b|]; [|done].
  destruct (Js.truthy (Some b)); [|done].
  destruct (Js.get env "GOOGLE_REFRESH_TOKEN") as [c|]; [|done].
  destruct (Js.truthy (Some c)); [|done].
  eexists. split; [reflexivity|]. by split_and!.
Qed.

Lemma outlook_resolveConfig_firstMissing (env : gmap string string)
    (toNumber : string → Z) :
  match firstMissing env
          ["OUTLOOK_TENANT_ID"; "OUTLOOK_CLIENT_ID"; "OUTLOOK_CLIENT_SECRET";
           "OUTLOOK_USER_ID"]
  with
  | Some k =>
      Outlook.resolveConfig env toNumber
      = Raise ("Missing required environment variable " +:+ k)
  | None =>
      ∃ c, Outlook.resolveConfig env toNumber = Value c
           ∧ Outlook.cronExpression c
             = Js.getOr env "OUTLOOK_CRON_EXPRESSION" "*/5 * * * *"
           ∧ Outlook.processedCache c
             = Outlook.numberOr env toNumber "OUTLOOK_PROCESSED_CACHE" 100
           ∧ Js.get env "OUTLOOK_TENANT_ID" = Some (Outlook.tenantId c)
           ∧ Js.get env "OUTLOOK_CLIENT_ID" = Some (Outlook.clientId c)
           ∧ Js.get env "OUTLOOK_CLIENT_SECRET"
             = Some (Outlook.clientSecret c)
           ∧ Js.get env "OUTLOOK_USER_ID" = Some (Outlook.userId c)
  end.
Proof.
  unfold firstMissing, Outlook.resolveConfig, Outlook.requireEnv.
  destruct (Js.get env "OUTLOOK_TENANT_ID") as [a|]; [|done].
  destruct (Js.truthy (Some a)); [|done].
  destruct (Js.get env "OUTLOOK_CLIENT_ID") as [b|]; [|done].
  destruct (Js.truthy (Some b)); [|done].
  destruct (Js.get env "OUTLOOK_CLIENT_SECRET") as [c|]; [|done].
  destruct (Js.truthy (Some c)); [|done].
  destruct (Js.get env "OUTLOOK_USER_ID") as [d|]; [|done].
  destruct (Js.truthy (Some d)); [|done].
  eexists. split; [reflexivity|]. by split_and!.
Qed.

(** A flag is trimmed of every character of white space before it is
    compared: written with a no-break space before it and a blank after
    it, in capitals, it still enables the poller, which is scheduled. *)
Example flag_with_no_break_space_enables_the_poller :
  Js.flagIsTrue (Some (Scenario.nbsp +:+ "True ")) = true
  ∧ Js.flagIsTrue (Some (Scenario.bom +:+ "true" +:+ Scenario.nbsp)) = true
  ∧ Js.flagIsTrue (Some "truely") = false
  ∧ Gmail.isEnabled Scenario.envGmailLabels = true
  ∧ Gmail.cronJob
      (fst (Gmail.onModuleInit Scenario.envGmailLabels Scenario.noNumber
              Scenario.anyCron Gmail.initial))
    = true.
Proof. split_and!; vm_compute; reflexivity. Qed.

(** X17. A poll source is scheduled by its [onModuleInit] exactly when its
    flag is on, none of its required settings is missing or empty, and
    [new CronJob] accepts the cron expression (the setting, or every five
    minutes when it is missing). When it is scheduled, the Gmail service
    has its client and both services have their configuration, so a tick
    does poll; start-up returns in every case. *)
Theorem poller_is_scheduled_iff_flag_settings_and_cron
    (env : gmap string string) (toNumber : string → Z)
    (cronAccepts : string → bool) :
  let g := Gmail.onModuleInit env toNumber cronAccepts Gmail.initial in
  let o := Outlook.onModuleInit env toNumber cronAccepts Outlook.initial in
  (Gmail.cronJob (fst g) = true
   ↔ Gmail.isEnabled env = true
     ∧ firstMissing env
         ["GOOGLE_CLIENT_ID"; "GOOGLE_CLIENT_SECRET"; "GOOGLE_REFRESH_TOKEN"]
       = None
     ∧ cronAccepts (Js.getOr env "GMAIL_CRON_EXPRESSION" "*/5 * * * *")
       = true)
  ∧ (Gmail.cronJob (fst g) = true →
       Gmail.gmail (fst g) = true
       ∧ ∃ c, Gmail.config (fst g) = Some c
              ∧ Gmail.resolveConfig env toNumber = Value c)
  ∧ (Outlook.cronJob (fst o) = true
     ↔ Outlook.isEnabled env = true
       ∧ firstMissing env
           ["OUTLOOK_TENANT_ID"; "OUTLOOK_CLIENT_ID"; "OUTLOOK_CLIENT_SECRET";
            "OUTLOOK_USER_ID"]
         = None
       ∧ cronAccepts (Js.getOr env "OUTLOOK_CRON_EXPRESSION" "*/5 * * * *")
         = true)
  ∧ (Outlook.cronJob (fst o) = true →
       ∃ c, Outlook.config (fst o) = Some c
            ∧ Outlook.resolveConfig env toNumber = Value c)
  ∧ snd g = Returned ∧ snd o = Returned.
Proof.
  pose proof (gmail_resolveConfig_firstMissing env toNumber) as Hg.
  pose proof (outlook_resolveConfig_firstMissing env toNumber) as Ho.
  unfold Gmail.onModuleInit, Outlook.onModuleInit, Gmail.registerCronJob,
    Outlook.registerCronJob.
  destruct (firstMissing env
              ["GOOGLE_CLIENT_ID"; "GOOGLE_CLIENT_SECRET";
               "GOOGLE_REFRESH_TOKEN"]) as [kg|];
    destruct (firstMissing env
                ["OUTLOOK_TENANT_ID"; "OUTLOOK_CLIENT_ID";
                 "OUTLOOK_CLIENT_SECRET"; "OUTLOOK_USER_ID"]) as [ko|];
    repeat match goal with
           | H : ∃ _, _ |- _ => destruct H as (? & -> & <- & ?)
           | H : _ = Raise _ |- _ => rewrite H; clear H
           end;
    destruct (Gmail.isEnabled env), (Outlook.isEnabled env); simpl;
    repeat match goal with
           | |- context [cronAccepts ?e] => destruct (cronAccepts e) eqn:?
           end; simpl; split_and!; naive_solver.
Qed.

(** X18. A required setting that is missing, or present but empty, is
    reported by name, and the first one in the order of [resolveConfig] is
    the one reported. For the watcher the start-up rejects with that message
    before any server is contacted (the service is unchanged); for the poll
    sources the message is logged and the start-up returns. When none is
    missing the watcher's configuration holds the settings as given, and an
    optional setting that is missing falls back (the SMTP user, the SMTP
    password and the sender to the IMAP credentials), while one that is
    present, even empty, is taken as it is. *)
Theorem missing_setting_is_reported_by_name
    (env : gmap string string) (toNumber : string → Z)
    (cronAccepts : string → bool) (w : Mail.StartWorld)
    (m : Mail.Service) (g : Gmail.Service) (o : Outlook.Service) :
  match firstMissing env
          ["SOURCE_EMAIL"; "SOURCE_APP_PASSWORD"; "NOTIFY_RECIPIENT"]
  with
  | Some k =>
      Mail.resolveConfig env toNumber
      = Raise ("Missing required environment variable: " +:+ k)
      ∧ (Mail.isEnabled env = true →
         Mail.onModuleInit env toNumber w m
         = (m, Threw ("Missing required environment variable: " +:+ k)))
  | None =>
      ∃ c, Mail.resolveConfig env toNumber = Value c
           ∧ Js.get env "SOURCE_EMAIL" = Some (Mail.imapUser c)
           ∧ Js.get env "SOURCE_APP_PASSWORD" = Some (Mail.imapPass c)
           ∧ Js.get env "NOTIFY_RECIPIENT" = Some (Mail.notifyRecipient c)
           ∧ Mail.smtpUser c
             = default (Mail.imapUser c) (Js.get env "SMTP_USERNAME")
           ∧ Mail.smtpPass c
             = default (Mail.imapPass c) (Js.get env "SMTP_PASSWORD")
           ∧ Mail.notifyFrom c
             = default (Mail.imapUser c) (Js.get env "NOTIFY_FROM")
           ∧ Mail.imapUser c ≠ EmptyString
           ∧ Mail.imapPass c ≠ EmptyString
           ∧ Mail.notifyRecipient c ≠ EmptyString
  end
  ∧ (∀ k,
       firstMissing env
         ["GOOGLE_CLIENT_ID"; "GOOGLE_CLIENT_SECRET"; "GOOGLE_REFRESH_TOKEN"]
       = Some k →
       Gmail.isEnabled env = true →
       Gmail.onModuleInit env toNumber cronAccepts g
       = (Gmail.log
            (Gmail.InitFailed
               ("Missing required environment variable " +:+ k)) g,
          Returned))
  ∧ (∀ k,
       firstMissing env
         ["OUTLOOK_TENANT_ID"; "OUTLOOK_CLIENT_ID"; "OUTLOOK_CLIENT_SECRET";
          "OUTLOOK_USER_ID"]
       = Some k →
       Outlook.isEnabled env = true →
       Outlook.onModuleInit env toNumber cronAccepts o
       = (Outlook.log
            (Outlook.InitFailed
               ("Missing required environment variable " +:+ k)) o,
          Returned)).
Proof.
  split_and!.
  - unfold firstMissing, Mail.onModuleInit, Mail.resolveConfig,
      Mail.requireEnv, Js.getOr, Js.get.
    destruct (env !! "SOURCE_EMAIL") as [a|] eqn:Ha;
      [|split; [done|by intros ->]].
    destruct (Js.truthy (Some a)) eqn:Hta; [|split; [done|by intros ->]].
    destruct (env !! "SOURCE_APP_PASSWORD") as [b|] eqn:Hb;
      [|split; [done|by intros ->]].
    destruct (Js.truthy (Some b)) eqn:Htb; [|split; [done|by intros ->]].
    destruct (env !! "NOTIFY_RECIPIENT") as [c|] eqn:Hc;
      [|split; [done|by intros ->]].
    destruct (Js.truthy (Some c)) eqn:Htc; [|split; [done|by intros ->]].
    unfold Js.truthy in Hta, Htb, Htc.
    apply bool_decide_eq_true in Hta, Htb, Htc.
    eexists. split; [reflexivity|]. by split_and!.
  - intros k Hk Hen.
    pose proof (gmail_resolveConfig_firstMissing env toNumber) as H.
    rewrite Hk in H. unfold Gmail.onModuleInit. by rewrite Hen, H.
  - intros k Hk Hen.
    pose proof (outlook_resolveConfig_firstMissing env toNumber) as H.
    rewrite Hk in H. unfold Outlook.onModuleInit. by rewrite Hen, H.
Qed.

(** ** Headers and labels *)

Lemma lowerAscii_idem (c : ascii) :
  Js.lowerAscii (Js.lowerAscii c) = Js.lowerAscii c.
Proof.
  destruct c as [[] [] [] [] [] [] [] []]; vm_compute; reflexivity.
Qed.

Lemma toLowerCase_idem (s : string) :
  Js.toLowerCase (Js.toLowerCase s) = Js.toLowerCase s.
Proof.
  induction s as [|c s IH]; [done|]. simpl. by rewrite lowerAscii_idem, IH.
Qed.

Lemma toLowerCase_empty (s : string) :
  Js.toLowerCase s = EmptyString ↔ s = EmptyString.
Proof. by destruct s. Qed.

Lemma asHeaderMap_snoc (hs : list Gmail.Schema_MessagePartHeader)
    (h : Gmail.Schema_MessagePartHeader) (k : string) :
  Gmail.asHeaderMap (Some (hs ++ [h])) !! k
  = match headerFor k h with
    | Some v => Some v
    | None => Gmail.asHeaderMap (Some hs) !! k
    end.
Proof.
  unfold Gmail.asHeaderMap, headerFor. simpl. rewrite foldl_app. simpl.
  destruct (Gmail.name h) as [n|]; simpl; [|done].
  destruct (Gmail.value h) as [v|]; simpl; [|done].
  unfold Js.truthy.
  destruct (decide (n = EmptyString)) as [->|Hn].
  { by rewrite decide_False by naive_solver. }
  destruct (decide (v = EmptyString)) as [->|Hv].
  { rewrite decide_False by naive_solver.
    rewrite (bool_decide_eq_false_2 (EmptyString ≠ EmptyString))
      by naive_solver.
    by rewrite andb_false_r. }
  rewrite !bool_decide_eq_true_2
    by first [done|by rewrite toLowerCase_empty].
  simpl. case_decide as Hd.
  - destruct Hd as (_ & _ & <-). by rewrite lookup_insert_eq.
  - rewrite lookup_insert_ne; [done|naive_solver].
Qed.

(** X20. Looking a key up in the map that [asHeaderMap] builds gives the
    value of the last header whose name is the key up to the case of its
    letters, among the headers that have a name and a value, both not
    empty. So only lower-case keys are found, no value found is empty, and
    without a header list the map is empty. The announcement that
    [inspectMessage] logs therefore never has an empty sender or subject:
    each is the last such header, or its placeholder. *)
Theorem header_lookup_is_last_match_ignoring_case
    (hs : list Gmail.Schema_MessagePartHeader) (k : string) :
  Gmail.asHeaderMap (Some hs) !! k = last (omap (headerFor k) hs)
  ∧ (∀ v, Gmail.asHeaderMap (Some hs) !! k = Some v →
          v ≠ EmptyString ∧ k ≠ EmptyString ∧ Js.toLowerCase k = k)
  ∧ Gmail.asHeaderMap None !! k = None
  ∧ ∀ (i : string) (s : Gmail.Service),
      Gmail.inspected i (Gmail.Got (Some hs)) s
      = (Gmail.log
           (Gmail.Detected i
              (default "unknown sender" (last (omap (headerFor "from") hs)))
              (default "(no subject)" (last (omap (headerFor "subject") hs))))
           s, Returned).
Proof.
  assert (∀ k', Gmail.asHeaderMap (Some hs) !! k'
                = last (omap (headerFor k') hs)) as Hlast.
  { intros k'. induction hs as [|h hs IH] using rev_ind; [done|].
    rewrite asHeaderMap_snoc, omap_app. simpl.
    destruct (headerFor k' h) as [v|]; simpl.
    - by rewrite last_snoc.
    - by rewrite app_nil_r. }
  assert (∀ k' v, Gmail.asHeaderMap (Some hs) !! k' = Some v →
                  v ≠ EmptyString ∧ k' ≠ EmptyString
                  ∧ Js.toLowerCase k' = k') as Hfound.
  { intros k' v. rewrite Hlast. intros Hv.
    apply last_Some_elem_of in Hv.
    apply list_elem_of_omap in Hv as (h & _ & Hh).
    unfold headerFor in Hh.
    destruct (Gmail.name h) as [n|]; [|done].
    destruct (Gmail.value h) as [v'|]; [|done].
    case_decide as Hd; [|done]. simplify_eq.
    destruct Hd as (Hn & Hv & <-). split_and!; [done| |].
    - by rewrite toLowerCase_empty.
    - apply toLowerCase_idem. }
  split_and!; [apply Hlast|apply Hfound|done|].
  intros i s. unfold Gmail.inspected. do 3 f_equal.
  - pose proof (Hfound "from") as Hf. rewrite <-Hlast.
    destruct (Gmail.asHeaderMap (Some hs) !! "from") as [v|]; simpl; [|done].
    destruct (Hf v eq_refl) as (Hv & _). by rewrite decide_False.
  - pose proof (Hfound "subject") as Hf. rewrite <-Hlast.
    destruct (Gmail.asHeaderMap (Some hs) !! "subject") as [v|]; simpl;
      [|done].
    destruct (Hf v eq_refl) as (Hv & _). by rewrite decide_False.
Qed.

Lemma string_strong_ind (P : string → Prop) :
  (∀ s, (∀ t, (String.length t < String.length s)%nat → P t) → P s) →
  ∀ s, P s.
Proof.
  intros Hstep s.
  assert (∀ n t, (String.length t < n)%nat → P t) as H.
  { induction n as [|n IH]; intros t Ht; [lia|].
    apply Hstep. intros u Hu. apply IH. lia. }
  apply (H (S (String.length s))). lia.
Qed.

Lemma trimStart_cons (c : ascii) (r : string) :
  Js.trimStart (String c r)
  = if Js.isSpace c then Js.trimStart r
    else
      match r with
      | EmptyString => String c r
      | String c2 r2 =>
          if Js.isSpace2 c c2 then Js.trimStart r2
          else
            match r2 with
            | EmptyString => String c r
            | String c3 r3 =>
                if Js.isSpace3 c c2 c3 then Js.trimStart r3 else String c r
            end
      end.
Proof. done. Qed.

Lemma trimStart_nohead (s : string) :
  headSpace s = false → Js.trimStart s = s.
Proof.
  destruct s as [|c [|c2 [|c3 r3]]]; simpl; try done.
  - by destruct (Js.isSpace c).
  - destruct (Js.isSpace c); [done|]. by destruct (Js.isSpace2 c c2).
  - destruct (Js.isSpace c); [done|].
    destruct (Js.isSpace2 c c2); [done|]. by destruct (Js.isSpace3 c c2 c3).
Qed.

Lemma headSpace_trimStart (s : string) : headSpace (Js.trimStart s) = false.
Proof.
  induction s as [s IH] using string_strong_ind.
  destruct s as [|c [|c2 [|c3 r3]]]; try done; rewrite trimStart_cons.
  - destruct (Js.isSpace c) eqn:H1; [done|]. simpl. by rewrite H1.
  - destruct (Js.isSpace c) eqn:H1.
    { apply IH. simpl. lia. }
    destruct (Js.isSpace2 c c2) eqn:H2; [done|]. simpl. by rewrite H1, H2.
  - destruct (Js.isSpace c) eqn:H1.
    { apply IH. simpl. lia. }
    destruct (Js.isSpace2 c c2) eqn:H2.
    { apply IH. simpl. lia. }
    destruct (Js.isSpace3 c c2 c3) eqn:H3.
    { apply IH. simpl. lia. }
    simpl. by rewrite H1, H2, H3.
Qed.

Lemma headSpace_prefix (p w : string) :
  headSpace (p +:+ w) = false → headSpace p = false.
Proof.
  destruct p as [|c [|c2 [|c3 r3]]]; simpl; try done.
  - destruct (Js.isSpace c); [done|]. done.
  - destruct (Js.isSpace c); [done|]. simpl.
    destruct (Js.isSpace2 c c2); [done|]. done.
Qed.

Lemma trimStart_blank_app (a w : string) :
  Js.trimStart a = EmptyString → Js.trimStart (a +:+ w) = Js.trimStart w.
Proof.
  induction a as [a IH] using string_strong_ind.
  destruct a as [|c [|c2 [|c3 r3]]]; try done.
  - rewrite trimStart_cons. destruct (Js.isSpace c) eqn:H1; [|done].
    intros _. change (String c EmptyString +:+ w) with (String c w).
    by rewrite trimStart_cons, H1.
  - rewrite trimStart_cons. intros Ha.
    change (String c (String c2 EmptyString) +:+ w)
      with (String c (String c2 w)).
    rewrite (trimStart_cons c).
    destruct (Js.isSpace c) eqn:H1.
    { apply (IH (String c2 EmptyString)); [simpl; lia|done]. }
    by destruct (Js.isSpace2 c c2) eqn:H2.
  - rewrite trimStart_cons. intros Ha.
    change (String c (String c2 (String c3 r3)) +:+ w)
      with (String c (String c2 (String c3 (r3 +:+ w)))).
    rewrite (trimStart_cons c).
    destruct (Js.isSpace c) eqn:H1.
    { apply (IH (String c2 (String c3 r3))); [simpl; lia|done]. }
    destruct (Js.isSpace2 c c2) eqn:H2.
    { apply (IH (String c3 r3)); [simpl; lia|done]. }
    destruct (Js.isSpace3 c c2 c3) eqn:H3; [|done].
    apply (IH r3); [simpl; lia|done].
Qed.

Lemma trimEnd_split (s : string) :
  ∃ w, s = Js.trimEnd s +:+ w ∧ Js.trimStart w = EmptyString.
Proof.
  induction s as [|c r IH]; [by exists EmptyString|].
  cbn [Js.trimEnd]. unfold Js.blank.
  destruct (Js.trimStart (String c r)) eqn:Hb.
  - by exists (String c r).
  - destruct IH as (w & Hr & Hw). exists w. split; [|done].
    change (String c (Js.trimEnd r) +:+ w) with (String c (Js.trimEnd r +:+ w)).
    by rewrite <-Hr.
Qed.

Lemma trimEnd_idem (s : string) : Js.trimEnd (Js.trimEnd s) = Js.trimEnd s.
Proof.
  induction s as [|c r IH]; [done|].
  cbn [Js.trimEnd]. destruct (Js.blank (String c r)) eqn:Hb; [done|].
  cbn [Js.trimEnd]. rewrite IH.
  destruct (Js.blank (String c (Js.trimEnd r))) eqn:Hb'; [|done].
  destruct (trimEnd_split r) as (w & Hr & Hw).
  unfold Js.blank in Hb, Hb'.
  destruct (Js.trimStart (String c (Js.trimEnd r))) eqn:Ht; [|done].
  pose proof (trimStart_blank_app _ w Ht) as Happ.
  change (String c (Js.trimEnd r) +:+ w)
    with (String c (Js.trimEnd r +:+ w)) in Happ.
  rewrite <-Hr, Hw in Happ. by rewrite Happ in Hb.
Qed.

Lemma trim_idem (s : string) : Js.trim (Js.trim s) = Js.trim s.
Proof.
  unfold Js.trim.
  destruct (trimEnd_split (Js.trimStart s)) as (w & Hs & _).
  rewrite (trimStart_nohead (Js.trimEnd (Js.trimStart s))).
  - apply trimEnd_idem.
  - apply (headSpace_prefix _ w). rewrite <-Hs. apply headSpace_trimStart.
Qed.

(** X19. The label ids that [resolveConfig] hands to the Gmail poller are
    never empty and carry no blank at either end: each is a trimmed piece
    of the comma-separated setting, in the order of the setting, and the
    empty pieces are dropped. Without the setting the labels are INBOX
    and UNREAD. *)
Theorem gmail_labels_are_trimmed_and_not_empty
    (env : gmap string string) (toNumber : string → Z)
    (c : Gmail.GmailPollingConfig) :
  Gmail.resolveConfig env toNumber = Value c →
  Forall (λ l, l ≠ EmptyString ∧ Js.trim l = l) (Gmail.labelIds c)
  ∧ Gmail.labelIds c
    `sublist_of`
    (Js.trim <$> Js.splitComma (Js.getOr env "GMAIL_LABELS" "INBOX,UNREAD"))
  ∧ (∀ piece,
       piece ∈ Js.splitComma (Js.getOr env "GMAIL_LABELS" "INBOX,UNREAD") →
       Js.trim piece ≠ EmptyString → Js.trim piece ∈ Gmail.labelIds c)
  ∧ (Js.get env "GMAIL_LABELS" = None →
     Gmail.labelIds c = ["INBOX"; "UNREAD"]).
Proof.
  unfold Gmail.resolveConfig. intros H.
  destruct (Gmail.requireEnv env "GOOGLE_CLIENT_ID"); [|done].
  destruct (Gmail.requireEnv env "GOOGLE_CLIENT_SECRET"); [|done].
  destruct (Gmail.requireEnv env "GOOGLE_REFRESH_TOKEN"); [|done].
  injection H as <-. cbn [Gmail.labelIds]. split_and!.
  - apply Forall_forall. intros l [Hl Hin]%list_elem_of_filter.
    apply list_elem_of_fmap in Hin as (piece & -> & _).
    split; [done|apply trim_idem].
  - apply sublist_filter.
  - intros piece Hin Hne. apply list_elem_of_filter. split; [done|].
    apply list_elem_of_fmap. by exists piece.
  - unfold Js.get, Js.getOr. by intros ->.
Qed.

Lemma gmail_labels_are_trimmed_and_not_empty_witness :
  Gmail.resolveConfig Scenario.envGmailLabels Scenario.noNumber
  = Value Scenario.gmailLabelsConfig
  ∧ Forall (λ l, l ≠ EmptyString ∧ Js.trim l = l)
      (Gmail.labelIds Scenario.gmailLabelsConfig)
  ∧ Gmail.labelIds Scenario.gmailLabelsConfig
    `sublist_of`
    (Js.trim
     <$> Js.splitComma
           (Js.getOr Scenario.envGmailLabels "GMAIL_LABELS" "INBOX,UNREAD"))
  ∧ (∀ piece,
       piece
       ∈ Js.splitComma
           (Js.getOr Scenario.envGmailLabels "GMAIL_LABELS" "INBOX,UNREAD") →
       Js.trim piece ≠ EmptyString →
       Js.trim piece ∈ Gmail.labelIds Scenario.gmailLabelsConfig)
  ∧ (Js.get Scenario.envGmailLabels "GMAIL_LABELS" = None →
     Gmail.labelIds Scenario.gmailLabelsConfig = ["INBOX"; "UNREAD"]).
Proof.
  split; [vm_compute; reflexivity|].
  apply (gmail_labels_are_trimmed_and_not_empty Scenario.envGmailLabels
           Scenario.noNumber Scenario.gmailLabelsConfig).
  vm_compute; reflexivity.
Defined.

(** ** The Gmail cache under overlapping polls *)

Lemma cache_sound_log (cfg : Gmail.GmailPollingConfig) (l : Gmail.LogLine)
    (s : Gmail.Service) :
  cache_sound cfg s → cache_sound cfg (Gmail.log l s).
Proof.
  intros (Hcfg & Hq & history & Hinv & Hann).
  split_and!; [done|done|]. exists history. split; [done|].
  eapply Forall_impl; [exact Hann|]. intros x Hx.
  rewrite gmail_notifications_log. apply elem_of_app. by left.
Qed.

Lemma cache_sound_track (cfg : Gmail.GmailPollingConfig) (i : string)
    (s : Gmail.Service) :
  0 ≤ Gmail.processedCache cfg → i ≠ EmptyString →
  i ∈ Gmail.notifications s → cache_sound cfg s →
  ∃ s', Gmail.trackProcessed i s = Some s'
        ∧ cache_sound cfg s'
        ∧ Gmail.gmail s' = Gmail.gmail s
        ∧ Gmail.notifications s' = Gmail.notifications s.
Proof.
  intros Hcap Hi Hin (Hcfg & Hq & history & Hinv & Hann).
  unfold Gmail.trackProcessed. rewrite Hcfg. case_decide as Hcached.
  - exists s. split_and!; try done. split_and!; [done|done|]. by exists history.
  - destruct (insert_fresh _ _ _ _ i Hcap Hi Hq Hcached Hinv)
      as (q' & m' & -> & Hq' & Hinv').
    eexists. split; [reflexivity|]. split_and!; try done.
    split_and!; [done|done|]. exists (history ++ [i]). split; [done|].
    apply Forall_app. split; [done|by constructor].
Qed.

Lemma gmail_turn_sound (get : nat → string → Gmail.GetOutcome)
    (cfg : Gmail.GmailPollingConfig) (a : GmailAsync.Activation)
    (s : Gmail.Service) :
  0 ≤ Gmail.processedCache cfg → Gmail.gmail s = true →
  awaits_nonempty a → cache_sound cfg s →
  match GmailAsync.turn get a s with
  | GmailAsync.Suspended s' a' =>
      Gmail.gmail s' = true ∧ cache_sound cfg s' ∧ awaits_nonempty a'
  | GmailAsync.Settled s' => Gmail.gmail s' = true ∧ cache_sound cfg s'
  | GmailAsync.Hangs _ => False
  end.
Proof.
  intros Hcap Hg Ha Hs. destruct a as [[e|ms]|[|entry rest]|i answer rest].
  - split; [done|by apply cache_sound_log].
  - cbn [GmailAsync.turn].
    destruct (decide (length (default [] ms) = 0%nat)); [|done].
    split; [done|by apply cache_sound_log].
  - done.
  - cbn [GmailAsync.turn].
    destruct (Gmail.candidate entry s) as [i|] eqn:Hcand; [|done].
    apply gmail_candidate_Some in Hcand as (_ & Hi & _).
    rewrite Hg. simpl. done.
  - cbn [GmailAsync.turn]. destruct answer as [e|hs].
    + simpl. split; [done|by apply cache_sound_log].
    + destruct (gmail_inspected_Got i hs s)
        as (s1 & -> & Hn & Hg1 & Hcfg1 & Hq1 & Hm1).
      assert (cache_sound cfg s1) as Hs1.
      { destruct Hs as (Hcfg & Hq & history & Hinv & Hann).
        split_and!; [congruence|by rewrite Hq1|].
        exists history. rewrite Hq1, Hm1. split; [done|].
        eapply Forall_impl; [exact Hann|]. intros x Hx.
        rewrite Hn. apply elem_of_app. by left. }
      destruct (cache_sound_track cfg i s1 Hcap Ha)
        as (s2 & -> & Hs2 & Hg2 & _);
        [rewrite Hn; apply elem_of_app; right; by constructor|done|].
      split_and!; [congruence|done|done].
Qed.

Lemma gmail_step_sound (get : nat → string → Gmail.GetOutcome)
    (cfg : Gmail.GmailPollingConfig) (m : GmailAsync.Machine)
    (e : GmailAsync.Event) :
  0 ≤ Gmail.processedCache cfg →
  GmailAsync.stuck m = false
  ∧ (Gmail.gmail (GmailAsync.svc m) = true ∨ GmailAsync.inflight m = [])
  ∧ Forall awaits_nonempty (GmailAsync.inflight m)
  ∧ cache_sound cfg (GmailAsync.svc m) →
  let m' := GmailAsync.step get m e in
  GmailAsync.stuck m' = false
  ∧ (Gmail.gmail (GmailAsync.svc m') = true ∨ GmailAsync.inflight m' = [])
  ∧ Forall awaits_nonempty (GmailAsync.inflight m')
  ∧ cache_sound cfg (GmailAsync.svc m').
Proof.
  intros Hcap Hm. pose proof Hm as (Hstuck & Hg & Hact & Hs). cbn zeta.
  unfold GmailAsync.step. rewrite Hstuck. destruct e as [l|k].
  - destruct (negb (Gmail.gmail (GmailAsync.svc m))
              || negb (bool_decide
                         (is_Some (Gmail.config (GmailAsync.svc m)))))
      eqn:Hguard; [exact Hm|].
    apply orb_false_iff in Hguard as [Hon%negb_false_iff _].
    split_and!; [done|by left| |done].
    apply Forall_app. split; [done|by constructor].
  - destruct (GmailAsync.inflight m !! k) as [a|] eqn:Hk; [|exact Hm].
    destruct Hg as [Hg|Hnil]; [|by rewrite Hnil in Hk].
    pose proof (Forall_lookup_1 _ _ _ _ Hact Hk) as Ha.
    pose proof (gmail_turn_sound get cfg a (GmailAsync.svc m) Hcap Hg Ha Hs)
      as Hturn.
    destruct (GmailAsync.turn get a (GmailAsync.svc m)) as [s' a'|s'|s'];
      [|simpl|done].
    + destruct Hturn as (Hg' & Hs' & Ha'). simpl.
      split_and!; [done|by left|by apply Forall_insert|done].
    + destruct Hturn as (Hg' & Hs').
      split_and!; [done|by left|by apply Forall_delete|done].
Qed.

(** X21. Overlapping polls never damage the cache of the Gmail service.
    From an empty cache and a capacity that is not negative, after any
    sequence of cron ticks and resumptions of suspended polls, in any
    order, no poll hangs, the queue has no duplicate and at most
    [processedCache] entries, the set holds exactly the identifiers of the
    queue, and every cached identifier has been announced. *)
Theorem overlapping_polls_keep_cache_sound
    (get : nat → string → Gmail.GetOutcome)
    (cfg : Gmail.GmailPollingConfig) (events : list GmailAsync.Event)
    (s : Gmail.Service) :
  0 ≤ Gmail.processedCache cfg →
  Gmail.config s = Some cfg →
  Gmail.processedQueue s = [] → Gmail.processedSet s = ∅ →
  let m := GmailAsync.run get (GmailAsync.start s) events in
  let s' := GmailAsync.svc m in
  GmailAsync.stuck m = false
  ∧ Z.of_nat (length (Gmail.processedQueue s')) ≤ Gmail.processedCache cfg
  ∧ NoDup (Gmail.processedQueue s')
  ∧ (∀ x, x ∈ Gmail.processedSet s' ↔ x ∈ Gmail.processedQueue s')
  ∧ size (Gmail.processedSet s') = length (Gmail.processedQueue s')
  ∧ Forall (λ x, x ≠ EmptyString ∧ x ∈ Gmail.notifications s')
      (Gmail.processedQueue s').
Proof.
  intros Hcap Hcfg Hq Hm. cbn zeta.
  assert (GmailAsync.stuck (GmailAsync.start s) = false
          ∧ (Gmail.gmail (GmailAsync.svc (GmailAsync.start s)) = true
             ∨ GmailAsync.inflight (GmailAsync.start s) = [])
          ∧ Forall awaits_nonempty (GmailAsync.inflight (GmailAsync.start s))
          ∧ cache_sound cfg (GmailAsync.svc (GmailAsync.start s))) as Hstart.
  { split_and!; [done|by right|by constructor|].
    split_and!; [done|by simpl; rewrite Hq; constructor|].
    exists []. simpl. rewrite Hq, Hm. split; [|by constructor].
    by apply fifo_bounded_empty. }
  generalize dependent (GmailAsync.start s). clear Hq Hm Hcfg s.
  induction events as [|e events IH]; intros m Hinv.
  - destruct Hinv as (Hstuck & _ & _ & _ & Hq & history & Hfifo & Hann).
    destruct Hfifo as (Hlen & Hsize & Hnd & Hmirror & Hdrop).
    simpl. split_and!; try done.
    apply Forall_forall. intros x Hx. split.
    + by apply (proj1 (Forall_forall _ _) Hq).
    + apply (proj1 (Forall_forall _ _) Hann).
      rewrite Hdrop in Hx.
      eapply elem_of_sublist; [exact Hx|apply sublist_drop].
  - unfold GmailAsync.run. cbn [foldl].
    apply (IH (GmailAsync.step get m e)).
    by apply gmail_step_sound.
Qed.

Lemma overlapping_polls_keep_cache_sound_witness :
  let events :=
    [GmailAsync.Tick (Scenario.listing ["A"; "B"; "C"]);
     GmailAsync.Tick (Scenario.listing ["A"; "B"; "C"]);
     GmailAsync.Resume 0; GmailAsync.Resume 1; GmailAsync.Resume 0;
     GmailAsync.Resume 1; GmailAsync.Resume 1; GmailAsync.Resume 0;
     GmailAsync.Resume 0; GmailAsync.Resume 1; GmailAsync.Resume 0;
     GmailAsync.Resume 1; GmailAsync.Resume 0; GmailAsync.Resume 0]%nat in
  let m :=
    GmailAsync.run Scenario.getsSucceed
      (GmailAsync.start (Scenario.gmailReady 2)) events in
  let s' := GmailAsync.svc m in
  GmailAsync.stuck m = false
  ∧ Z.of_nat (length (Gmail.processedQueue s')) ≤ 2
  ∧ NoDup (Gmail.processedQueue s')
  ∧ (∀ x, x ∈ Gmail.processedSet s' ↔ x ∈ Gmail.processedQueue s')
  ∧ size (Gmail.processedSet s') = length (Gmail.processedQueue s')
  ∧ Forall (λ x, x ≠ EmptyString ∧ x ∈ Gmail.notifications s')
      (Gmail.processedQueue s').
Proof.
  exact
    (overlapping_polls_keep_cache_sound Scenario.getsSucceed
       (Scenario.gmailConfig 2)
       [GmailAsync.Tick (Scenario.listing ["A"; "B"; "C"]);
        GmailAsync.Tick (Scenario.listing ["A"; "B"; "C"]);
        GmailAsync.Resume 0; GmailAsync.Resume 1; GmailAsync.Resume 0;
        GmailAsync.Resume 1; GmailAsync.Resume 1; GmailAsync.Resume 0;
        GmailAsync.Resume 0; GmailAsync.Resume 1; GmailAsync.Resume 0;
        GmailAsync.Resume 1; GmailAsync.Resume 0; GmailAsync.Resume 0]%nat
       (Scenario.gmailReady 2) ltac:(done) eq_refl eq_refl eq_refl).
Defined.

(** ** Scans that find nothing *)

Lemma onExists_nothingNew (sendMail : nat → Mail.MailOptions → option string)
    (cfg : Mail.MailWatcherConfig) (sc : Mail.Scan) (s : Mail.Service) :
  Mail.processingMailbox s = false →
  nothingNew (Mail.lastProcessedUid s) sc →
  Mail.onExists sendMail cfg (Mail.scan_mailbox sc) (Mail.scan_fetched sc) s
  = s.
Proof.
  intros Hidle Hquiet. unfold Mail.onExists, Mail.handleNewMessages.
  rewrite Hidle.
  assert (Mail.nothingToFetch (Mail.scan_mailbox sc)
            (Mail.set_processingMailbox true s) = true) as ->.
  { unfold Mail.nothingToFetch, nothingNew in *.
    destruct (Mail.imapClient (Mail.set_processingMailbox true s)); [|done].
    destruct (Mail.scan_mailbox sc) as [m|]; [|done]. simpl.
    destruct Hquiet as [->|Hle]; [done|].
    rewrite (bool_decide_eq_true_2 (_ > _)) by lia. apply orb_true_r. }
  destruct s. simpl in *. by subst.
Qed.

(** X22. A scan fetches only when the selected mailbox is not empty and its
    next uid is above the cursor; a next uid that the server does not
    report counts as 0. From a service that is not scanning, any sequence
    of [exists] events that find nothing of the kind leaves the service
    exactly as it was: nothing is fetched, sent or logged and the cursor
    stays. An event that does find a next uid above the cursor, on a
    connected client, makes exactly one fetch. *)
Theorem scan_fetches_only_above_cursor
    (sendMail : nat → Mail.MailOptions → option string)
    (cfg : Mail.MailWatcherConfig) (scans : list Mail.Scan)
    (s : Mail.Service) :
  Mail.processingMailbox s = false →
  Forall (nothingNew (Mail.lastProcessedUid s)) scans →
  Mail.runScans sendMail cfg scans s = s
  ∧ ∀ (m : Mail.MailboxObject) (f : Mail.Fetched),
      Mail.imapClient s = true → Mail.exists_ m ≠ 0 →
      Mail.lastProcessedUid s < default 0 (Mail.uidNext m) →
      Mail.fetchCalls (Mail.onExists sendMail cfg (Some m) f s)
      = S (Mail.fetchCalls s).
Proof.
  intros Hidle Hquiet. split.
  - induction Hquiet as [|sc scans Hsc _ IH]; [done|].
    unfold Mail.runScans in *. cbn [foldl].
    by rewrite onExists_nothingNew.
  - intros m f Hclient Hexists Habove.
    unfold Mail.onExists, Mail.handleNewMessages. rewrite Hidle.
    assert (Mail.nothingToFetch (Some m) (Mail.set_processingMailbox true s)
            = false) as ->.
    { unfold Mail.nothingToFetch. simpl. rewrite Hclient. simpl.
      unfold Js.truthyNum. rewrite (bool_decide_eq_true_2 (_ ≠ 0)) by done.
      simpl. apply bool_decide_eq_false. lia. }
    pose proof (scanLoop_mails sendMail cfg (Mail.yielded f) (Mail.failure f)
                  (Mail.count_fetch (Mail.set_processingMailbox true s)))
      as [Hf _].
    destruct (Mail.scanLoop sendMail cfg _ _ _) as [s2 o]. simpl in Hf.
    by destruct o.
Qed.

Lemma scan_fetches_only_above_cursor_witness :
  let scans :=
    [{| Mail.scan_mailbox := Some Scenario.mailbox13;
        Mail.scan_fetched := Scenario.fetched_11_12_13 |};
     {| Mail.scan_mailbox := None;
        Mail.scan_fetched := Scenario.fetched_11_12_13 |};
     {| Mail.scan_mailbox := Some Scenario.mailboxNoUidNext;
        Mail.scan_fetched := Scenario.fetched_11_12_13 |}] in
  Mail.runScans Scenario.accepts Scenario.watcherConfig scans
    (Scenario.watching 15)
  = Scenario.watching 15
  ∧ ∀ (m : Mail.MailboxObject) (f : Mail.Fetched),
      Mail.imapClient (Scenario.watching 15) = true → Mail.exists_ m ≠ 0 →
      Mail.lastProcessedUid (Scenario.watching 15)
      < default 0 (Mail.uidNext m) →
      Mail.fetchCalls
        (Mail.onExists Scenario.accepts Scenario.watcherConfig (Some m) f
           (Scenario.watching 15))
      = S (Mail.fetchCalls (Scenario.watching 15)).
Proof.
  apply (scan_fetches_only_above_cursor Scenario.accepts
           Scenario.watcherConfig
           [{| Mail.scan_mailbox := Some Scenario.mailbox13;
               Mail.scan_fetched := Scenario.fetched_11_12_13 |};
            {| Mail.scan_mailbox := None;
               Mail.scan_fetched := Scenario.fetched_11_12_13 |};
            {| Mail.scan_mailbox := Some Scenario.mailboxNoUidNext;
               Mail.scan_fetched := Scenario.fetched_11_12_13 |}]
           (Scenario.watching 15)).
  - reflexivity.
  - apply Forall_cons. split; [right; simpl; lia|].
    apply Forall_cons. split; [exact I|].
    apply Forall_cons. split; [right; simpl; lia|].
    apply Forall_nil_2.
Defined.
